(** * The BigFrames expression tree and its caching executor

    A shallow embedding of [bigframes/core/nodes.py] (the immutable
    operator tree) and of [bigframes/session/executor.py] (the executor
    that rewrites plans with cached materializations), followed by the
    properties of the design document that are settled on it.

    Python values are modelled by their structure: tuples are lists, a
    frozen dataclass is a constructor carrying its fields in declaration
    order, [Optional] is [option], and a raised exception is the [Raise]
    branch of [result]. *)

From Stdlib Require Import List ZArith Bool String Ascii Lia Arith.
From Stdlib Require Import QArith Qcanon DecimalString DecimalNat FinFun.
Import ListNotations.

Close Scope Qc_scope.
Close Scope Q_scope.
Local Open Scope string_scope.
Local Open Scope list_scope.

Set Implicit Arguments.
Set Warnings "-register-all".

(* ================================================================= *)
(** * Python exceptions and fallible computations *)

Inductive PyError : Type :=
| ValueError (msg : string)
| TypeError (msg : string)
| KeyError (key : string)
| IndexError
| AttributeError
| NameError (name : string)
| AssertionError
| QueryComplexityError (msg : string)
| BadRequest (msg : string).

Inductive result (A : Type) : Type :=
| Ok (a : A)
| Raise (e : PyError).

Arguments Ok {A} a.
Arguments Raise {A} e.

Definition rbind {A B} (m : result A) (k : A -> result B) : result B :=
  match m with
  | Ok a => k a
  | Raise e => Raise e
  end.

Declare Scope result_scope.
Delimit Scope result_scope with result.
Notation "x <- m ;; k" := (rbind m (fun x => k))
  (at level 61, m at next level, right associativity) : result_scope.

Local Open Scope result_scope.

(** A comprehension [tuple(f(x) for x in xs)] whose body may raise: the
    first exception, in iteration order, wins. *)
Section rmap.

Context {A B : Type}.
Variable f : A -> result B.

Fixpoint rmap (xs : list A) : result (list B) :=
  match xs with
  | [] => Ok []
  | x :: xs' => y <- f x ;; ys <- rmap xs' ;; Ok (y :: ys)
  end.

End rmap.

(** The same for results that have already been computed. *)
Definition sequence {A} (rs : list (result A)) : result (list A) :=
  rmap (fun r => r) rs.

(** [any(f(x) for x in xs)]: the items are evaluated in order until one
    is true; an exception raised on the way comes out of [any]. *)
Section any_of.

Context {A : Type}.
Variable f : A -> result bool.

Fixpoint any_of (xs : list A) : result bool :=
  match xs with
  | [] => Ok false
  | x :: xs' => b <- f x ;; if b then Ok true else any_of xs'
  end.

End any_of.

(** [sum(xs)] on Python integers. *)
Definition sum (xs : list Z) : Z := fold_right Z.add 0%Z xs.

(** [len(xs)] *)
Definition len {A} (xs : list A) : Z := Z.of_nat (List.length xs).

Definition is_ok {A} (r : result A) : bool :=
  match r with Ok _ => true | Raise _ => false end.

Definition raises {A} (r : result A) : Prop := exists e, r = Raise e.

(* ================================================================= *)
(** * Strings, membership and Python's [set] idioms *)

Definition str_in (x : string) (xs : list string) : bool :=
  existsb (String.eqb x) xs.

(** [set(xs).issubset(ys)] *)
Definition issubset (xs ys : list string) : bool :=
  forallb (fun x => str_in x ys) xs.

(** [sorted(xs)] on strings, by insertion. *)
Fixpoint insert_sorted (x : string) (xs : list string) : list string :=
  match xs with
  | [] => [x]
  | y :: ys => if String.leb x y then x :: xs else y :: insert_sorted x ys
  end.

Definition sorted (xs : list string) : list string :=
  fold_right insert_sorted [] xs.

(** [str(i)] for a non-negative index, as used by the f-string
    [f"column_{i}"]. *)
Definition str_of_nat (i : nat) : string :=
  NilZero.string_of_uint (Nat.to_uint i).

(** [enumerate(xs)] starting from [start]. *)
Fixpoint enumerate_from {A} (start : nat) (xs : list A) : list (nat * A) :=
  match xs with
  | [] => []
  | x :: xs' => (start, x) :: enumerate_from (S start) xs'
  end.

Definition enumerate {A} (xs : list A) : list (nat * A) := enumerate_from 0 xs.

(* ================================================================= *)
(** * Collaborating modules that the tree is built from *)

(** Modelled from the spec: [bigframes.dtypes] is not part of the
    sources at hand; the design speaks of the "logical type" of a column,
    of an integer type for offsets and counts, and of array-typed columns
    with an element type. *)
Inductive Dtype : Type :=
| INT_DTYPE
| FLOAT_DTYPE
| BOOL_DTYPE
| STRING_DTYPE
| ARRAY_DTYPE (value_type : Dtype).

Definition Dtype_eq_dec : forall a b : Dtype, {a = b} + {a <> b}.
Proof. decide equality. Defined.

Module schemata.

(** Modelled from the spec: [bigframes.core.schema] is not part of the
    sources at hand; a schema is an "ordered sequence of (column id,
    logical type) pairs, unique ids, order significant". *)
Record SchemaItem : Type := mkSchemaItem { column : string; dtype : Dtype }.

Record ArraySchema : Type := mkArraySchema { items : list SchemaItem }.

Definition names (s : ArraySchema) : list string := map column (items s).

Definition dtypes (s : ArraySchema) : list Dtype := map dtype (items s).

(** [self._mapping[id]], a [KeyError] when the id is absent. *)
Fixpoint lookup (its : list SchemaItem) (id : string) : result Dtype :=
  match its with
  | [] => Raise (KeyError id)
  | it :: rest => if String.eqb (column it) id then Ok (dtype it) else lookup rest id
  end.

Definition get_type (s : ArraySchema) (id : string) : result Dtype :=
  lookup (items s) id.

Definition prepend (s : ArraySchema) (it : SchemaItem) : ArraySchema :=
  mkArraySchema (it :: items s).

Definition append (s : ArraySchema) (it : SchemaItem) : ArraySchema :=
  mkArraySchema (items s ++ [it]).

Definition update_dtype (s : ArraySchema) (id : string) (d : Dtype) : ArraySchema :=
  mkArraySchema
    (map (fun it => if String.eqb (column it) id then mkSchemaItem id d else it)
         (items s)).

End schemata.

Import schemata.

(** Modelled from the spec: [bigframes.core.expression] is not part of
    the sources at hand; the executor builds predicates with [free_var],
    [const] and an operator applied to sub-expressions, and the nodes ask
    an expression for its [unbound_variables] and whether it [is_identity]. *)
Inductive Expression : Type :=
| free_var (id : string)
| const (value : Z)
| OpExpression (op : string) (inputs : list Expression).

Fixpoint unbound_variables (e : Expression) : list string :=
  match e with
  | free_var id => [id]
  | const _ => []
  | OpExpression _ inputs => flat_map unbound_variables inputs
  end.

Definition is_identity (e : Expression) : bool :=
  match e with
  | free_var _ => true
  | _ => false
  end.

(** [ops.lt_op.as_expr(l, r)] *)
Definition lt_op_as_expr (l r : Expression) : Expression :=
  OpExpression "lt" [l; r].

(** Modelled from the spec: [bigframes.core.ordering]; a sort expression
    wraps a scalar expression, and a row ordering is total or not. *)
Record OrderingExpression : Type := mkOrderingExpression {
  scalar_expression : Expression;
  ascending : bool;
  na_last : bool
}.

Inductive RowOrdering : Type :=
| PartialOrdering (ordering_value_columns : list OrderingExpression)
| TotalOrdering (ordering_value_columns : list OrderingExpression).

Definition ordering_value_columns (o : RowOrdering) : list OrderingExpression :=
  match o with
  | PartialOrdering cols => cols
  | TotalOrdering cols => cols
  end.

Definition referenced_columns (o : RowOrdering) : list string :=
  flat_map (fun part => unbound_variables (scalar_expression part))
           (ordering_value_columns o).

(** [isinstance(ordering, orderings.TotalOrdering)] *)
Definition is_TotalOrdering (o : option RowOrdering) : bool :=
  match o with
  | Some (TotalOrdering _) => true
  | _ => false
  end.

(** [order.TotalOrdering.from_offset_col(col)] *)
Definition TotalOrdering_from_offset_col (col : string) : RowOrdering :=
  TotalOrdering [mkOrderingExpression (free_var col) true true].

(** Modelled from the spec: [bigframes.core.join_def]; a join carries an
    "explicit column-mapping definition", each mapping naming a side, a
    source id and a destination id. *)
Inductive JoinSide : Type := LEFT | RIGHT.

Record JoinColumnMapping : Type := mkJoinColumnMapping {
  source_table : JoinSide;
  source_id : string;
  destination_id : string
}.

Record JoinDefinition : Type := mkJoinDefinition {
  conditions : list (string * string);
  mappings : list JoinColumnMapping;
  join_type : string
}.

(** Modelled from the spec: aggregations and window operators are opaque
    to the tree apart from their typing (see [TypeRules] below). *)
Record Aggregation : Type := mkAggregation {
  agg_op : string;
  agg_inputs : list Expression
}.

Record WindowSpec : Type := mkWindowSpec {
  grouping_keys : list string;
  window_ordering : list OrderingExpression
}.

(** [google.cloud.bigquery.SchemaField]: only the name is read here. *)
Record SchemaField : Type := mkSchemaField {
  name : string;
  field_type : string
}.

(** Owning sessions are compared by identity. *)
Definition Session : Type := nat.

(** A Python [float].  A finite value is the rational it denotes: [0.0]
    and [-0.0] compare equal and hash alike, and are one value here.  A
    NaN compares unequal to every float, itself included; only the
    object that holds it tells it apart. *)
Inductive PyFloat : Type :=
| Finite (value : Qc)
| PosInf
| NegInf
| NaN (obj : nat).

(* ================================================================= *)
(** * [bigframes/core/nodes.py]: the node variants *)

(** A fixed number of variable to assume for overhead on some operations *)
Definition OVERHEAD_VARIABLES : Z := 5.

(** Each constructor is one frozen dataclass, its arguments the
    dataclass fields in declaration order (inherited [child] first).
    [SelectionNode] is referenced by the executor but declared in a
    revision of the module that is not at hand. *)
Inductive BigFrameNode : Type :=
| JoinNode (left_child right_child : BigFrameNode) (join : JoinDefinition)
| ConcatNode (children : list BigFrameNode)
| ReadLocalNode (feather_bytes : list Byte.byte) (data_schema : ArraySchema)
                (session : option Session)
| ReadTableNode (project_id dataset_id table_id : string)
                (physical_schema : list SchemaField)
                (columns : ArraySchema)
                (table_session : Session)
                (total_order_cols : list string)
                (order_col_is_sequential : bool)
                (at_time : option Z)
                (sql_predicate : option string)
| CachedTableNode (original_node : BigFrameNode)
                  (project_id dataset_id table_id : string)
                  (physical_schema : list SchemaField)
                  (ordering : option RowOrdering)
| PromoteOffsetsNode (child : BigFrameNode) (col_id : string)
| FilterNode (child : BigFrameNode) (predicate : Expression)
| OrderByNode (child : BigFrameNode) (by_ : list OrderingExpression)
| ReversedNode (child : BigFrameNode) (reversed : bool)
| ProjectionNode (child : BigFrameNode) (assignments : list (Expression * string))
| RowCountNode (child : BigFrameNode)
| AggregateNode (child : BigFrameNode)
                (aggregations : list (Aggregation * string))
                (by_column_ids : list string)
                (dropna : bool)
| WindowOpNode (child : BigFrameNode)
               (column_name : string)
               (op : string)
               (window_spec : WindowSpec)
               (output_name : option string)
               (never_skip_nulls : bool)
               (skip_reproject_unsafe : bool)
| ReprojectOpNode (child : BigFrameNode)
| RandomSampleNode (child : BigFrameNode) (fraction : PyFloat)
| ExplodeNode (child : BigFrameNode) (column_ids : list string)
| SelectionNode (child : BigFrameNode) (input_output_pairs : list (string * string)).

(** Structural induction that also reaches the children of a concat. *)
Section BigFrameNode_induction.

Variable P : BigFrameNode -> Prop.

Hypothesis HJoin : forall l r j, P l -> P r -> P (JoinNode l r j).
Hypothesis HConcat : forall cs, Forall P cs -> P (ConcatNode cs).
Hypothesis HReadLocal : forall b s se, P (ReadLocalNode b s se).
Hypothesis HReadTable : forall p d t ps c s o q a sp,
    P (ReadTableNode p d t ps c s o q a sp).
Hypothesis HCached : forall o p d t ps ord, P o -> P (CachedTableNode o p d t ps ord).
Hypothesis HPromote : forall c i, P c -> P (PromoteOffsetsNode c i).
Hypothesis HFilter : forall c e, P c -> P (FilterNode c e).
Hypothesis HOrderBy : forall c b, P c -> P (OrderByNode c b).
Hypothesis HReversed : forall c b, P c -> P (ReversedNode c b).
Hypothesis HProjection : forall c a, P c -> P (ProjectionNode c a).
Hypothesis HRowCount : forall c, P c -> P (RowCountNode c).
Hypothesis HAggregate : forall c a b d, P c -> P (AggregateNode c a b d).
Hypothesis HWindow : forall c n o w out ns sk, P c -> P (WindowOpNode c n o w out ns sk).
Hypothesis HReproject : forall c, P c -> P (ReprojectOpNode c).
Hypothesis HSample : forall c f, P c -> P (RandomSampleNode c f).
Hypothesis HExplode : forall c ids, P c -> P (ExplodeNode c ids).
Hypothesis HSelection : forall c ps, P c -> P (SelectionNode c ps).

Fixpoint BigFrameNode_tree_ind (n : BigFrameNode) : P n :=
  match n with
  | JoinNode l r j => HJoin j (BigFrameNode_tree_ind l) (BigFrameNode_tree_ind r)
  | ConcatNode cs =>
      HConcat ((fix all (l : list BigFrameNode) : Forall P l :=
                  match l with
                  | [] => Forall_nil P
                  | c :: l' => Forall_cons c (BigFrameNode_tree_ind c) (all l')
                  end) cs)
  | ReadLocalNode b s se => HReadLocal b s se
  | ReadTableNode p d t ps c s o q a sp => HReadTable p d t ps c s o q a sp
  | CachedTableNode o p d t ps ord => HCached p d t ps ord (BigFrameNode_tree_ind o)
  | PromoteOffsetsNode c i => HPromote i (BigFrameNode_tree_ind c)
  | FilterNode c e => HFilter e (BigFrameNode_tree_ind c)
  | OrderByNode c b => HOrderBy b (BigFrameNode_tree_ind c)
  | ReversedNode c b => HReversed b (BigFrameNode_tree_ind c)
  | ProjectionNode c a => HProjection a (BigFrameNode_tree_ind c)
  | RowCountNode c => HRowCount (BigFrameNode_tree_ind c)
  | AggregateNode c a b d => HAggregate a b d (BigFrameNode_tree_ind c)
  | WindowOpNode c n o w out ns sk => HWindow n o w out ns sk (BigFrameNode_tree_ind c)
  | ReprojectOpNode c => HReproject (BigFrameNode_tree_ind c)
  | RandomSampleNode c f => HSample f (BigFrameNode_tree_ind c)
  | ExplodeNode c ids => HExplode ids (BigFrameNode_tree_ind c)
  | SelectionNode c ps => HSelection ps (BigFrameNode_tree_ind c)
  end.

End BigFrameNode_induction.

(** [child_nodes]: the direct children.  The cached original of a
    [CachedTableNode] "isn't a child node". *)
Definition child_nodes (n : BigFrameNode) : list BigFrameNode :=
  match n with
  | JoinNode l r _ => [l; r]
  | ConcatNode cs => cs
  | ReadLocalNode _ _ _ => []
  | ReadTableNode _ _ _ _ _ _ _ _ _ _ => []
  | CachedTableNode _ _ _ _ _ _ => []
  | PromoteOffsetsNode c _ => [c]
  | FilterNode c _ => [c]
  | OrderByNode c _ => [c]
  | ReversedNode c _ => [c]
  | ProjectionNode c _ => [c]
  | RowCountNode c => [c]
  | AggregateNode c _ _ _ => [c]
  | WindowOpNode c _ _ _ _ _ _ => [c]
  | ReprojectOpNode c => [c]
  | RandomSampleNode c _ => [c]
  | ExplodeNode c _ => [c]
  | SelectionNode c _ => [c]
  end.

(** [order_ambiguous]: [UnaryNode] passes the child's flag on, the
    other classes override it.  [CachedTableNode] evaluates
    [isinstance(self.ordering, orderings.TotalOrdering)], and the module
    binds the name [orderings] only under [typing.TYPE_CHECKING]: at run
    time the lookup of that name raises [NameError], which the unary
    nodes and [any] in [ConcatNode] pass on. *)
Fixpoint order_ambiguous (n : BigFrameNode) : result bool :=
  match n with
  | JoinNode _ _ _ => Ok true
  | ConcatNode cs => any_of order_ambiguous cs
  | ReadLocalNode _ _ _ => Ok false
  | ReadTableNode _ _ _ _ _ _ total_order_cols _ _ _ =>
      Ok (len total_order_cols =? 0)%Z
  | CachedTableNode _ _ _ _ _ _ => Raise (NameError "orderings")
  | AggregateNode _ _ _ _ => Ok false
  | PromoteOffsetsNode c _ => order_ambiguous c
  | FilterNode c _ => order_ambiguous c
  | OrderByNode c _ => order_ambiguous c
  | ReversedNode c _ => order_ambiguous c
  | ProjectionNode c _ => order_ambiguous c
  | RowCountNode c => order_ambiguous c
  | WindowOpNode c _ _ _ _ _ _ => order_ambiguous c
  | ReprojectOpNode c => order_ambiguous c
  | RandomSampleNode c _ => order_ambiguous c
  | ExplodeNode c _ => order_ambiguous c
  | SelectionNode c _ => order_ambiguous c
  end.

(** [joins]: whether the node joins data. *)
Definition joins (n : BigFrameNode) : bool :=
  match n with
  | JoinNode _ _ _ => true
  | _ => false
  end.

(** Python's [int(b)] *)
Definition int_of_bool (b : bool) : Z := if b then 1%Z else 0%Z.

(** A bottom-up pass that combines a node with the results of its
    [child_nodes], the shape of the memoized [total_*] properties. *)
Section fold_children.

Context {R : Type}.
Variable f : BigFrameNode -> list R -> R.

Fixpoint fold_children (n : BigFrameNode) : R :=
  f n
    match n with
    | JoinNode l r _ => [fold_children l; fold_children r]
    | ConcatNode cs => map fold_children cs
    | ReadLocalNode _ _ _ => []
    | ReadTableNode _ _ _ _ _ _ _ _ _ _ => []
    | CachedTableNode _ _ _ _ _ _ => []
    | PromoteOffsetsNode c _ => [fold_children c]
    | FilterNode c _ => [fold_children c]
    | OrderByNode c _ => [fold_children c]
    | ReversedNode c _ => [fold_children c]
    | ProjectionNode c _ => [fold_children c]
    | RowCountNode c => [fold_children c]
    | AggregateNode c _ _ _ => [fold_children c]
    | WindowOpNode c _ _ _ _ _ _ => [fold_children c]
    | ReprojectOpNode c => [fold_children c]
    | RandomSampleNode c _ => [fold_children c]
    | ExplodeNode c _ => [fold_children c]
    | SelectionNode c _ => [fold_children c]
    end.

End fold_children.

(** [total_joins] *)
Definition total_joins : BigFrameNode -> Z :=
  fold_children (fun n cs => int_of_bool (joins n) + sum cs)%Z.

(** What the tree needs from declarations that are not at hand: the
    typing of expressions, aggregations and window operators, and the
    cost properties of [SelectionNode]. *)
Record Collaborators : Type := mkCollaborators {
  (** [expression.output_type(input_types)], a [TypeError] if invalid *)
  expression_output_type : Expression -> ArraySchema -> result Dtype;
  (** [agg.output_type(input_types)] *)
  aggregation_output_type : Aggregation -> ArraySchema -> result Dtype;
  (** [bigframes.dtypes.dtype_for_etype] *)
  dtype_for_etype : Dtype -> result Dtype;
  (** [op.output_type(input_type)] of a window operator *)
  window_output_type : string -> Dtype -> result Dtype;
  (** [SelectionNode.variables_introduced], a count *)
  selection_variables_introduced : list (string * string) -> nat;
  (** [SelectionNode.relation_ops_created], a count *)
  selection_relation_ops_created : list (string * string) -> nat
}.

(** [arrow_dtype_to_bigframes_dtype(d.pyarrow_dtype.value_type)]: only
    list types have a [value_type]. *)
Definition array_value_type (d : Dtype) : result Dtype :=
  match d with
  | ARRAY_DTYPE v => Ok v
  | _ => Raise AttributeError
  end.

Section Nodes.

Variable env : Collaborators.

(** [schema], a [cached_property] of each class. *)
Fixpoint schema (n : BigFrameNode) : result ArraySchema :=
  match n with
  | JoinNode l r j =>
      its <- rmap (fun mapping =>
               side <- match source_table mapping with
                       | LEFT => schema l
                       | RIGHT => schema r
                       end ;;
               result_dtype <- get_type side (source_id mapping) ;;
               Ok (mkSchemaItem (destination_id mapping) result_dtype))
             (mappings j) ;;
      Ok (mkArraySchema its)
  | ConcatNode cs =>
      match cs with
      | [] => Raise IndexError
      | c0 :: _ =>
          s0 <- schema c0 ;;
          Ok (mkArraySchema
                (map (fun '(i, d) => mkSchemaItem ("column_" ++ str_of_nat i) d)
                     (enumerate (dtypes s0))))
      end
  | ReadLocalNode _ data_schema _ => Ok data_schema
  | ReadTableNode _ _ _ _ columns _ _ _ _ _ => Ok columns
  | CachedTableNode o _ _ _ _ _ => schema o
  | PromoteOffsetsNode c col_id =>
      s <- schema c ;; Ok (prepend s (mkSchemaItem col_id INT_DTYPE))
  | ProjectionNode c assignments =>
      input_types <- schema c ;;
      its <- rmap (fun '(ex, id) =>
               t <- expression_output_type env ex input_types ;;
               d <- dtype_for_etype env t ;;
               Ok (mkSchemaItem id d))
             assignments ;;
      Ok (mkArraySchema its)
  | RowCountNode _ => Ok (mkArraySchema [mkSchemaItem "count" INT_DTYPE])
  | AggregateNode c aggregations by_column_ids _ =>
      s <- schema c ;;
      by_items <- rmap (fun id => d <- get_type s id ;; Ok (mkSchemaItem id d))
                    by_column_ids ;;
      agg_items <- rmap (fun '(agg, id) =>
                     t <- aggregation_output_type env agg s ;;
                     d <- dtype_for_etype env t ;;
                     Ok (mkSchemaItem id d))
                   aggregations ;;
      Ok (mkArraySchema (by_items ++ agg_items))
  | WindowOpNode c column_name op _ output_name _ _ =>
      s <- schema c ;;
      input_type <- get_type s column_name ;;
      new_item_dtype <- window_output_type env op input_type ;;
      match output_name with
      | None => Ok (update_dtype s column_name new_item_dtype)
      | Some out =>
          if str_in out (names s)
          then Ok (update_dtype s out new_item_dtype)
          else Ok (append s (mkSchemaItem out new_item_dtype))
      end
  | ExplodeNode c column_ids =>
      s <- schema c ;;
      its <- rmap (fun name =>
               if str_in name column_ids
               then d <- get_type s name ;;
                    v <- array_value_type d ;;
                    Ok (mkSchemaItem name v)
               else d <- get_type s name ;; Ok (mkSchemaItem name d))
             (names s) ;;
      Ok (mkArraySchema its)
  | SelectionNode c input_output_pairs =>
      (* Modelled from the spec: the selection that ends a head plan
         "drops the offset column", keeping the columns it lists. *)
      s <- schema c ;;
      its <- rmap (fun '(input, output) =>
               d <- get_type s input ;; Ok (mkSchemaItem output d))
             input_output_pairs ;;
      Ok (mkArraySchema its)
  | FilterNode c _ => schema c
  | OrderByNode c _ => schema c
  | ReversedNode c _ => schema c
  | ReprojectOpNode c => schema c
  | RandomSampleNode c _ => schema c
  end.

(** [variables_introduced]: the number of values created by the node. *)
Definition variables_introduced (n : BigFrameNode) : result Z :=
  match n with
  | JoinNode _ _ _ => Ok OVERHEAD_VARIABLES
  | ConcatNode _ => s <- schema n ;; Ok (len (items s) + OVERHEAD_VARIABLES)%Z
  | ReadLocalNode _ _ _ => s <- schema n ;; Ok (len (items s) + 1)%Z
  | ReadTableNode _ _ _ _ _ _ _ _ _ _ => s <- schema n ;; Ok (len (items s) + 1)%Z
  | CachedTableNode _ _ _ _ _ _ =>
      s <- schema n ;; Ok (len (items s) + OVERHEAD_VARIABLES)%Z
  | PromoteOffsetsNode _ _ => Ok 1%Z
  | FilterNode _ _ => Ok 1%Z
  | OrderByNode _ _ => Ok 0%Z
  | ReversedNode _ _ => Ok 0%Z
  | ProjectionNode _ assignments =>
      Ok (sum (map (fun _ => 1%Z)
                   (filter (fun i => negb (is_identity (fst i))) assignments)))
  | RowCountNode _ => Ok 1%Z
  | AggregateNode _ aggregations by_column_ids _ =>
      Ok (len aggregations + len by_column_ids)%Z
  | WindowOpNode _ _ _ _ _ _ _ => Ok 1%Z
  | ReprojectOpNode _ => Ok 0%Z
  | RandomSampleNode _ _ => Ok 1%Z
  | ExplodeNode _ column_ids => Ok (len column_ids + 1)%Z
  | SelectionNode _ ps => Ok (Z.of_nat (selection_variables_introduced env ps))
  end.

(** [relation_ops_created]: 1 unless the class overrides it. *)
Definition relation_ops_created (n : BigFrameNode) : Z :=
  match n with
  | ReadTableNode _ _ _ _ _ _ _ _ _ _ => 3
  | PromoteOffsetsNode _ _ => 2
  | OrderByNode _ _ => 0
  | ReversedNode _ _ => 0
  | WindowOpNode _ _ _ _ _ _ skip_reproject_unsafe =>
      if skip_reproject_unsafe then 0 else 4
  | ReprojectOpNode _ => 0
  | ExplodeNode _ _ => 3
  | SelectionNode _ ps => Z.of_nat (selection_relation_ops_created env ps)
  | _ => 1
  end%Z.

(** [total_variables] *)
Definition total_variables : BigFrameNode -> result Z :=
  fold_children (fun n cs =>
    v <- variables_introduced n ;;
    ts <- sequence cs ;;
    Ok (v + sum ts)%Z).

(** [total_relational_ops] *)
Definition total_relational_ops : BigFrameNode -> Z :=
  fold_children (fun n cs => relation_ops_created n + sum cs)%Z.

(** [planning_complexity]: empirical heuristic measure of planning
    complexity. *)
Definition planning_complexity (n : BigFrameNode) : result Z :=
  tv <- total_variables n ;;
  Ok (tv * total_relational_ops n * (1 + total_joins n))%Z.

End Nodes.

(* ----------------------------------------------------------------- *)
(** ** Session resolution *)

(** The non-[None] entries, in order: the [sessions] list of
    [BigFrameNode.session]. *)
Definition not_none {A} (xs : list (option A)) : list A :=
  flat_map (fun o => match o with Some s => [s] | None => [] end) xs.

(** [len(set(sessions))] *)
Definition unique_count (sessions : list Session) : nat :=
  List.length (nodup Nat.eq_dec sessions).

(** The body of [BigFrameNode.session], given the [session] of each
    child in order (a child whose own resolution raises propagates). *)
Definition BigFrameNode_session (child_sessions : list (result (option Session)))
  : result (option Session) :=
  resolved <- sequence child_sessions ;;
  let sessions := not_none resolved in
  let unique_sessions := unique_count sessions in
  if (1 <? unique_sessions)%nat
  then Raise (ValueError "Cannot use combine sources from multiple sessions.")
  else if (unique_sessions =? 1)%nat
       then match sessions with
            | s :: _ => Ok (Some s)
            | [] => Raise IndexError
            end
       else Ok None.

(** [session]: the leaves override the inherited property; a cached
    table answers with the session of the tree it replaced. *)
Fixpoint session (n : BigFrameNode) : result (option Session) :=
  match n with
  | ReadLocalNode _ _ s => Ok s
  | ReadTableNode _ _ _ _ _ table_session _ _ _ _ => Ok (Some table_session)
  | CachedTableNode o _ _ _ _ _ => session o
  | JoinNode l r _ => BigFrameNode_session [session l; session r]
  | ConcatNode cs => BigFrameNode_session (map session cs)
  | PromoteOffsetsNode c _ => BigFrameNode_session [session c]
  | FilterNode c _ => BigFrameNode_session [session c]
  | OrderByNode c _ => BigFrameNode_session [session c]
  | ReversedNode c _ => BigFrameNode_session [session c]
  | ProjectionNode c _ => BigFrameNode_session [session c]
  | RowCountNode c => BigFrameNode_session [session c]
  | AggregateNode c _ _ _ => BigFrameNode_session [session c]
  | WindowOpNode c _ _ _ _ _ _ => BigFrameNode_session [session c]
  | ReprojectOpNode c => BigFrameNode_session [session c]
  | RandomSampleNode c _ => BigFrameNode_session [session c]
  | ExplodeNode c _ => BigFrameNode_session [session c]
  | SelectionNode c _ => BigFrameNode_session [session c]
  end.

(** The owning sessions of the sources below a node, transitively; a
    cached table stands for the tree it replaced. *)
Fixpoint source_sessions (n : BigFrameNode) : list Session :=
  match n with
  | ReadLocalNode _ _ s => not_none [s]
  | ReadTableNode _ _ _ _ _ table_session _ _ _ _ => [table_session]
  | CachedTableNode o _ _ _ _ _ => source_sessions o
  | JoinNode l r _ => source_sessions l ++ source_sessions r
  | ConcatNode cs => flat_map source_sessions cs
  | PromoteOffsetsNode c _ => source_sessions c
  | FilterNode c _ => source_sessions c
  | OrderByNode c _ => source_sessions c
  | ReversedNode c _ => source_sessions c
  | ProjectionNode c _ => source_sessions c
  | RowCountNode c => source_sessions c
  | AggregateNode c _ _ _ => source_sessions c
  | WindowOpNode c _ _ _ _ _ _ => source_sessions c
  | ReprojectOpNode c => source_sessions c
  | RandomSampleNode c _ => source_sessions c
  | ExplodeNode c _ => source_sessions c
  | SelectionNode c _ => source_sessions c
  end.

(* ----------------------------------------------------------------- *)
(** ** Construction: [__post_init__] of each dataclass *)

Definition dtypes_eq_dec : forall a b : list Dtype, {a = b} + {a <> b} :=
  list_eq_dec Dtype_eq_dec.

Section Construction.

Variable env : Collaborators.

Definition ConcatNode__post_init__ (children : list BigFrameNode) : result unit :=
  if (len children =? 0)%Z
  then Raise (ValueError "Concat requires at least one input table. Zero provided.")
  else
    child_schemas <- rmap (fun child => s <- schema env child ;; Ok (dtypes s))
                       children ;;
    if negb (List.length (nodup dtypes_eq_dec child_schemas) =? 1)%nat
    then Raise (ValueError "All inputs must have identical dtypes. {child_schemas}")
    else Ok tt.

Definition ReadTableNode__post_init__
    (physical_schema : list SchemaField) (columns : ArraySchema)
    (total_order_cols : list string) (order_col_is_sequential : bool)
  : result unit :=
  let physical_names := map name physical_schema in
  if negb (issubset (names columns) physical_names)
  then Raise (ValueError "Requested schema cannot be derived from table schemal")
  else if order_col_is_sequential && negb (len total_order_cols =? 1)%Z
       then Raise (ValueError "Sequential primary key must have only one component")
       else Ok tt.

(** [CachedTableNode.hidden_columns]: physical columns used to define
    ordering but not directly exposed as value columns. *)
Definition hidden_columns (original_node : BigFrameNode)
    (ordering : option RowOrdering) : result (list string) :=
  match ordering with
  | None => Ok []
  | Some o =>
      s <- schema env original_node ;;
      Ok (filter (fun col => negb (str_in col (names s)))
                 (sorted (referenced_columns o)))
  end.

Definition CachedTableNode__post_init__
    (original_node : BigFrameNode) (physical_schema : list SchemaField)
    (ordering : option RowOrdering) : result unit :=
  let physical_names := map name physical_schema in
  s <- schema env original_node ;;
  let logical_names := names s in
  if negb (issubset logical_names physical_names)
  then Raise (ValueError "Requested schema cannot be derived from table schema")
  else
    hidden <- hidden_columns original_node ordering ;;
    if negb (issubset hidden physical_names)
    then Raise (ValueError "Requested hidden columns cannot be derived from table schema")
    else Ok tt.

Definition OrderByNode__post_init__
    (child : BigFrameNode) (by_ : list OrderingExpression) : result unit :=
  s <- schema env child ;;
  let available_variables := names s in
  match find (fun variable => negb (str_in variable available_variables))
             (flat_map (fun order_expr =>
                          unbound_variables (scalar_expression order_expr)) by_)
  with
  | Some variable => Raise (ValueError ("Cannot over unknown id:" ++ variable))
  | None => Ok tt
  end.

Definition ProjectionNode__post_init__
    (child : BigFrameNode) (assignments : list (Expression * string)) : result unit :=
  input_types <- schema env child ;;
  _ <- rmap (fun '(expression, _) => expression_output_type env expression input_types)
         assignments ;;
  Ok tt.

(** The check that runs when [n] is built; the classes without a
    [__post_init__] accept any fields. *)
Definition __post_init__ (n : BigFrameNode) : result unit :=
  match n with
  | ConcatNode cs => ConcatNode__post_init__ cs
  | ReadTableNode _ _ _ physical_schema columns _ total_order_cols seq _ _ =>
      ReadTableNode__post_init__ physical_schema columns total_order_cols seq
  | CachedTableNode o _ _ _ physical_schema ordering =>
      CachedTableNode__post_init__ o physical_schema ordering
  | OrderByNode c by_ => OrderByNode__post_init__ c by_
  | ProjectionNode c assignments => ProjectionNode__post_init__ c assignments
  | _ => Ok tt
  end.

(** Calling the dataclass constructor: the node, or the exception of
    its [__post_init__]. *)
Definition construct (n : BigFrameNode) : result BigFrameNode :=
  _ <- __post_init__ n ;; Ok n.

End Construction.

(* ================================================================= *)
(** * Hashing and equality of nodes *)

(** ** Python's [hash] on numbers

    [sys.hash_info.modulus] is the Mersenne prime 2^61 - 1; the hash of
    an integer is its residue, with the sign kept and -1 (the error code
    of the C API) replaced by -2. *)
Definition _PyHASH_MODULUS : Z := 2 ^ 61 - 1.

Definition hash_int (z : Z) : Z :=
  let h := (Z.sgn z * (Z.abs z mod _PyHASH_MODULUS))%Z in
  if (h =? -1)%Z then (-2)%Z else h.

Definition hash_bool (b : bool) : Z := hash_int (int_of_bool b).

(** [pow(b, e, m)] by repeated squaring. *)
Fixpoint pow_mod (b : Z) (e : positive) (m : Z) : Z :=
  match e with
  | xH => (b mod m)%Z
  | xO e' => let r := pow_mod b e' m in ((r * r) mod m)%Z
  | xI e' => let r := pow_mod b e' m in ((((r * r) mod m) * b) mod m)%Z
  end.

(** [sys.hash_info.inf] *)
Definition _PyHASH_INF : Z := 314159.

(** [hash_fraction(m, n)] of the language reference ("Hashing of numeric
    types"), for a fraction in lowest terms: the hash of any number equal
    to m/n, whatever its type. *)
Definition hash_fraction (m : Z) (n : positive) : Z :=
  let P := _PyHASH_MODULUS in
  let hash_value :=
    if (Zpos n mod P =? 0)%Z
    then _PyHASH_INF
    else ((Z.abs m mod P) * pow_mod (Zpos n) (Z.to_pos (P - 2)) P mod P)%Z in
  let hash_value := if (m <? 0)%Z then (- hash_value)%Z else hash_value in
  if (hash_value =? -1)%Z then (-2)%Z else hash_value.

(** The hash of a finite [float] is that of the rational it denotes. *)
Definition hash_finite_float (x : Qc) : Z := hash_fraction (Qnum x) (Qden x).

(** ** The hash functions of the values a node is built from

    String and bytes hashes are keyed per process, and the classes of
    the collaborating modules bring their own [__hash__]; the hash of a
    tuple is a function of the hashes of its items. *)
Record PyHash : Type := mkPyHash {
  hash_str : string -> Z;
  hash_bytes : list Byte.byte -> Z;
  hash_tuple : list Z -> Z;
  hash_None : Z;
  hash_ArraySchema : ArraySchema -> Z;
  hash_Expression : Expression -> Z;
  hash_OrderingExpression : OrderingExpression -> Z;
  hash_RowOrdering : RowOrdering -> Z;
  hash_JoinDefinition : JoinDefinition -> Z;
  hash_Aggregation : Aggregation -> Z;
  hash_WindowSpec : WindowSpec -> Z;
  hash_SchemaField : SchemaField -> Z;
  hash_Session : Session -> Z;
  hash_datetime : Z -> Z;
  (** the hash of a NaN object: [sys.hash_info.nan] up to Python 3.9,
      derived from the identity of the object since *)
  hash_nan : nat -> Z
}.

(** Whether the class body defines [__hash__] as [self._node_hash];
    [RowCountNode] does not and gets the dataclass-generated hash of its
    field tuple. *)
Definition defines___hash__ (n : BigFrameNode) : bool :=
  match n with
  | RowCountNode _ => false
  | _ => true
  end.

Section Hashing.

Variable H : PyHash.

Definition hash_optional {A} (h : A -> Z) (o : option A) : Z :=
  match o with
  | Some a => h a
  | None => hash_None H
  end.

(** [hash(x)] on a [float]. *)
Definition hash_float (x : PyFloat) : Z :=
  match x with
  | Finite value => hash_finite_float value
  | PosInf => _PyHASH_INF
  | NegInf => (- _PyHASH_INF)%Z
  | NaN obj => hash_nan H obj
  end.

(** The hash of a tuple whose items hash with [h]. *)
Definition hash_tuple_of {A} (h : A -> Z) (xs : list A) : Z :=
  hash_tuple H (map h xs).

Definition hash_pair {A B} (ha : A -> Z) (hb : B -> Z) (p : A * B) : Z :=
  hash_tuple H [ha (fst p); hb (snd p)].

(** [hash(tuple(hash(getattr(self, field.name)) for field in fields(self)))]:
    the items of the tuple are the integers [hash(field)], which are
    hashed once more as integers. *)
Definition hash_of_field_hashes (field_hashes : list Z) : Z :=
  hash_tuple H (map hash_int field_hashes).

(** [hash(n)], from the hashes of the fields of [n]. *)
Definition hash_with (n : BigFrameNode) (field_hashes : list Z) : Z :=
  if defines___hash__ n
  then hash_of_field_hashes field_hashes
  else hash_tuple H field_hashes.

(** [hash(getattr(self, field.name))] for each dataclass field, in
    declaration order. *)
Fixpoint field_hashes (n : BigFrameNode) : list Z :=
  let hash_node c := hash_with c (field_hashes c) in
  match n with
  | JoinNode l r j => [hash_node l; hash_node r; hash_JoinDefinition H j]
  | ConcatNode cs => [hash_tuple H (map (fun c => hash_with c (field_hashes c)) cs)]
  | ReadLocalNode b s se =>
      [hash_bytes H b; hash_ArraySchema H s; hash_optional (hash_Session H) se]
  | ReadTableNode p d t ps c s o q a sp =>
      [hash_str H p; hash_str H d; hash_str H t;
       hash_tuple_of (hash_SchemaField H) ps; hash_ArraySchema H c;
       hash_Session H s; hash_tuple_of (hash_str H) o; hash_bool q;
       hash_optional (hash_datetime H) a; hash_optional (hash_str H) sp]
  | CachedTableNode o p d t ps ord =>
      [hash_node o; hash_str H p; hash_str H d; hash_str H t;
       hash_tuple_of (hash_SchemaField H) ps;
       hash_optional (hash_RowOrdering H) ord]
  | PromoteOffsetsNode c i => [hash_node c; hash_str H i]
  | FilterNode c e => [hash_node c; hash_Expression H e]
  | OrderByNode c b => [hash_node c; hash_tuple_of (hash_OrderingExpression H) b]
  | ReversedNode c b => [hash_node c; hash_bool b]
  | ProjectionNode c a =>
      [hash_node c; hash_tuple_of (hash_pair (hash_Expression H) (hash_str H)) a]
  | RowCountNode c => [hash_node c]
  | AggregateNode c a b d =>
      [hash_node c;
       hash_tuple_of (hash_pair (hash_Aggregation H) (hash_str H)) a;
       hash_tuple_of (hash_str H) b; hash_bool d]
  | WindowOpNode c n o w out ns sk =>
      [hash_node c; hash_str H n; hash_str H o; hash_WindowSpec H w;
       hash_optional (hash_str H) out; hash_bool ns; hash_bool sk]
  | ReprojectOpNode c => [hash_node c]
  | RandomSampleNode c f => [hash_node c; hash_float f]
  | ExplodeNode c ids => [hash_node c; hash_tuple_of (hash_str H) ids]
  | SelectionNode c ps =>
      [hash_node c; hash_tuple_of (hash_pair (hash_str H) (hash_str H)) ps]
  end.

(** [BigFrameNode._node_hash] *)
Definition _node_hash (n : BigFrameNode) : Z :=
  hash_of_field_hashes (field_hashes n).

(** [hash(n)], that is [n.__hash__()] *)
Definition py_hash (n : BigFrameNode) : Z := hash_with n (field_hashes n).

End Hashing.

(** ** Equality

    The values that the nodes carry are compared by their structure. *)
Definition Expression_eq_dec : forall a b : Expression, {a = b} + {a <> b}.
Proof.
  fix IH 1. decide equality.
  - apply string_dec.
  - apply Z.eq_dec.
  - apply (list_eq_dec IH).
  - apply string_dec.
Defined.

Definition OrderingExpression_eq_dec : forall a b : OrderingExpression, {a = b} + {a <> b}.
Proof. decide equality; try apply bool_dec. apply Expression_eq_dec. Defined.

Definition RowOrdering_eq_dec : forall a b : RowOrdering, {a = b} + {a <> b}.
Proof. decide equality; apply (list_eq_dec OrderingExpression_eq_dec). Defined.

Definition JoinDefinition_eq_dec : forall a b : JoinDefinition, {a = b} + {a <> b}.
Proof.
  decide equality.
  - apply string_dec.
  - apply list_eq_dec. decide equality; try apply string_dec. decide equality.
  - apply list_eq_dec. decide equality; apply string_dec.
Defined.

Definition ArraySchema_eq_dec : forall a b : ArraySchema, {a = b} + {a <> b}.
Proof.
  decide equality. apply list_eq_dec.
  decide equality; [apply Dtype_eq_dec | apply string_dec].
Defined.

Definition SchemaField_eq_dec : forall a b : SchemaField, {a = b} + {a <> b}.
Proof. decide equality; apply string_dec. Defined.

Definition Aggregation_eq_dec : forall a b : Aggregation, {a = b} + {a <> b}.
Proof.
  decide equality; [apply (list_eq_dec Expression_eq_dec) | apply string_dec].
Defined.

Definition WindowSpec_eq_dec : forall a b : WindowSpec, {a = b} + {a <> b}.
Proof.
  decide equality;
    [apply (list_eq_dec OrderingExpression_eq_dec) | apply (list_eq_dec string_dec)].
Defined.

Definition option_eq_dec {A} (dec : forall a b : A, {a = b} + {a <> b}) :
  forall a b : option A, {a = b} + {a <> b}.
Proof. decide equality. Defined.

Definition pair_eq_dec {A B} (da : forall a b : A, {a = b} + {a <> b})
    (db : forall a b : B, {a = b} + {a <> b}) :
  forall a b : A * B, {a = b} + {a <> b}.
Proof. decide equality. Defined.

Definition PyFloat_eq_dec : forall a b : PyFloat, {a = b} + {a <> b}.
Proof. decide equality; [apply Qc_eq_dec | apply Nat.eq_dec]. Defined.

Definition BigFrameNode_eq_dec : forall a b : BigFrameNode, {a = b} + {a <> b}.
Proof.
  fix IH 1.
  decide equality;
    try apply string_dec; try apply bool_dec; try apply PyFloat_eq_dec;
    try apply JoinDefinition_eq_dec; try apply ArraySchema_eq_dec;
    try apply Expression_eq_dec; try apply WindowSpec_eq_dec;
    try apply Nat.eq_dec;
    try (apply option_eq_dec; first [apply string_dec | apply Z.eq_dec
                                     | apply Nat.eq_dec | apply RowOrdering_eq_dec]);
    try (apply list_eq_dec;
         first [apply IH | apply string_dec | apply SchemaField_eq_dec
                | apply OrderingExpression_eq_dec | apply Byte.byte_eq_dec
                | apply pair_eq_dec;
                  first [apply string_dec | apply Expression_eq_dec
                         | apply Aggregation_eq_dec]]).
Defined.

(** [a == b] on a field whose values are compared by their structure. *)
Definition eqb_of {A} (dec : forall a b : A, {a = b} + {a <> b}) (a b : A) : bool :=
  if dec a b then true else false.

(** Two [float] fields as the comparison of the field tuples sees them:
    the same object, or two floats that are [==].  Two NaN are never
    [==], so a NaN field is equal to itself only. *)
Definition float_eqb (x y : PyFloat) : bool :=
  match x, y with
  | Finite a, Finite b => Qeq_bool a b
  | PosInf, PosInf => true
  | NegInf, NegInf => true
  | NaN i, NaN j => Nat.eqb i j
  | _, _ => false
  end.

(** [a == b] on nodes, the [__eq__] that [@dataclass] generates: [True]
    when both are of the same class and the tuples of their fields, in
    declaration order, are equal; nodes of different classes are not
    equal. *)
Fixpoint node_eqb (a b : BigFrameNode) {struct a} : bool :=
  match a, b with
  | JoinNode l r j, JoinNode l' r' j' =>
      node_eqb l l' && node_eqb r r' && eqb_of JoinDefinition_eq_dec j j'
  | ConcatNode cs, ConcatNode cs' =>
      (fix tuple_eqb (xs ys : list BigFrameNode) {struct xs} : bool :=
         match xs, ys with
         | [], [] => true
         | x :: xs', y :: ys' => node_eqb x y && tuple_eqb xs' ys'
         | _, _ => false
         end) cs cs'
  | ReadLocalNode b s se, ReadLocalNode b' s' se' =>
      eqb_of (list_eq_dec Byte.byte_eq_dec) b b'
      && eqb_of ArraySchema_eq_dec s s'
      && eqb_of (option_eq_dec Nat.eq_dec) se se'
  | ReadTableNode p d t ps c s o q at_ sp,
    ReadTableNode p' d' t' ps' c' s' o' q' at_' sp' =>
      eqb_of string_dec p p' && eqb_of string_dec d d' && eqb_of string_dec t t'
      && eqb_of (list_eq_dec SchemaField_eq_dec) ps ps'
      && eqb_of ArraySchema_eq_dec c c'
      && eqb_of Nat.eq_dec s s'
      && eqb_of (list_eq_dec string_dec) o o'
      && eqb_of bool_dec q q'
      && eqb_of (option_eq_dec Z.eq_dec) at_ at_'
      && eqb_of (option_eq_dec string_dec) sp sp'
  | CachedTableNode o p d t ps ord, CachedTableNode o' p' d' t' ps' ord' =>
      node_eqb o o'
      && eqb_of string_dec p p' && eqb_of string_dec d d' && eqb_of string_dec t t'
      && eqb_of (list_eq_dec SchemaField_eq_dec) ps ps'
      && eqb_of (option_eq_dec RowOrdering_eq_dec) ord ord'
  | PromoteOffsetsNode c i, PromoteOffsetsNode c' i' =>
      node_eqb c c' && eqb_of string_dec i i'
  | FilterNode c e, FilterNode c' e' =>
      node_eqb c c' && eqb_of Expression_eq_dec e e'
  | OrderByNode c b, OrderByNode c' b' =>
      node_eqb c c' && eqb_of (list_eq_dec OrderingExpression_eq_dec) b b'
  | ReversedNode c b, ReversedNode c' b' =>
      node_eqb c c' && eqb_of bool_dec b b'
  | ProjectionNode c xs, ProjectionNode c' xs' =>
      node_eqb c c'
      && eqb_of (list_eq_dec (pair_eq_dec Expression_eq_dec string_dec)) xs xs'
  | RowCountNode c, RowCountNode c' => node_eqb c c'
  | AggregateNode c xs b d, AggregateNode c' xs' b' d' =>
      node_eqb c c'
      && eqb_of (list_eq_dec (pair_eq_dec Aggregation_eq_dec string_dec)) xs xs'
      && eqb_of (list_eq_dec string_dec) b b'
      && eqb_of bool_dec d d'
  | WindowOpNode c n o w out ns sk, WindowOpNode c' n' o' w' out' ns' sk' =>
      node_eqb c c'
      && eqb_of string_dec n n' && eqb_of string_dec o o'
      && eqb_of WindowSpec_eq_dec w w'
      && eqb_of (option_eq_dec string_dec) out out'
      && eqb_of bool_dec ns ns' && eqb_of bool_dec sk sk'
  | ReprojectOpNode c, ReprojectOpNode c' => node_eqb c c'
  | RandomSampleNode c f, RandomSampleNode c' f' =>
      node_eqb c c' && float_eqb f f'
  | ExplodeNode c ids, ExplodeNode c' ids' =>
      node_eqb c c' && eqb_of (list_eq_dec string_dec) ids ids'
  | SelectionNode c ps, SelectionNode c' ps' =>
      node_eqb c c'
      && eqb_of (list_eq_dec (pair_eq_dec string_dec string_dec)) ps ps'
  | _, _ => false
  end.

(* ================================================================= *)
(** * [bigframes/session/executor.py]: the caching executor *)

(** Max complexity that should be executed as a single query.  The
    source writes the float [1e7]; it is an exact integer, and so is its
    quotient by 500. *)
Definition QUERY_COMPLEXITY_LIMIT : Z := 10000000.

(** Number of times to factor out subqueries before giving up. *)
Definition MAX_SUBTREE_FACTORINGS : nat := 5.

Definition _MAX_CLUSTER_COLUMNS : Z := 4.

Record TableReference : Type := mkTableReference {
  project : string;
  dataset_id : string;
  table_id : string
}.

Record QueryJobConfig : Type := mkQueryJobConfig {
  destination : option TableReference;
  maximum_bytes_billed : option Z;
  labels : list (string * string)
}.

Definition default_QueryJobConfig : QueryJobConfig :=
  mkQueryJobConfig None None [].

Record QueryJob : Type := mkQueryJob {
  job_sql : string;
  job_destination : TableReference
}.

Definition RowIterator : Type := list (list Z).

(** The cache, a [weakref.WeakKeyDictionary]: original subtree to its
    materialized replacement, latest binding first.  An assignment
    under a key equal to one that is bound replaces that binding.  The
    dictionary holds its keys weakly, so a binding disappears with the
    last reference to its key object; the list keeps no account of
    that, and what is stated of the cache either bounds the bindings it
    can hold or is about a key that enters with the assignment. *)
Definition Cache : Type := list (BigFrameNode * BigFrameNode).

Definition cache_set (k v : BigFrameNode) (c : Cache) : Cache :=
  (k, v) :: filter (fun kv => negb (node_eqb (fst kv) k)) c.

(** What the executor does to the outside, in order. *)
Inductive Event : Type :=
| EvQuery (sql : string) (job_config : QueryJobConfig)
| EvCreateTempTable (schema : list SchemaField) (cluster_cols : list string)
| EvWarn (msg : string).

(** The mutable part: the cache of the executor, the guid counter of
    [bigframes.core.guid], and the trace of outside effects (latest
    first). *)
Record State : Type := mkState {
  _cached_executions : Cache;
  guid_counter : nat;
  trace : list Event
}.

(** The collaborators of the executor: [tree_properties], the SQL
    compiler, the warehouse client, the storage manager and the
    process-wide options.  None of them is part of the sources at hand. *)
Record Externals : Type := mkExternals {
  replace_nodes : BigFrameNode -> Cache -> BigFrameNode;
  row_count : BigFrameNode -> option Z;
  can_fast_head : BigFrameNode -> bool;
  can_fast_peek : BigFrameNode -> bool;
  (** [select_cache_target(node, min_complexity, max_complexity, cache, heuristic)]
      with the heuristic that the executor always passes *)
  select_cache_target : BigFrameNode -> Z -> Z -> Cache -> option BigFrameNode;
  (** [node.explicitly_ordered] *)
  explicitly_ordered : BigFrameNode -> bool;
  compile_ordered : BigFrameNode -> list (string * string) -> string;
  compile_unordered : BigFrameNode -> list (string * string) -> string;
  compile_peek : BigFrameNode -> Z -> string;
  compile_raw : BigFrameNode -> string * list SchemaField * option RowOrdering;
  (** [bqclient.query(sql, job_config)] followed by waiting on the job *)
  bq_query : string -> QueryJobConfig -> result (RowIterator * QueryJob);
  (** [bqclient.get_table(ref).schema] *)
  get_table_schema : TableReference -> list SchemaField;
  (** [storage_manager.create_temp_table(schema, cluster_cols)] *)
  create_temp_table : list SchemaField -> list string -> TableReference;
  (** [bq_io.select_cluster_cols] and [bq_io.add_labels] *)
  select_cluster_cols : list SchemaField -> list string -> list string;
  add_labels : QueryJobConfig -> option string -> QueryJobConfig;
  (** [ArraySchema.to_bigquery] *)
  to_bigquery : ArraySchema -> list SchemaField;
  (** [bigframes.options.compute] *)
  enable_multi_query_execution : bool;
  option_maximum_bytes_billed : option Z
}.

(** Computations of the executor: they read and write the [State] and
    may raise; the state survives an exception. *)
Definition Exec (A : Type) : Type := State -> result A * State.

Definition ret {A} (a : A) : Exec A := fun s => (Ok a, s).

Definition throw {A} (e : PyError) : Exec A := fun s => (Raise e, s).

Definition bind {A B} (m : Exec A) (k : A -> Exec B) : Exec B :=
  fun s =>
    match m s with
    | (Ok a, s') => k a s'
    | (Raise e, s') => (Raise e, s')
    end.

Definition lift {A} (r : result A) : Exec A := fun s => (r, s).

Definition get_cache : Exec Cache := fun s => (Ok (_cached_executions s), s).

Definition set_cache (k v : BigFrameNode) : Exec unit :=
  fun s => (Ok tt, mkState (cache_set k v (_cached_executions s))
                           (guid_counter s) (trace s)).

Definition emit (e : Event) : Exec unit :=
  fun s => (Ok tt, mkState (_cached_executions s) (guid_counter s) (e :: trace s)).

(** [bigframes.core.guid.generate_guid(prefix)] *)
Definition generate_guid (prefix : string) : Exec string :=
  fun s => (Ok (prefix ++ str_of_nat (guid_counter s))%string,
            mkState (_cached_executions s) (S (guid_counter s)) (trace s)).

(** [assert cond] *)
Definition assert (cond : bool) : Exec unit :=
  if cond then ret tt else throw AssertionError.

Declare Scope exec_scope.
Delimit Scope exec_scope with exec.
Notation "x <- m ;; k" := (bind m (fun x => k))
  (at level 61, m at next level, right associativity) : exec_scope.
Notation "m ;;; k" := (bind m (fun _ => k))
  (at level 61, right associativity) : exec_scope.

(** [pat in msg] on strings *)
Definition contains (pat msg : string) : bool :=
  match String.index 0 pat msg with
  | Some _ => true
  | None => false
  end.

(** [generate_row_count_plan] *)
Definition generate_row_count_plan (node : BigFrameNode) : BigFrameNode :=
  RowCountNode node.

Section Executor.

Variable env : Collaborators.
Variable ext : Externals.

(** [self.strictly_ordered], fixed when the executor is created. *)
Variable strictly_ordered : bool.

Local Open Scope exec_scope.

(** [generate_head_plan]: offsets are promoted under a fresh id, the
    rows with an offset below [n] are kept, and the selection names
    the columns of [node] again. *)
Definition generate_head_plan (node : BigFrameNode) (n : Z) : Exec BigFrameNode :=
  offsets_id <- generate_guid "offsets_" ;;
  let plan_w_offsets := PromoteOffsetsNode node offsets_id in
  let predicate := lt_op_as_expr (free_var offsets_id) (const n) in
  let plan_w_head := FilterNode plan_w_offsets predicate in
  s <- lift (schema env node) ;;
  ret (SelectionNode plan_w_head (map (fun i => (i, i)) (names s))).

(** [_get_optimized_plan]: at present, the only optimization is to
    replace subtrees with cached previous materializations. *)
Definition _get_optimized_plan (node : BigFrameNode) : Exec BigFrameNode :=
  cache <- get_cache ;;
  ret (replace_nodes ext node cache).

(** [_run_execute_query]: starts the query job and waits for results. *)
Definition _run_execute_query (sql : string) (job_config : option QueryJobConfig)
    (api_name : option string) : Exec (RowIterator * QueryJob) :=
  let job_config :=
    match job_config with
    | None => default_QueryJobConfig
    | Some c => c
    end in
  let job_config :=
    match option_maximum_bytes_billed ext with
    | Some b => mkQueryJobConfig (destination job_config) (Some b) (labels job_config)
    | None => job_config
    end in
  let job_config := add_labels ext job_config api_name in
  let job_config :=
    if negb strictly_ordered
    then mkQueryJobConfig (destination job_config) (maximum_bytes_billed job_config)
                          (("bigframes-mode", "unordered") :: labels job_config)
    else job_config in
  emit (EvQuery sql job_config) ;;;
  match bq_query ext sql job_config with
  | Ok r => ret r
  | Raise (BadRequest message) =>
      if contains "Resources exceeded during query execution" message
      then throw (QueryComplexityError
                    "Computation is too complex to execute as a single query. Try using DataFrame.cache() on intermediate results, or setting bigframes.options.compute.enable_multi_query_execution.")
      else throw (BadRequest message)
  | Raise e => throw e
  end.

(** [_sql_as_cached_temp_table] *)
Definition _sql_as_cached_temp_table (sql : string) (schema : list SchemaField)
    (cluster_cols : list string) : Exec TableReference :=
  assert (len cluster_cols <=? _MAX_CLUSTER_COLUMNS)%Z ;;;
  emit (EvCreateTempTable schema cluster_cols) ;;;
  let temp_table := create_temp_table ext schema cluster_cols in
  let job_config := mkQueryJobConfig (Some temp_table) None [] in
  r <- _run_execute_query sql (Some job_config) (Some "cached") ;;
  ret (job_destination (snd r)).

(** Modelled from the spec: [ArrayValue.as_cached] is not part of the
    sources at hand; it registers "a CachedTable node" that embeds "the
    original pre-substitution node", "a physical materialized-table
    reference, and an optional total ordering". *)
Definition as_cached (node : BigFrameNode) (cache_table : TableReference)
    (ordering : option RowOrdering) : Exec BigFrameNode :=
  lift (construct env
          (CachedTableNode node (project cache_table) (dataset_id cache_table)
                           (table_id cache_table)
                           (get_table_schema ext cache_table) ordering)).

(** Modelled from the spec: [ArrayValue.promote_offsets] is not part of
    the sources at hand; it "injects one new leading deterministic
    integer column" under a fresh id and returns that id. *)
Definition promote_offsets (node : BigFrameNode) : Exec (BigFrameNode * string) :=
  col_id <- generate_guid "col_" ;;
  ret (PromoteOffsetsNode node col_id, col_id).

(** [_cache_with_cluster_cols]: executes the query and uses the
    resulting table to rewrite future executions. *)
Definition _cache_with_cluster_cols (node : BigFrameNode) (cluster_cols : list string)
  : Exec unit :=
  plan <- _get_optimized_plan node ;;
  let '(sql, schema, ordering_info) := compile_raw ext plan in
  tmp_table <- _sql_as_cached_temp_table sql schema
                 (select_cluster_cols ext schema cluster_cols) ;;
  cached_replacement <- as_cached node tmp_table ordering_info ;;
  set_cache node cached_replacement.

(** [_cache_with_offsets] *)
Definition _cache_with_offsets (node : BigFrameNode) : Exec unit :=
  if negb strictly_ordered
  then throw (ValueError "Caching with offsets only supported in strictly ordered mode.")
  else
    _ <- generate_guid "bigframes_offsets" ;;
    w <- promote_offsets node ;;
    let '(w_offsets, offset_column) := w in
    plan <- _get_optimized_plan w_offsets ;;
    let sql := compile_unordered ext plan [] in
    w_schema <- lift (schema env w_offsets) ;;
    tmp_table <- _sql_as_cached_temp_table sql (to_bigquery ext w_schema)
                   [offset_column] ;;
    cached_replacement <- as_cached node tmp_table
                            (Some (TotalOrdering_from_offset_col offset_column)) ;;
    set_cache node cached_replacement.

(** [_cache_most_complex_subtree] *)
Definition _cache_most_complex_subtree (node : BigFrameNode) : Exec bool :=
  cache <- get_cache ;;
  let selection :=
    select_cache_target ext node (QUERY_COMPLEXITY_LIMIT / 500)%Z
                        QUERY_COMPLEXITY_LIMIT cache in
  match selection with
  | None => ret false
  | Some target => _cache_with_cluster_cols target [] ;;; ret true
  end.

(** The loop of [_simplify_with_caching], with the iterations of
    [range(MAX_SUBTREE_FACTORINGS)] that remain. *)
Fixpoint simplify_loop (remaining : nat) (node : BigFrameNode) : Exec unit :=
  match remaining with
  | O => ret tt
  | S remaining' =>
      node_with_cache <- _get_optimized_plan node ;;
      complexity <- lift (planning_complexity env node_with_cache) ;;
      if (complexity <? QUERY_COMPLEXITY_LIMIT)%Z
      then ret tt
      else
        did_cache <- _cache_most_complex_subtree node ;;
        if negb did_cache then ret tt else simplify_loop remaining' node
  end.

(** [_simplify_with_caching]: attempts to handle the complexity by
    caching duplicated subtrees and breaking the query into pieces. *)
Definition _simplify_with_caching (node : BigFrameNode) : Exec unit :=
  simplify_loop MAX_SUBTREE_FACTORINGS node.

(** [to_sql]; [if offset_column:] is false for [None] and for the
    empty string. *)
Definition to_sql (node : BigFrameNode) (offset_column : option string)
    (col_id_overrides : list (string * string)) (ordered enable_cache : bool)
  : Exec string :=
  p <- match offset_column with
       | Some (String _ _ as oc) =>
           w <- promote_offsets node ;;
           ret (fst w, col_id_overrides ++ [(snd w, oc)])
       | _ => ret (node, col_id_overrides)
       end ;;
  let '(node, col_id_overrides) := p in
  plan <- (if enable_cache then _get_optimized_plan node else ret node) ;;
  if ordered
  then ret (compile_ordered ext plan col_id_overrides)
  else ret (compile_unordered ext plan col_id_overrides).

(** [execute] *)
Definition execute (node : BigFrameNode) (ordered : bool)
    (col_id_overrides : list (string * string)) (use_explicit_destination : bool)
  : Exec (RowIterator * QueryJob) :=
  (if enable_multi_query_execution ext then _simplify_with_caching node else ret tt) ;;;
  sql <- to_sql node None col_id_overrides ordered true ;;
  job_config <-
    (if use_explicit_destination
     then
       s <- lift (schema env node) ;;
       emit (EvCreateTempTable (to_bigquery ext s) []) ;;;
       ret (mkQueryJobConfig (Some (create_temp_table ext (to_bigquery ext s) []))
                             None [])
     else ret default_QueryJobConfig) ;;
  _run_execute_query sql (Some job_config) None.

(** [peek]: a cheap read of a few rows, with a warning when the plan
    does not support it. *)
Definition peek (node : BigFrameNode) (n_rows : Z) : Exec (RowIterator * QueryJob) :=
  plan <- _get_optimized_plan node ;;
  (if negb (can_fast_peek ext plan)
   then emit (EvWarn "Peeking this value cannot be done efficiently.")
   else ret tt) ;;;
  let sql := compile_peek ext plan n_rows in
  _run_execute_query sql None None.

(** [_local_get_row_count] *)
Definition _local_get_row_count (node : BigFrameNode) : Exec (option Z) :=
  plan <- _get_optimized_plan node ;;
  ret (row_count ext plan).

(** The tail of [head] once a plan that supports a fast head is at
    hand: build the head plan, compile it ordered, run it. *)
Definition run_head_plan (plan : BigFrameNode) (n_rows : Z)
  : Exec (RowIterator * QueryJob) :=
  head_plan <- generate_head_plan plan n_rows ;;
  let sql := compile_ordered ext head_plan [] in
  _run_execute_query sql None None.

(** [head]: preview the first n rows. *)
Definition head (node : BigFrameNode) (n_rows : Z) : Exec (RowIterator * QueryJob) :=
  maybe_row_count <- _local_get_row_count node ;;
  if match maybe_row_count with
     | Some c => (c <=? n_rows)%Z
     | None => false
     end
  then execute node true [] false
  else
    if negb strictly_ordered && negb (explicitly_ordered ext node)
    then peek node n_rows
    else
      plan <- _get_optimized_plan node ;;
      plan <- (if negb (can_fast_head ext plan)
               then
                 _cache_with_offsets node ;;;
                 plan <- _get_optimized_plan node ;;
                 assert (can_fast_head ext plan) ;;;
                 ret plan
               else ret plan) ;;
      run_head_plan plan n_rows.

(** [get_row_count] *)
Definition get_row_count (node : BigFrameNode) : Exec Z :=
  count <- _local_get_row_count node ;;
  match count with
  | Some c => ret c
  | None =>
      row_count_plan <- _get_optimized_plan (generate_row_count_plan node) ;;
      let sql := compile_unordered ext row_count_plan [] in
      r <- _run_execute_query sql None None ;;
      match fst r with
      | (v :: _) :: _ => ret v
      | _ => throw IndexError
      end
  end.

End Executor.

(* ================================================================= *)
(** * Concrete collaborators and trees used as instances *)

(** A typing in which every expression, aggregation and window operator
    is integer-valued. *)
Definition int_typing : Collaborators :=
  mkCollaborators (fun _ _ => Ok INT_DTYPE) (fun _ _ => Ok INT_DTYPE)
                  (fun d => Ok d) (fun _ _ => Ok INT_DTYPE)
                  (fun _ => 0%nat) (fun _ => 1%nat).

(** A table read with columns [k] and [v], parameterized by its session
    and declared total-order columns. *)
Definition table_kv (owner : Session) (total_order_cols : list string) : BigFrameNode :=
  ReadTableNode "project" "dataset" "table"
    [mkSchemaField "k" "INTEGER"; mkSchemaField "v" "INTEGER"]
    (mkArraySchema [mkSchemaItem "k" INT_DTYPE; mkSchemaItem "v" INT_DTYPE])
    owner total_order_cols false None None.

(** The scenario of the design document: a table read without declared
    order columns, filtered, then aggregated by column "k". *)
Definition scenario_table : BigFrameNode := table_kv 1 [].

Definition scenario_filter : BigFrameNode :=
  FilterNode scenario_table (lt_op_as_expr (free_var "v") (const 10)).

Definition scenario_aggregate : BigFrameNode :=
  AggregateNode scenario_filter [(mkAggregation "sum" [free_var "v"], "total")]
                ["k"] true.

(** A join of two table reads owned by different sessions. *)
Definition two_session_join : BigFrameNode :=
  JoinNode (table_kv 1 ["k"]) (table_kv 2 ["k"])
    (mkJoinDefinition [("k", "k")]
       [mkJoinColumnMapping LEFT "k" "k"; mkJoinColumnMapping RIGHT "v" "v2"]
       "inner").

(** An empty local batch. *)
Definition empty_local : BigFrameNode := ReadLocalNode [] (mkArraySchema []) None.

(* ================================================================= *)
(** * Vocabulary of the statements and further instances *)

(** Whether the node is an [AggregateNode], the one unary class that
    overrides [order_ambiguous]. *)
Definition is_AggregateNode (n : BigFrameNode) : bool :=
  match n with
  | AggregateNode _ _ _ _ => true
  | _ => false
  end.

(** Two children with different column names and the same dtypes. *)
Definition renamed_local : BigFrameNode :=
  ReadLocalNode [] (mkArraySchema [mkSchemaItem "a" INT_DTYPE;
                                   mkSchemaItem "b" STRING_DTYPE]) None.

Definition renamed_concat : BigFrameNode :=
  ConcatNode [renamed_local;
              ReadLocalNode [] (mkArraySchema [mkSchemaItem "x" INT_DTYPE;
                                               mkSchemaItem "y" STRING_DTYPE]) None].

(** The constructions that the design calls fatal. *)
Inductive construction_violation (env : Collaborators) : BigFrameNode -> Prop :=
| concat_without_children :
    construction_violation env (ConcatNode [])
| concat_dtype_mismatch children c1 c2 s1 s2 :
    In c1 children -> In c2 children ->
    schema env c1 = Ok s1 -> schema env c2 = Ok s2 ->
    dtypes s1 <> dtypes s2 ->
    construction_violation env (ConcatNode children)
| order_by_unbound_variable child by_ s order_expr variable :
    schema env child = Ok s ->
    In order_expr by_ ->
    In variable (unbound_variables (scalar_expression order_expr)) ->
    ~ In variable (names s) ->
    construction_violation env (OrderByNode child by_)
| read_table_columns_not_physical p d t physical_schema columns s o q a sp col :
    In col (names columns) ->
    ~ In col (map name physical_schema) ->
    construction_violation env (ReadTableNode p d t physical_schema columns s o q a sp)
| read_table_sequential_key p d t physical_schema columns s total_order_cols a sp :
    List.length total_order_cols <> 1%nat ->
    construction_violation env
      (ReadTableNode p d t physical_schema columns s total_order_cols true a sp)
| cached_table_logical_not_physical o p d t physical_schema ordering s col :
    schema env o = Ok s ->
    In col (names s) ->
    ~ In col (map name physical_schema) ->
    construction_violation env (CachedTableNode o p d t physical_schema ordering)
| cached_table_hidden_not_physical o p d t physical_schema ordering s col :
    schema env o = Ok s ->
    In col (referenced_columns ordering) ->
    ~ In col (names s) ->
    ~ In col (map name physical_schema) ->
    construction_violation env
      (CachedTableNode o p d t physical_schema (Some ordering)).

(** A concat of an integer column with a string column. *)
Definition mismatched_concat : BigFrameNode :=
  ConcatNode [ReadLocalNode [] (mkArraySchema [mkSchemaItem "a" INT_DTYPE]) None;
              ReadLocalNode [] (mkArraySchema [mkSchemaItem "a" STRING_DTYPE]) None].

Definition mixed_sessions_error : PyError :=
  ValueError "Cannot use combine sources from multiple sessions.".

(** What [session] answers for a node whose sources are owned by
    [sources]. *)
Definition session_spec (sources : list Session) (r : result (option Session)) : Prop :=
  match r with
  | Ok None => sources = []
  | Ok (Some s) => sources <> [] /\ forall x, In x sources -> x = s
  | Raise e =>
      (exists x y, In x sources /\ In y sources /\ x <> y) /\ e = mixed_sessions_error
  end.

(** A crude instance of the hash functions: strings and bytes hash to
    their length, a tuple to the sum of its item hashes. *)
Definition length_hash : PyHash :=
  mkPyHash (fun s => Z.of_nat (String.length s)) (fun b => len b) sum 0%Z
           (fun s => len (items s)) (fun e => len (unbound_variables e))
           (fun _ => 1%Z) (fun _ => 2%Z) (fun _ => 3%Z) (fun _ => 4%Z)
           (fun _ => 5%Z) (fun _ => 6%Z) (fun s => Z.of_nat s) (fun t => t)
           (fun _ => 0%Z).

(** Sampling all rows, and the same node with the fraction changed to
    2^61. *)
Definition sample_all : BigFrameNode :=
  RandomSampleNode empty_local (Finite (Q2Qc 1)).

Definition sample_changed : BigFrameNode :=
  RandomSampleNode empty_local (Finite (Q2Qc (inject_Z (2 ^ 61)))).

(** The class and the parameters of a node without its children: the
    node with every child replaced by the empty local batch, a concat
    keeping none. *)
Definition without_children (n : BigFrameNode) : BigFrameNode :=
  match n with
  | JoinNode _ _ j => JoinNode empty_local empty_local j
  | ConcatNode _ => ConcatNode []
  | ReadLocalNode _ _ _ => n
  | ReadTableNode _ _ _ _ _ _ _ _ _ _ => n
  | CachedTableNode _ _ _ _ _ _ => n
  | PromoteOffsetsNode _ i => PromoteOffsetsNode empty_local i
  | FilterNode _ e => FilterNode empty_local e
  | OrderByNode _ b => OrderByNode empty_local b
  | ReversedNode _ b => ReversedNode empty_local b
  | ProjectionNode _ a => ProjectionNode empty_local a
  | RowCountNode _ => RowCountNode empty_local
  | AggregateNode _ a b d => AggregateNode empty_local a b d
  | WindowOpNode _ n o w out ns sk => WindowOpNode empty_local n o w out ns sk
  | ReprojectOpNode _ => ReprojectOpNode empty_local
  | RandomSampleNode _ f => RandomSampleNode empty_local f
  | ExplodeNode _ ids => ExplodeNode empty_local ids
  | SelectionNode _ ps => SelectionNode empty_local ps
  end.

(** The variant sequence of a tree with the parameters at every node:
    the nodes from the root down, a parent before its children and the
    children from left to right, each as its class and parameters
    together with the number of its children. *)
Fixpoint node_sequence (n : BigFrameNode) : list (BigFrameNode * nat) :=
  (without_children n, List.length (child_nodes n)) ::
  match n with
  | JoinNode l r _ => node_sequence l ++ node_sequence r
  | ConcatNode cs => flat_map node_sequence cs
  | ReadLocalNode _ _ _ => []
  | ReadTableNode _ _ _ _ _ _ _ _ _ _ => []
  | CachedTableNode _ _ _ _ _ _ => []
  | PromoteOffsetsNode c _ => node_sequence c
  | FilterNode c _ => node_sequence c
  | OrderByNode c _ => node_sequence c
  | ReversedNode c _ => node_sequence c
  | ProjectionNode c _ => node_sequence c
  | RowCountNode c => node_sequence c
  | AggregateNode c _ _ _ => node_sequence c
  | WindowOpNode c _ _ _ _ _ _ => node_sequence c
  | ReprojectOpNode c => node_sequence c
  | RandomSampleNode c _ => node_sequence c
  | ExplodeNode c _ => node_sequence c
  | SelectionNode c _ => node_sequence c
  end.

(** [xs] with the item at index [i] replaced by [x]; [xs] itself when
    it has no such index. *)
Fixpoint replace_nth {A} (i : nat) (xs : list A) (x : A) : list A :=
  match xs, i with
  | [], _ => []
  | _ :: xs', O => x :: xs'
  | y :: xs', S i' => y :: replace_nth i' xs' x
  end.

(** [p] with its child at index [i] replaced by [c], class and
    parameters kept; [p] itself when it has no such child. *)
Definition replace_child (p : BigFrameNode) (i : nat) (c : BigFrameNode)
  : BigFrameNode :=
  match p, i with
  | JoinNode _ r j, 0%nat => JoinNode c r j
  | JoinNode l _ j, 1%nat => JoinNode l c j
  | ConcatNode cs, _ => ConcatNode (replace_nth i cs c)
  | PromoteOffsetsNode _ id, 0%nat => PromoteOffsetsNode c id
  | FilterNode _ e, 0%nat => FilterNode c e
  | OrderByNode _ b, 0%nat => OrderByNode c b
  | ReversedNode _ b, 0%nat => ReversedNode c b
  | ProjectionNode _ a, 0%nat => ProjectionNode c a
  | RowCountNode _, 0%nat => RowCountNode c
  | AggregateNode _ a b d, 0%nat => AggregateNode c a b d
  | WindowOpNode _ n o w out ns sk, 0%nat => WindowOpNode c n o w out ns sk
  | ReprojectOpNode _, 0%nat => ReprojectOpNode c
  | RandomSampleNode _ f, 0%nat => RandomSampleNode c f
  | ExplodeNode _ ids, 0%nat => ExplodeNode c ids
  | SelectionNode _ ps, 0%nat => SelectionNode c ps
  | _, _ => p
  end.

(** The tree around a position: the ancestors from the root down, each
    with the index of the child that leads to the position; [plug] puts
    [c] at the position. *)
Definition plug (path : list (BigFrameNode * nat)) (c : BigFrameNode) : BigFrameNode :=
  fold_right (fun frame inner => replace_child (fst frame) (snd frame) inner) c path.

(** A warehouse that accepts every query, a cache substitution that
    looks at the root only, and a fast head exactly on a cached table
    with a total ordering. *)
Definition sample_externals (is_explicitly_ordered : bool) (rows : option Z)
    (target : option BigFrameNode) : Externals :=
  mkExternals
    (fun n cache =>
       match find (fun kv => node_eqb (fst kv) n) cache with
       | Some kv => snd kv
       | None => n
       end)
    (fun _ => rows)
    (fun plan =>
       match plan with
       | CachedTableNode _ _ _ _ _ ord => is_TotalOrdering ord
       | _ => false
       end)
    (fun _ => true)
    (fun _ _ _ _ => target) (fun _ => is_explicitly_ordered)
    (fun _ _ => "SELECT ordered") (fun _ _ => "SELECT unordered")
    (fun _ _ => "SELECT peek") (fun _ => ("SELECT raw", [], None))
    (fun sql cfg =>
       Ok ([], mkQueryJob sql
                 match destination cfg with
                 | Some d => d
                 | None => mkTableReference "project" "dataset" "anonymous"
                 end))
    (fun _ => [mkSchemaField "k" "INTEGER"; mkSchemaField "v" "INTEGER";
               mkSchemaField "col_0" "INTEGER"; mkSchemaField "col_1" "INTEGER"])
    (fun _ _ => mkTableReference "project" "dataset" "temp")
    (fun _ cols => cols) (fun c _ => c) (fun _ => []) true None.

Definition initial_state : State := mkState [] 0 [].

(** Whether the user asked for an order: a sort, seen through the unary
    nodes above it. *)
Fixpoint ordered_by_user (n : BigFrameNode) : bool :=
  match n with
  | OrderByNode _ _ => true
  | PromoteOffsetsNode c _ => ordered_by_user c
  | FilterNode c _ => ordered_by_user c
  | ReversedNode c _ => ordered_by_user c
  | ProjectionNode c _ => ordered_by_user c
  | WindowOpNode c _ _ _ _ _ _ => ordered_by_user c
  | ReprojectOpNode c => ordered_by_user c
  | RandomSampleNode c _ => ordered_by_user c
  | ExplodeNode c _ => ordered_by_user c
  | SelectionNode c _ => ordered_by_user c
  | _ => false
  end.

(** The same warehouse without row counts, where a node is explicitly
    ordered when the user asked for an order. *)
Definition order_aware_externals : Externals :=
  let e := sample_externals false None None in
  mkExternals (replace_nodes e) (row_count e) (can_fast_head e) (can_fast_peek e)
    (select_cache_target e) ordered_by_user
    (compile_ordered e) (compile_unordered e) (compile_peek e) (compile_raw e)
    (bq_query e) (get_table_schema e) (create_temp_table e)
    (select_cluster_cols e) (add_labels e) (to_bigquery e)
    (enable_multi_query_execution e) (option_maximum_bytes_billed e).

(** The plan that [generate_head_plan] builds over [plan] with the
    offsets column named [offsets_id]. *)
Definition head_plan_of (plan : BigFrameNode) (offsets_id : string) (n : Z)
    (column_names : list string) : BigFrameNode :=
  SelectionNode
    (FilterNode (PromoteOffsetsNode plan offsets_id)
                (lt_op_as_expr (free_var offsets_id) (const n)))
    (map (fun i => (i, i)) column_names).

(** The state after one guid was drawn. *)
Definition after_guid (s : State) : State :=
  mkState (_cached_executions s) (S (guid_counter s)) (trace s).

Definition count_queries (events : list Event) : nat :=
  List.length (filter (fun e => match e with EvQuery _ _ => true | _ => false end)
                      events).

Definition count_temp_tables (events : list Event) : nat :=
  List.length (filter (fun e => match e with
                                | EvCreateTempTable _ _ => true
                                | _ => false
                                end) events).

(** [m] submits at most [q] queries and creates at most [t] temporary
    tables, from whatever state it starts, whether it returns or raises. *)
Definition effects_within {A} (m : Exec A) (q t : nat) : Prop :=
  forall s, exists events,
    trace (snd (m s)) = events ++ trace s /\
    (count_queries events <= q)%nat /\
    (count_temp_tables events <= t)%nat.

Ltac count_events := unfold count_queries, count_temp_tables; simpl; lia.

(** One iteration of the loop: whether another one is wanted. *)
Definition factor_once (env : Collaborators) (ext : Externals)
    (strictly_ordered : bool) (node : BigFrameNode) : Exec bool :=
  bind (_get_optimized_plan ext node) (fun node_with_cache =>
  bind (lift (planning_complexity env node_with_cache)) (fun complexity =>
  if (complexity <? QUERY_COMPLEXITY_LIMIT)%Z
  then ret false
  else _cache_most_complex_subtree env ext strictly_ordered node)).

(** A chain of [k] joins over table reads; 70 of them put the planning
    complexity above the ceiling. *)
Fixpoint join_chain (k : nat) : BigFrameNode :=
  match k with
  | O => table_kv 1 ["k"]
  | S k' => JoinNode (join_chain k') (table_kv 1 ["k"])
                     (mkJoinDefinition [] [] "cross")
  end.

Definition over_ceiling_plan : BigFrameNode := join_chain 70.

(* ================================================================= *)
(** * Further operations of the nodes *)

(** [transform_children]: apply a function to each child node.  The
    leaves return themselves; the others go through
    [dataclasses.replace], which calls the constructor again and with
    it [__post_init__].  The original of a cached table is not a child
    and is left alone. *)
Definition transform_children (env : Collaborators)
    (t : BigFrameNode -> BigFrameNode) (n : BigFrameNode) : result BigFrameNode :=
  match n with
  | JoinNode l r j => construct env (JoinNode (t l) (t r) j)
  | ConcatNode cs => construct env (ConcatNode (map t cs))
  | ReadLocalNode _ _ _ => Ok n
  | ReadTableNode _ _ _ _ _ _ _ _ _ _ => Ok n
  | CachedTableNode _ _ _ _ _ _ => Ok n
  | PromoteOffsetsNode c i => construct env (PromoteOffsetsNode (t c) i)
  | FilterNode c e => construct env (FilterNode (t c) e)
  | OrderByNode c b => construct env (OrderByNode (t c) b)
  | ReversedNode c b => construct env (ReversedNode (t c) b)
  | ProjectionNode c a => construct env (ProjectionNode (t c) a)
  | RowCountNode c => construct env (RowCountNode (t c))
  | AggregateNode c a b d => construct env (AggregateNode (t c) a b d)
  | WindowOpNode c n o w out ns sk =>
      construct env (WindowOpNode (t c) n o w out ns sk)
  | ReprojectOpNode c => construct env (ReprojectOpNode (t c))
  | RandomSampleNode c f => construct env (RandomSampleNode (t c) f)
  | ExplodeNode c ids => construct env (ExplodeNode (t c) ids)
  | SelectionNode c ps => construct env (SelectionNode (t c) ps)
  end.

(** [set(xs)] on nodes, as a list without repetition. *)
Definition node_set (xs : list BigFrameNode) : list BigFrameNode :=
  nodup BigFrameNode_eq_dec xs.

(** [roots]: the three source classes answer [{self}], the others
    collect the roots of their [child_nodes]. *)
Fixpoint roots (n : BigFrameNode) : list BigFrameNode :=
  match n with
  | ReadLocalNode _ _ _ => [n]
  | ReadTableNode _ _ _ _ _ _ _ _ _ _ => [n]
  | CachedTableNode _ _ _ _ _ _ => [n]
  | JoinNode l r _ => node_set (roots l ++ roots r)
  | ConcatNode cs => node_set (flat_map roots cs)
  | PromoteOffsetsNode c _ => node_set (roots c)
  | FilterNode c _ => node_set (roots c)
  | OrderByNode c _ => node_set (roots c)
  | ReversedNode c _ => node_set (roots c)
  | ProjectionNode c _ => node_set (roots c)
  | RowCountNode c => node_set (roots c)
  | AggregateNode c _ _ _ => node_set (roots c)
  | WindowOpNode c _ _ _ _ _ _ => node_set (roots c)
  | ReprojectOpNode c => node_set (roots c)
  | RandomSampleNode c _ => node_set (roots c)
  | ExplodeNode c _ => node_set (roots c)
  | SelectionNode c _ => node_set (roots c)
  end.

(** The classes that override [roots]. *)
Definition is_source (n : BigFrameNode) : bool :=
  match n with
  | ReadLocalNode _ _ _ => true
  | ReadTableNode _ _ _ _ _ _ _ _ _ _ => true
  | CachedTableNode _ _ _ _ _ _ => true
  | _ => false
  end.

(** [d] is [n] or is reached from [n] through [child_nodes]. *)
Inductive reaches : BigFrameNode -> BigFrameNode -> Prop :=
| reaches_self n : reaches n n
| reaches_child n c d : In c (child_nodes n) -> reaches c d -> reaches n d.

(** The column ids of the schema of a node, read off the tree alone. *)
Fixpoint column_names (n : BigFrameNode) : list string :=
  match n with
  | JoinNode _ _ j => map destination_id (mappings j)
  | ConcatNode cs =>
      match cs with
      | [] => []
      | c0 :: _ =>
          map (fun i => ("column_" ++ str_of_nat i)%string)
              (seq 0 (List.length (column_names c0)))
      end
  | ReadLocalNode _ data_schema _ => names data_schema
  | ReadTableNode _ _ _ _ columns _ _ _ _ _ => names columns
  | CachedTableNode o _ _ _ _ _ => column_names o
  | PromoteOffsetsNode c col_id => col_id :: column_names c
  | ProjectionNode _ assignments => map snd assignments
  | RowCountNode _ => ["count"]
  | AggregateNode _ aggregations by_column_ids _ =>
      by_column_ids ++ map snd aggregations
  | WindowOpNode c _ _ _ output_name _ _ =>
      match output_name with
      | None => column_names c
      | Some out =>
          if str_in out (column_names c)
          then column_names c
          else column_names c ++ [out]
      end
  | ExplodeNode c _ => column_names c
  | SelectionNode _ input_output_pairs => map snd input_output_pairs
  | FilterNode c _ => column_names c
  | OrderByNode c _ => column_names c
  | ReversedNode c _ => column_names c
  | ReprojectOpNode c => column_names c
  | RandomSampleNode c _ => column_names c
  end.

(** A filter over a table read, ordered by a column the table has. *)
Definition ordered_filter : BigFrameNode :=
  OrderByNode scenario_filter [mkOrderingExpression (free_var "k") true true].

(** A table read whose single order column is declared sequential. *)
Definition sequential_table : BigFrameNode :=
  ReadTableNode "project" "dataset" "table"
    [mkSchemaField "k" "INTEGER"; mkSchemaField "v" "INTEGER"]
    (mkArraySchema [mkSchemaItem "k" INT_DTYPE; mkSchemaItem "v" INT_DTYPE])
    1 ["k"] true None None.

(** The scenario table materialized with an offsets column. *)
Definition cached_scenario : BigFrameNode :=
  CachedTableNode scenario_table "project" "dataset" "temp"
    [mkSchemaField "k" "INTEGER"; mkSchemaField "v" "INTEGER";
     mkSchemaField "col_1" "INTEGER"]
    (Some (TotalOrdering_from_offset_col "col_1")).

(** The concat of that cached table with the table itself: what the
    cache substitution leaves of a concat when one input was
    materialized. *)
Definition cached_concat : BigFrameNode :=
  ConcatNode [cached_scenario; scenario_table].

(** A join whose second mapping names a column its right side lacks. *)
Definition join_unknown_source : BigFrameNode :=
  JoinNode (table_kv 1 ["k"]) (table_kv 1 ["k"])
    (mkJoinDefinition [("k", "k")]
       [mkJoinColumnMapping LEFT "k" "k"; mkJoinColumnMapping RIGHT "w" "w2"]
       "inner").

(** A local batch with an array column [xs] and a scalar column [y]. *)
Definition local_with_array : BigFrameNode :=
  ReadLocalNode [] (mkArraySchema [mkSchemaItem "xs" (ARRAY_DTYPE INT_DTYPE);
                                   mkSchemaItem "y" STRING_DTYPE]) None.

(* ================================================================= *)
(** * Further operations of the executor *)

(** The [format] argument of [export_gcs], a
    [Literal["json", "csv", "parquet"]]; [format.lower()] is the literal
    itself. *)
Inductive ExportFormat : Type := json | csv | parquet.

Definition format_name (f : ExportFormat) : string :=
  match f with
  | json => "json"
  | csv => "csv"
  | parquet => "parquet"
  end.

Section Exports.

Variable env : Collaborators.
Variable ext : Externals.
Variable strictly_ordered : bool.

(** [bq_io.create_export_data_statement(table_id, uri, format, export_options)] *)
Variable create_export_data_statement :
  string -> string -> string -> list (string * (bool + string)) -> string.

(** [array_value.session.objects], as the nodes of the live objects of
    the session, and [bigframes.session.planner.session_aware_cache_plan];
    neither is part of the sources at hand. *)
Variable session_forest : BigFrameNode -> list BigFrameNode.
Variable session_aware_cache_plan :
  BigFrameNode -> list BigFrameNode -> BigFrameNode * list string.

Local Open Scope exec_scope.

(** [export_gcs]: execute unordered, then run an export statement on
    the destination table of that job, directly on the client. *)
Definition export_gcs (node : BigFrameNode) (col_id_overrides : list (string * string))
    (uri : string) (format : ExportFormat)
    (export_options : list (string * (bool + string))) : Exec QueryJob :=
  r <- execute env ext strictly_ordered node false col_id_overrides false ;;
  let query_job := snd r in
  let result_table := job_destination query_job in
  let export_data_statement :=
    create_export_data_statement
      (project result_table ++ "." ++ dataset_id result_table ++ "."
       ++ table_id result_table)%string
      uri (format_name format) export_options in
  let job_config :=
    add_labels ext default_QueryJobConfig
               (Some ("dataframe-to_" ++ format_name format)%string) in
  emit (EvQuery export_data_statement job_config) ;;;
  _ <- lift (bq_query ext export_data_statement job_config) ;;
  ret query_job.

(** [_cache_with_session_awareness] *)
Definition _cache_with_session_awareness (node : BigFrameNode) : Exec unit :=
  let '(target, cluster_cols) :=
    session_aware_cache_plan node (session_forest node) in
  if (0 <? len cluster_cols)%Z
  then _cache_with_cluster_cols env ext strictly_ordered target cluster_cols
  else if strictly_ordered
       then _cache_with_offsets env ext strictly_ordered target
       else _cache_with_cluster_cols env ext strictly_ordered target [].

End Exports.

(** Every entry of the cache maps a node to a cached table that embeds
    that very node and passed its construction check. *)
Definition cache_consistent (env : Collaborators) (cache : Cache) : Prop :=
  forall k v, In (k, v) cache ->
    exists p d t physical_schema ordering,
      v = CachedTableNode k p d t physical_schema ordering /\
      __post_init__ env v = Ok tt.

(** [m] keeps the cache consistent, whether it returns or raises. *)
Definition keeps_cache_consistent {A} (env : Collaborators) (m : Exec A) : Prop :=
  forall s, cache_consistent env (_cached_executions s) ->
            cache_consistent env (_cached_executions (snd (m s))).

(** [m] does not write the cache. *)
Definition keeps_cache {A} (m : Exec A) : Prop :=
  forall s, _cached_executions (snd (m s)) = _cached_executions s.

Definition resources_exceeded : string :=
  "Resources exceeded during query execution".

(** A warehouse that rejects every query for its resource use. *)
Definition overloaded_externals : Externals :=
  mkExternals (fun n _ => n) (fun _ => None) (fun _ => false) (fun _ => false)
    (fun _ _ _ _ => None) (fun _ => false)
    (fun _ _ => "SELECT ordered") (fun _ _ => "SELECT unordered")
    (fun _ _ => "SELECT peek") (fun _ => ("SELECT raw", [], None))
    (fun _ _ => Raise (BadRequest
                         "400 Resources exceeded during query execution: too big"))
    (fun _ => []) (fun _ _ => mkTableReference "project" "dataset" "temp")
    (fun _ cols => cols) (fun c _ => c) (fun _ => []) false None.

(** [m] either leaves the cache as it is or binds [node] to a checked
    cached table that embeds [node]. *)
Definition registers_at_most {A} (env : Collaborators) (node : BigFrameNode)
    (m : Exec A) : Prop :=
  forall s,
    _cached_executions (snd (m s)) = _cached_executions s \/
    exists p d t physical_schema ordering,
      __post_init__ env (CachedTableNode node p d t physical_schema ordering) = Ok tt /\
      _cached_executions (snd (m s))
      = cache_set node (CachedTableNode node p d t physical_schema ordering)
                  (_cached_executions s).

(** No key of the cache is equal to [node]: an assignment under [node]
    then adds [node] itself as the key. *)
Definition is_new_key (node : BigFrameNode) (cache : Cache) : Prop :=
  forall k v, In (k, v) cache -> node_eqb k node = false.

(** One step through a fallible computation in hypothesis [E]. *)
Ltac schema_step E :=
  match type of E with
  | context [match ?x with _ => _ end] =>
      let Ex := fresh "Ex" in destruct x eqn:Ex; unfold rbind in E; try discriminate
  end.

(* ================================================================= *)
(** * Properties of the tree *)

(** ** Ordering ambiguity *)

Lemma len_zero_iff_nil {A} (xs : list A) : (len xs =? 0)%Z = true <-> xs = [].
Proof.
  unfold len. destruct xs as [|x xs]; simpl.
  - split; reflexivity.
  - split; discriminate.
Qed.

(** When [any] returns, it says whether one of the items is true. *)
Lemma any_of_value {A} (f : A -> result bool) (xs : list A) (b : bool) :
  any_of f xs = Ok b ->
  (b = true <-> exists x, In x xs /\ f x = Ok true).
Proof.
  induction xs as [|x xs IH]; simpl; intros E.
  - injection E as <-. split; [discriminate | intros [x [[] _]]].
  - destruct (f x) as [[|]|e] eqn:Ex; simpl in E; try discriminate.
    + injection E as <-. split; [| reflexivity].
      intros _. exists x. split; [left; reflexivity | exact Ex].
    + rewrite (IH E). split; intros [y [Hin Hy]].
      * exists y. split; [right; exact Hin | exact Hy].
      * destruct Hin as [<- | Hin]; [congruence |].
        exists y. split; assumption.
Qed.

(** [any] returns when every item evaluates. *)
Lemma any_of_evaluates {A} (f : A -> result bool) (xs : list A) :
  Forall (fun x => is_ok (f x) = true) xs ->
  exists b, any_of f xs = Ok b.
Proof.
  induction 1 as [|x xs Hx Hxs IH]; simpl.
  - exists false. reflexivity.
  - destruct (f x) as [[|]|e] eqn:Ex; simpl in *; try discriminate.
    + exists true. reflexivity.
    + exact IH.
Qed.

(** C9, on the code: the rules of a join, of a table read and of a local
    read hold as stated.  The flag of a concat, when it has a value,
    says whether one of the children is order-ambiguous, and it has a
    value when the flags of all children have one.  The rule breaks on a
    cached table, whose flag raises [NameError]: a concat that starts
    with a cached table raises too, also when a later child is
    order-ambiguous; [cached_concat], which passes its construction
    check as its cached child did, is such a node. *)
Theorem order_ambiguous_base_rules :
  (forall l r j, order_ambiguous (JoinNode l r j) = Ok true) /\
  (forall cs b,
      order_ambiguous (ConcatNode cs) = Ok b ->
      (b = true <-> exists c, In c cs /\ order_ambiguous c = Ok true)) /\
  (forall cs,
      Forall (fun c => is_ok (order_ambiguous c) = true) cs ->
      exists b, order_ambiguous (ConcatNode cs) = Ok b) /\
  (forall p d t ps c s total_order_cols q a sp,
      exists b,
        order_ambiguous (ReadTableNode p d t ps c s total_order_cols q a sp) = Ok b /\
        (b = true <-> total_order_cols = [])) /\
  (forall b s se, order_ambiguous (ReadLocalNode b s se) = Ok false) /\
  (forall o p d t ps ord cs,
      order_ambiguous (CachedTableNode o p d t ps ord) = Raise (NameError "orderings") /\
      order_ambiguous (ConcatNode (CachedTableNode o p d t ps ord :: cs))
      = Raise (NameError "orderings")) /\
  (construct int_typing cached_scenario = Ok cached_scenario /\
   construct int_typing cached_concat = Ok cached_concat /\
   In scenario_table (child_nodes cached_concat) /\
   order_ambiguous scenario_table = Ok true /\
   order_ambiguous cached_concat = Raise (NameError "orderings")).
Proof.
  split; [reflexivity |].
  split; [intros cs b E; apply (any_of_value order_ambiguous cs E) |].
  split; [intros cs Hcs; apply (any_of_evaluates order_ambiguous Hcs) |].
  split.
  { intros. eexists. split; [reflexivity | apply len_zero_iff_nil]. }
  split; [reflexivity |].
  split; [intros; split; reflexivity |].
  split; [reflexivity |].
  split; [reflexivity |].
  split; [simpl; right; left; reflexivity |].
  split; reflexivity.
Qed.

(** Above an ambiguous child, the flag of a parent that is not an
    aggregate is never false. *)
Lemma order_ambiguous_from_child (p c : BigFrameNode) (b : bool) :
  In c (child_nodes p) ->
  order_ambiguous c = Ok true ->
  is_AggregateNode p = false ->
  order_ambiguous p = Ok b ->
  b = true.
Proof.
  intros Hin Hc Hagg Hp.
  destruct p; simpl in *; try discriminate; try contradiction;
    try (destruct Hin as [<- | []]; congruence);
    try congruence.
  apply (any_of_value order_ambiguous children Hp).
  exists c. split; assumption.
Qed.

Lemma order_ambiguous_evaluates (p : BigFrameNode) :
  Forall (fun c => is_ok (order_ambiguous c) = true) (child_nodes p) ->
  is_AggregateNode p = false ->
  child_nodes p <> [] ->
  exists b, order_ambiguous p = Ok b.
Proof.
  intros Hall Hagg Hne.
  destruct p; simpl in *; try discriminate; try contradiction;
    try (eexists; reflexivity);
    try (inversion Hall as [|? ? Hc _]; subst;
         match type of Hc with
         | is_ok ?r = true => destruct r as [b|e]; [exists b; reflexivity | discriminate]
         end).
  apply (any_of_evaluates order_ambiguous Hall).
Qed.

(** C2, as the code has it: above an ambiguous child the flag of a
    parent that is not an aggregate is never false, and it is true when
    the flags of all children of that parent have a value; an aggregate
    is never order-ambiguous; so above a table read without total-order
    columns the filter is ambiguous and the aggregate on top of it is
    not. *)
Theorem order_ambiguous_propagation :
  (forall p c, In c (child_nodes p) -> order_ambiguous c = Ok true ->
               is_AggregateNode p = false ->
               (forall b, order_ambiguous p = Ok b -> b = true) /\
               (Forall (fun c' => is_ok (order_ambiguous c') = true) (child_nodes p) ->
                order_ambiguous p = Ok true)) /\
  (forall c aggregations by_column_ids dropna,
      order_ambiguous (AggregateNode c aggregations by_column_ids dropna) = Ok false) /\
  (forall p d t ps cols s q a sp predicate aggregations by_column_ids dropna,
      let table := ReadTableNode p d t ps cols s [] q a sp in
      order_ambiguous table = Ok true /\
      order_ambiguous (FilterNode table predicate) = Ok true /\
      order_ambiguous
        (AggregateNode (FilterNode table predicate) aggregations by_column_ids dropna)
      = Ok false).
Proof.
  split; [| split].
  - intros p c Hin Hc Hagg. split.
    + intros b Hp. exact (order_ambiguous_from_child p c Hin Hc Hagg Hp).
    + intros Hall.
      destruct (order_ambiguous_evaluates p Hall Hagg) as [b Hb].
      { intros E. rewrite E in Hin. contradiction. }
      rewrite Hb. f_equal.
      exact (order_ambiguous_from_child p c Hin Hc Hagg Hb).
  - reflexivity.
  - intros. repeat split; reflexivity.
Qed.

Lemma order_ambiguous_propagation_witness :
  let mixed := ConcatNode [table_kv 1 ["k"]; scenario_filter] in
  In scenario_filter (child_nodes mixed) /\
  order_ambiguous scenario_filter = Ok true /\
  is_AggregateNode mixed = false /\
  Forall (fun c' => is_ok (order_ambiguous c') = true) (child_nodes mixed) /\
  order_ambiguous mixed = Ok true.
Proof.
  intros mixed.
  assert (Hin : In scenario_filter (child_nodes mixed))
    by (simpl; right; left; reflexivity).
  assert (Hall : Forall (fun c' => is_ok (order_ambiguous c') = true)
                        (child_nodes mixed))
    by (repeat constructor).
  split; [exact Hin |]. split; [reflexivity |]. split; [reflexivity |].
  split; [exact Hall |].
  apply (proj2 (proj1 order_ambiguous_propagation mixed scenario_filter
                  Hin eq_refl eq_refl)).
  exact Hall.
Defined.

(** C2, as stated, fails on the scenario tree: every node below the
    root is order-ambiguous, the aggregate root is not. *)
Lemma aggregate_root_not_order_ambiguous :
  order_ambiguous scenario_table = Ok true /\
  order_ambiguous scenario_filter = Ok true /\
  order_ambiguous scenario_aggregate = Ok false /\
  order_ambiguous scenario_aggregate <> Ok true.
Proof. repeat split; try reflexivity. discriminate. Qed.

(** ** Planning complexity *)

Lemma sequence_map {A B} (f : A -> result B) (xs : list A) :
  sequence (map f xs) = rmap f xs.
Proof.
  unfold sequence. induction xs as [|x xs IH]; simpl.
  - reflexivity.
  - destruct (f x); simpl; [rewrite IH; reflexivity | reflexivity].
Qed.

Lemma fold_children_unfold {R} (f : BigFrameNode -> list R -> R) (n : BigFrameNode) :
  fold_children f n = f n (map (fold_children f) (child_nodes n)).
Proof. destruct n; reflexivity. Qed.

Lemma total_variables_unfold env n :
  total_variables env n =
    (v <- variables_introduced env n ;;
     ts <- rmap (total_variables env) (child_nodes n) ;;
     Ok (v + sum ts)%Z).
Proof.
  unfold total_variables. rewrite fold_children_unfold.
  rewrite sequence_map. reflexivity.
Qed.

Lemma total_relational_ops_unfold env n :
  total_relational_ops env n =
    (relation_ops_created env n
     + sum (map (total_relational_ops env) (child_nodes n)))%Z.
Proof. unfold total_relational_ops. rewrite fold_children_unfold. reflexivity. Qed.

Lemma total_joins_unfold n :
  total_joins n = (int_of_bool (joins n) + sum (map total_joins (child_nodes n)))%Z.
Proof. unfold total_joins. rewrite fold_children_unfold. reflexivity. Qed.

(** C4: the planning complexity is the product of the total variables,
    the total relational operators and one plus the total joins; each
    total is the node's own contribution plus the sum of the totals of
    its children; the contribution to the joins is 1 for a [JoinNode]
    and 0 for a node of any other class, [joins] being true of the join
    nodes only. *)
Theorem planning_complexity_formula (env : Collaborators) (n : BigFrameNode) :
  planning_complexity env n =
    (tv <- total_variables env n ;;
     Ok (tv * total_relational_ops env n * (1 + total_joins n))%Z) /\
  total_variables env n =
    (v <- variables_introduced env n ;;
     ts <- rmap (total_variables env) (child_nodes n) ;;
     Ok (v + sum ts)%Z) /\
  total_relational_ops env n =
    (relation_ops_created env n
     + sum (map (total_relational_ops env) (child_nodes n)))%Z /\
  total_joins n =
    (match n with
     | JoinNode _ _ _ => 1
     | _ => 0
     end + sum (map total_joins (child_nodes n)))%Z /\
  (joins n = true <-> exists l r j, n = JoinNode l r j).
Proof.
  split; [reflexivity |].
  split; [apply total_variables_unfold |].
  split; [apply total_relational_ops_unfold |].
  split.
  - rewrite total_joins_unfold. destruct n; reflexivity.
  - destruct n; simpl; split; try discriminate;
      try (intros (l & r & j & E); discriminate).
    + intros _. do 3 eexists. reflexivity.
    + reflexivity.
Qed.

(** Induction over [child_nodes]. *)
Lemma child_nodes_ind (P : BigFrameNode -> Prop) :
  (forall n, Forall P (child_nodes n) -> P n) ->
  forall n, P n.
Proof.
  intros step. induction n using BigFrameNode_tree_ind;
    apply step; simpl; auto.
Qed.

Lemma sum_nonneg (xs : list Z) : Forall (fun x => 0 <= x)%Z xs -> (0 <= sum xs)%Z.
Proof. induction 1; simpl; lia. Qed.

Lemma sum_member_le (xs : list Z) (x : Z) :
  Forall (fun x => 0 <= x)%Z xs -> In x xs -> (x <= sum xs)%Z.
Proof.
  induction 1 as [|y ys Hy Hys IH]; simpl; intros Hin.
  - contradiction.
  - pose proof (sum_nonneg Hys). destruct Hin as [-> | Hin]; [lia |].
    specialize (IH Hin). lia.
Qed.

Lemma len_nonneg {A} (xs : list A) : (0 <= len xs)%Z.
Proof. unfold len. lia. Qed.

Lemma variables_introduced_nonneg env n v :
  variables_introduced env n = Ok v -> (0 <= v)%Z.
Proof.
  intros E. destruct n; simpl in E; unfold rbind in E;
    repeat match type of E with
           | context [match ?x with _ => _ end] => destruct x; simpl in E
           end;
    try discriminate; injection E as <-; unfold OVERHEAD_VARIABLES, len; try lia.
  apply sum_nonneg. apply Forall_forall.
  intros x Hx. apply in_map_iff in Hx. destruct Hx as [y [<- Hy]]. lia.
Qed.

Lemma relation_ops_created_nonneg env n : (0 <= relation_ops_created env n)%Z.
Proof.
  destruct n; simpl; try lia.
  destruct skip_reproject_unsafe; lia.
Qed.

Lemma total_relational_ops_nonneg env n : (0 <= total_relational_ops env n)%Z.
Proof.
  induction n using child_nodes_ind.
  rewrite total_relational_ops_unfold. pose proof (relation_ops_created_nonneg env n).
  assert (0 <= sum (map (total_relational_ops env) (child_nodes n)))%Z.
  { apply sum_nonneg. apply Forall_map. exact H. }
  lia.
Qed.

Lemma total_joins_nonneg n : (0 <= total_joins n)%Z.
Proof.
  induction n using child_nodes_ind.
  rewrite total_joins_unfold.
  assert (0 <= sum (map total_joins (child_nodes n)))%Z.
  { apply sum_nonneg. apply Forall_map. exact H. }
  unfold int_of_bool. destruct (joins n); lia.
Qed.

Lemma rmap_ok_in {A B} (f : A -> result B) (xs : list A) (ys : list B) :
  rmap f xs = Ok ys ->
  forall x, In x xs -> exists y, f x = Ok y /\ In y ys.
Proof.
  revert ys. induction xs as [|x0 xs IH]; simpl; intros ys E x Hin.
  - contradiction.
  - destruct (f x0) as [y0|] eqn:E0; simpl in E; [| discriminate].
    destruct (rmap f xs) as [ys0|] eqn:E1; simpl in E; [| discriminate].
    injection E as <-. destruct Hin as [<- | Hin].
    + exists y0. split; [assumption | left; reflexivity].
    + destruct (IH ys0 eq_refl x Hin) as [y [Hy Hiny]].
      exists y. split; [assumption | right; assumption].
Qed.

Lemma rmap_ok_forall {A B} (f : A -> result B) (P : B -> Prop) (xs : list A) :
  Forall (fun x => forall y, f x = Ok y -> P y) xs ->
  forall ys, rmap f xs = Ok ys -> Forall P ys.
Proof.
  induction 1 as [|x0 xs H0 Hxs IH]; simpl; intros ys E.
  - injection E as <-. constructor.
  - destruct (f x0) as [y0|] eqn:E0; simpl in E; [| discriminate].
    destruct (rmap f xs) as [ys0|] eqn:E1; simpl in E; [| discriminate].
    injection E as <-. constructor; [apply H0; reflexivity | apply IH; reflexivity].
Qed.

Lemma total_variables_nonneg env n :
  forall v, total_variables env n = Ok v -> (0 <= v)%Z.
Proof.
  induction n as [n IH] using child_nodes_ind. intros v E.
  rewrite total_variables_unfold in E.
  destruct (variables_introduced env n) as [v0|] eqn:Ev; simpl in E; [| discriminate].
  destruct (rmap (total_variables env) (child_nodes n)) as [ts|] eqn:Ets;
    simpl in E; [| discriminate].
  injection E as <-.
  pose proof (@variables_introduced_nonneg _ _ _ Ev).
  pose proof (sum_nonneg (@rmap_ok_forall _ _ _ _ _ IH _ Ets)). lia.
Qed.

(** The three totals of a child never exceed those of its parent. *)
Lemma totals_monotone env p c :
  In c (child_nodes p) ->
  (total_relational_ops env c <= total_relational_ops env p)%Z /\
  (total_joins c <= total_joins p)%Z /\
  forall tp, total_variables env p = Ok tp ->
             exists tc, total_variables env c = Ok tc /\ (tc <= tp)%Z.
Proof.
  intros Hin. repeat split.
  - rewrite (total_relational_ops_unfold env p).
    pose proof (relation_ops_created_nonneg env p).
    assert (total_relational_ops env c
            <= sum (map (total_relational_ops env) (child_nodes p)))%Z.
    { apply sum_member_le; [| apply in_map; assumption].
      apply Forall_map, Forall_forall. intros x _.
      apply total_relational_ops_nonneg. }
    lia.
  - rewrite (total_joins_unfold p).
    assert (total_joins c <= sum (map total_joins (child_nodes p)))%Z.
    { apply sum_member_le; [| apply in_map; assumption].
      apply Forall_map, Forall_forall. intros x _. apply total_joins_nonneg. }
    unfold int_of_bool. destruct (joins p); lia.
  - intros tp E. rewrite total_variables_unfold in E.
    destruct (variables_introduced env p) as [v0|] eqn:Ev; simpl in E; [| discriminate].
    destruct (rmap (total_variables env) (child_nodes p)) as [ts|] eqn:Ets;
      simpl in E; [| discriminate].
    injection E as <-.
    destruct (@rmap_ok_in _ _ _ _ _ Ets c Hin) as [tc [Etc Hts]].
    exists tc. split; [assumption |].
    pose proof (@variables_introduced_nonneg _ _ _ Ev).
    assert (Forall (fun x => 0 <= x)%Z ts).
    { apply (@rmap_ok_forall _ _ (total_variables env) _ (child_nodes p));
        [| assumption].
      apply Forall_forall. intros x _ y. apply total_variables_nonneg. }
    pose proof (@sum_member_le _ _ H0 Hts). lia.
Qed.

(** C8: a node wrapped by a parent never has a larger planning
    complexity than the wrapped tree: each of the three totals of the
    child is at most the parent's, all contributions being
    non-negative. *)
Theorem wrapping_never_lowers_complexity env p c :
  In c (child_nodes p) ->
  forall complexity, planning_complexity env p = Ok complexity ->
  exists tv_p tv_c child_complexity,
    total_variables env p = Ok tv_p /\
    total_variables env c = Ok tv_c /\
    (0 <= tv_c <= tv_p)%Z /\
    (0 <= total_relational_ops env c <= total_relational_ops env p)%Z /\
    (0 <= total_joins c <= total_joins p)%Z /\
    planning_complexity env c = Ok child_complexity /\
    (child_complexity <= complexity)%Z.
Proof.
  intros Hin complexity E.
  destruct (@totals_monotone env p c Hin) as (Hops & Hjoins & Hvars).
  unfold planning_complexity in *.
  destruct (total_variables env p) as [tp|] eqn:Etp; cbn [rbind] in E; [| discriminate].
  assert (Ec : complexity
               = (tp * total_relational_ops env p * (1 + total_joins p))%Z)
    by congruence.
  subst complexity. clear E.
  destruct (Hvars tp eq_refl) as [tc [Etc Hle]].
  pose proof (@total_variables_nonneg _ _ _ Etc) as Htc.
  pose proof (total_relational_ops_nonneg env c) as Hoc.
  pose proof (total_joins_nonneg c) as Hjc.
  exists tp, tc, (tc * total_relational_ops env c * (1 + total_joins c))%Z.
  assert (tc * total_relational_ops env c <= tp * total_relational_ops env p)%Z
    by (apply Z.mul_le_mono_nonneg; lia).
  assert (0 <= tc * total_relational_ops env c)%Z
    by (apply Z.mul_nonneg_nonneg; lia).
  rewrite Etc. cbn [rbind]. repeat split; try lia.
  apply Z.mul_le_mono_nonneg; lia.
Qed.

Lemma wrapping_never_lowers_complexity_witness :
  In scenario_table (child_nodes scenario_filter) /\
  planning_complexity int_typing scenario_filter = Ok 16%Z /\
  exists tv_p tv_c child_complexity,
    total_variables int_typing scenario_filter = Ok tv_p /\
    total_variables int_typing scenario_table = Ok tv_c /\
    (0 <= tv_c <= tv_p)%Z /\
    (0 <= total_relational_ops int_typing scenario_table
       <= total_relational_ops int_typing scenario_filter)%Z /\
    (0 <= total_joins scenario_table <= total_joins scenario_filter)%Z /\
    planning_complexity int_typing scenario_table = Ok child_complexity /\
    (child_complexity <= 16)%Z.
Proof.
  assert (Hin : In scenario_table (child_nodes scenario_filter))
    by (simpl; left; reflexivity).
  split; [exact Hin |]. split; [reflexivity |].
  apply (@wrapping_never_lowers_complexity int_typing scenario_filter scenario_table Hin).
  reflexivity.
Defined.

Lemma rmap_all_ok {A B} (f : A -> result B) (xs : list A) :
  Forall (fun x => is_ok (f x) = true) xs -> is_ok (rmap f xs) = true.
Proof.
  induction 1 as [|x xs Hx Hxs IH]; simpl; [reflexivity |].
  destruct (f x); [| discriminate]. simpl.
  destruct (rmap f xs); [reflexivity | discriminate].
Qed.

(** A wrapper that passed its construction check has a planning
    complexity as soon as its children have their totals. *)
Lemma wrapped_complexity_defined env p :
  is_ok (__post_init__ env p) = true ->
  Forall (fun c => is_ok (total_variables env c) = true) (child_nodes p) ->
  is_ok (planning_complexity env p) = true.
Proof.
  intros Hinit Hchildren.
  assert (Hv : is_ok (variables_introduced env p) = true).
  { destruct p; try reflexivity; simpl in *.
    - unfold ConcatNode__post_init__ in Hinit.
      destruct children as [|c0 cs]; [discriminate |].
      change (len (c0 :: cs) =? 0)%Z with false in Hinit. cbn iota in Hinit.
      simpl rmap in Hinit. destruct (schema env c0); [reflexivity | discriminate].
    - unfold CachedTableNode__post_init__ in Hinit.
      destruct (schema env p); [reflexivity | discriminate]. }
  unfold planning_complexity. rewrite total_variables_unfold.
  destruct (variables_introduced env p); [| discriminate]. cbn [rbind].
  pose proof (rmap_all_ok _ Hchildren) as Hr.
  destruct (rmap (total_variables env) (child_nodes p)); [reflexivity | discriminate].
Qed.

(** ** Construction checks and the schema of a concat *)

Lemma nth_error_enumerate_from {A} (xs : list A) (start i : nat) :
  nth_error (enumerate_from start xs) i =
  option_map (fun x => ((start + i)%nat, x)) (nth_error xs i).
Proof.
  revert start i. induction xs as [|x xs IH]; intros start [|i]; simpl;
    try reflexivity.
  - rewrite Nat.add_0_r. reflexivity.
  - rewrite IH. rewrite Nat.add_succ_comm. reflexivity.
Qed.

Lemma length_enumerate_from {A} (xs : list A) (start : nat) :
  List.length (enumerate_from start xs) = List.length xs.
Proof.
  revert start. induction xs as [|x xs IH]; intros start; simpl;
    [reflexivity | rewrite IH; reflexivity].
Qed.

Lemma construct_ok env n node :
  construct env n = Ok node -> node = n /\ __post_init__ env n = Ok tt.
Proof.
  unfold construct. destruct (__post_init__ env n) as [[]|] eqn:E; simpl.
  - intros [= <-]. split; reflexivity.
  - discriminate.
Qed.

(** C10: the schema of a successfully constructed concat has as many
    columns as the schema of its first child; column i is named
    "column_i" and has the i-th dtype of the first child, whatever the
    columns of the children were called. *)
Theorem concat_schema_renames_columns env children node :
  construct env (ConcatNode children) = Ok node ->
  exists first rest first_schema concat_schema,
    children = first :: rest /\
    schema env first = Ok first_schema /\
    schema env node = Ok concat_schema /\
    List.length (items concat_schema) = List.length (items first_schema) /\
    forall i,
      nth_error (items concat_schema) i =
      option_map (fun it => mkSchemaItem ("column_" ++ str_of_nat i) (dtype it))
                 (nth_error (items first_schema) i).
Proof.
  intros E. apply construct_ok in E. destruct E as [-> E].
  simpl in E. unfold ConcatNode__post_init__ in E.
  destruct children as [|first rest]; [discriminate |].
  change (len (first :: rest) =? 0)%Z with false in E. cbn iota in E.
  simpl rmap in E.
  destruct (schema env first) as [first_schema|] eqn:Efirst; [| discriminate].
  exists first, rest, first_schema.
  eexists. split; [reflexivity |]. split; [exact Efirst |].
  split; [simpl; rewrite Efirst; reflexivity |].
  simpl. split.
  - rewrite length_map. unfold enumerate. rewrite length_enumerate_from.
    unfold dtypes. apply length_map.
  - intros i. rewrite nth_error_map. unfold enumerate.
    rewrite nth_error_enumerate_from. unfold dtypes. rewrite nth_error_map.
    destruct (nth_error (items first_schema) i); reflexivity.
Qed.

Lemma concat_schema_renames_columns_witness :
  construct int_typing renamed_concat = Ok renamed_concat /\
  exists first rest first_schema concat_schema,
    child_nodes renamed_concat = first :: rest /\
    schema int_typing first = Ok first_schema /\
    schema int_typing renamed_concat = Ok concat_schema /\
    List.length (items concat_schema) = List.length (items first_schema) /\
    forall i,
      nth_error (items concat_schema) i =
      option_map (fun it => mkSchemaItem ("column_" ++ str_of_nat i) (dtype it))
                 (nth_error (items first_schema) i).
Proof.
  split; [reflexivity |].
  apply (@concat_schema_renames_columns int_typing
           (child_nodes renamed_concat) renamed_concat).
  reflexivity.
Defined.

Lemma str_in_iff (x : string) (xs : list string) : str_in x xs = true <-> In x xs.
Proof.
  unfold str_in. rewrite existsb_exists. split.
  - intros [y [Hy E]]. apply String.eqb_eq in E. subst. assumption.
  - intros Hin. exists x. split; [assumption | apply String.eqb_refl].
Qed.

Lemma issubset_iff (xs ys : list string) :
  issubset xs ys = true <-> incl xs ys.
Proof.
  unfold issubset, incl. rewrite forallb_forall. split; intros Hs x Hx.
  - apply str_in_iff. apply Hs. assumption.
  - apply str_in_iff. apply Hs. assumption.
Qed.

Lemma issubset_false (xs ys : list string) (x : string) :
  In x xs -> ~ In x ys -> issubset xs ys = false.
Proof.
  intros Hx Hy. destruct (issubset xs ys) eqn:E; [| reflexivity].
  apply issubset_iff in E. exfalso. apply Hy. apply E. assumption.
Qed.

Lemma In_insert_sorted (x y : string) (xs : list string) :
  In y (insert_sorted x xs) <-> y = x \/ In y xs.
Proof.
  induction xs as [|z zs IH]; simpl.
  - intuition.
  - destruct (String.leb x z); simpl; [intuition | rewrite IH; intuition].
Qed.

Lemma In_sorted (y : string) (xs : list string) : In y (sorted xs) <-> In y xs.
Proof.
  unfold sorted. induction xs as [|x xs IH]; simpl.
  - reflexivity.
  - rewrite In_insert_sorted, IH. intuition.
Qed.

Lemma nodup_singleton_all_equal {A} (dec : forall a b : A, {a = b} + {a <> b})
    (l : list A) (x y : A) :
  List.length (nodup dec l) = 1%nat -> In x l -> In y l -> x = y.
Proof.
  intros Hlen Hx Hy.
  apply (nodup_In dec) in Hx. apply (nodup_In dec) in Hy.
  destruct (nodup dec l) as [|z [|z' rest]]; simpl in *; try discriminate.
  destruct Hx as [<- | []]. destruct Hy as [<- | []]. reflexivity.
Qed.

Lemma raises_bind {A B} (m : result A) (k : A -> result B) :
  raises m -> raises (rbind m k).
Proof. intros [e ->]. exists e. reflexivity. Qed.

Lemma construct_raises env n :
  raises (__post_init__ env n) -> raises (construct env n).
Proof. apply raises_bind. Qed.

(** C5: each of the fatal constructions raises in the constructor
    itself, with no schema of the new node ever asked for. *)
Theorem construction_errors_are_immediate env n :
  construction_violation env n -> raises (construct env n).
Proof.
  intros V. apply construct_raises. destruct V; simpl.
  - eexists. reflexivity.
  - unfold ConcatNode__post_init__.
    destruct children as [|c0 cs]; [contradiction |].
    change (len (c0 :: cs) =? 0)%Z with false. cbn iota.
    destruct (rmap (fun child => s <- schema env child ;; Ok (dtypes s)) (c0 :: cs))
      as [child_schemas|e] eqn:E; [| exists e; reflexivity].
    cbn [rbind].
    destruct (List.length (nodup dtypes_eq_dec child_schemas) =? 1)%nat eqn:Elen;
      simpl; [| eexists; reflexivity].
    exfalso. apply Nat.eqb_eq in Elen.
    destruct (@rmap_ok_in _ _ _ _ _ E c1 H) as [d1 [E1 Hd1]].
    destruct (@rmap_ok_in _ _ _ _ _ E c2 H0) as [d2 [E2 Hd2]].
    rewrite H1 in E1. rewrite H2 in E2. simpl in E1, E2.
    injection E1 as <-. injection E2 as <-.
    apply H3. apply (@nodup_singleton_all_equal _ dtypes_eq_dec child_schemas);
      assumption.
  - unfold OrderByNode__post_init__. rewrite H. cbn [rbind].
    match goal with |- raises (match find ?f ?l with _ => _ end) =>
      destruct (find f l) as [v|] eqn:E end.
    + eexists. reflexivity.
    + exfalso.
      assert (Hin : In variable
                (flat_map (fun oe => unbound_variables (scalar_expression oe)) by_)).
      { apply in_flat_map. exists order_expr. split; assumption. }
      pose proof (@find_none _ _ _ E _ Hin) as Hf. simpl in Hf.
      apply negb_false_iff in Hf. apply str_in_iff in Hf. contradiction.
  - unfold ReadTableNode__post_init__.
    rewrite (@issubset_false _ _ _ H H0). simpl. eexists. reflexivity.
  - unfold ReadTableNode__post_init__.
    destruct (issubset (names columns) (map name physical_schema)); simpl;
      [| eexists; reflexivity].
    assert (E : (len total_order_cols =? 1)%Z = false).
    { apply Z.eqb_neq. unfold len. lia. }
    rewrite E. simpl. eexists. reflexivity.
  - unfold CachedTableNode__post_init__. rewrite H. cbn [rbind].
    rewrite (@issubset_false _ _ _ H0 H1). simpl. eexists. reflexivity.
  - unfold CachedTableNode__post_init__, hidden_columns. rewrite H. cbn [rbind].
    destruct (issubset (names s) (map name physical_schema)); simpl;
      [| eexists; reflexivity].
    match goal with |- raises (if negb (issubset ?h ?p) then _ else _) =>
      rewrite (@issubset_false h p col) end.
    + simpl. eexists. reflexivity.
    + apply filter_In. split; [apply In_sorted; assumption |].
      apply negb_true_iff. destruct (str_in col (names s)) eqn:E; [| reflexivity].
      apply str_in_iff in E. contradiction.
    + assumption.
Qed.

Lemma mismatched_concat_violation :
  construction_violation int_typing mismatched_concat.
Proof.
  unfold mismatched_concat.
  eapply concat_dtype_mismatch with
    (c1 := ReadLocalNode [] (mkArraySchema [mkSchemaItem "a" INT_DTYPE]) None)
    (c2 := ReadLocalNode [] (mkArraySchema [mkSchemaItem "a" STRING_DTYPE]) None).
  - simpl. left. reflexivity.
  - simpl. right. left. reflexivity.
  - reflexivity.
  - reflexivity.
  - simpl. discriminate.
Defined.

Lemma construction_errors_are_immediate_witness :
  construction_violation int_typing mismatched_concat /\
  raises (construct int_typing mismatched_concat).
Proof.
  split; [exact mismatched_concat_violation |].
  apply (@construction_errors_are_immediate int_typing mismatched_concat).
  exact mismatched_concat_violation.
Defined.

(** ** Session resolution *)

Lemma nodup_two_distinct {A} (dec : forall a b : A, {a = b} + {a <> b}) (l : list A) :
  (1 < List.length (nodup dec l))%nat ->
  exists x y, In x l /\ In y l /\ x <> y.
Proof.
  intros Hlen. pose proof (NoDup_nodup dec l) as Hnd.
  assert (Hin : forall z, In z (nodup dec l) -> In z l)
    by (intros z; apply nodup_In).
  destruct (nodup dec l) as [|a [|b rest]]; simpl in Hlen; try lia.
  exists a, b. repeat split.
  - apply Hin. left. reflexivity.
  - apply Hin. right. left. reflexivity.
  - intros ->. inversion Hnd as [|? ? Hnot _]. apply Hnot. left. reflexivity.
Qed.

Lemma nodup_length_zero {A} (dec : forall a b : A, {a = b} + {a <> b}) (l : list A) :
  List.length (nodup dec l) = 0%nat -> l = [].
Proof.
  destruct l as [|a l]; [reflexivity |]. intros Hlen. exfalso.
  assert (Hin : In a (nodup dec (a :: l))) by (apply nodup_In; left; reflexivity).
  destruct (nodup dec (a :: l)); [contradiction | discriminate].
Qed.

Lemma sequence_raise_spec (srcs : list (list Session))
    (rs : list (result (option Session))) (e : PyError) :
  Forall2 session_spec srcs rs ->
  sequence rs = Raise e ->
  session_spec (List.concat srcs) (Raise e).
Proof.
  unfold sequence. induction 1 as [|src r srcs rs Hr Hrest IH]; simpl; intros E.
  - discriminate.
  - destruct r as [o|e0]; simpl in E.
    + destruct (rmap (fun r => r) rs) as [os|e1] eqn:E1; simpl in E; [discriminate |].
      injection E as <-. destruct (IH eq_refl) as [(x & y & Hx & Hy & Hxy) ->].
      split; [| reflexivity]. exists x, y.
      repeat split; try assumption; apply in_or_app; right; assumption.
    + injection E as <-. destruct Hr as [(x & y & Hx & Hy & Hxy) ->].
      split; [| reflexivity]. exists x, y.
      repeat split; try assumption; apply in_or_app; left; assumption.
Qed.

Lemma sequence_ok_sources (srcs : list (list Session))
    (rs : list (result (option Session))) (resolved : list (option Session)) :
  Forall2 session_spec srcs rs ->
  sequence rs = Ok resolved ->
  forall x, In x (List.concat srcs) <-> In x (not_none resolved).
Proof.
  unfold sequence. intros HF. revert resolved.
  induction HF as [|src r srcs rs Hr Hrest IH]; simpl; intros resolved E x.
  - injection E as <-. reflexivity.
  - destruct r as [o|e0]; simpl in E; [| discriminate].
    destruct (rmap (fun r => r) rs) as [os|e1] eqn:E1; simpl in E; [| discriminate].
    injection E as <-. unfold not_none. simpl.
    rewrite !in_app_iff. fold (not_none os). rewrite <- (IH os eq_refl x).
    destruct o as [s|]; simpl in Hr.
    + destruct Hr as [Hne Hall]. split; intros [Hx | Hx]; auto.
      * left. left. symmetry. apply Hall. assumption.
      * destruct Hx as [<- | []]. left.
        destruct src as [|y src]; [contradiction |].
        left. apply Hall. left. reflexivity.
    + subst src. simpl. tauto.
Qed.

Lemma BigFrameNode_session_spec (srcs : list (list Session))
    (rs : list (result (option Session))) :
  Forall2 session_spec srcs rs ->
  session_spec (List.concat srcs) (BigFrameNode_session rs).
Proof.
  intros HF. unfold BigFrameNode_session.
  destruct (sequence rs) as [resolved|e] eqn:E; cbn [rbind].
  - pose proof (sequence_ok_sources HF E) as Hsame.
    unfold unique_count.
    destruct (1 <? List.length (nodup Nat.eq_dec (not_none resolved)))%nat eqn:Emany.
    + apply Nat.ltb_lt in Emany.
      destruct (nodup_two_distinct Nat.eq_dec _ Emany) as (x & y & Hx & Hy & Hxy).
      split; [| reflexivity]. exists x, y. repeat split; try assumption;
        apply Hsame; assumption.
    + destruct (List.length (nodup Nat.eq_dec (not_none resolved)) =? 1)%nat eqn:Eone.
      * apply Nat.eqb_eq in Eone.
        destruct (not_none resolved) as [|s rest] eqn:Es; [discriminate |].
        simpl. split.
        -- intros Hnil. assert (Hs : In s (List.concat srcs))
             by (apply Hsame; left; reflexivity).
           rewrite Hnil in Hs. contradiction.
        -- intros x Hx. apply Hsame in Hx.
           apply (@nodup_singleton_all_equal _ Nat.eq_dec (s :: rest));
             [assumption | assumption | left; reflexivity].
      * apply Nat.ltb_ge in Emany. apply Nat.eqb_neq in Eone.
        assert (Hz : List.length (nodup Nat.eq_dec (not_none resolved)) = 0%nat) by lia.
        apply nodup_length_zero in Hz. simpl.
        destruct (List.concat srcs) as [|x rest] eqn:Ec; [reflexivity |].
        assert (Hx : In x (not_none resolved))
          by (apply Hsame; left; reflexivity).
        rewrite Hz in Hx. contradiction.
  - apply (sequence_raise_spec HF E).
Qed.

Lemma session_meets_spec (n : BigFrameNode) :
  session_spec (source_sessions n) (session n).
Proof.
  induction n using BigFrameNode_tree_ind; simpl;
    try (rewrite <- (app_nil_r (source_sessions n));
         apply (@BigFrameNode_session_spec [source_sessions n] [session n]);
         repeat constructor; assumption);
    try assumption.
  - replace (source_sessions n1 ++ source_sessions n2)
      with (List.concat [source_sessions n1; source_sessions n2])
      by (simpl; rewrite app_nil_r; reflexivity).
    apply BigFrameNode_session_spec. repeat constructor; assumption.
  - rewrite flat_map_concat_map. apply BigFrameNode_session_spec.
    induction H; simpl; constructor; assumption.
  - destruct se as [owner|]; simpl.
    + split; [discriminate | intros x [<- | []]; reflexivity].
    + reflexivity.
  - split; [discriminate | intros x [<- | []]; reflexivity].
Qed.

(** C6, as the code has it: with the distinct owning sessions of the
    sources below a node collected transitively, [session] is [None]
    when there is none, that session when there is exactly one, and a
    [ValueError] when there are more; the error belongs to the
    resolution of [session], the constructor of a join (which has no
    [__post_init__]) accepts any two subtrees. *)
Theorem session_resolution_on_access :
  (forall n,
      match nodup Nat.eq_dec (source_sessions n) with
      | [] => session n = Ok None
      | [s] => session n = Ok (Some s)
      | _ :: _ :: _ => session n = Raise mixed_sessions_error
      end) /\
  (forall env l r j, construct env (JoinNode l r j) = Ok (JoinNode l r j)).
Proof.
  split; [| reflexivity].
  intros n. pose proof (session_meets_spec n) as Hspec.
  pose proof (NoDup_nodup Nat.eq_dec (source_sessions n)) as Hnd.
  assert (Hin : forall z, In z (nodup Nat.eq_dec (source_sessions n)) <->
                          In z (source_sessions n))
    by (intros z; apply nodup_In).
  destruct (nodup Nat.eq_dec (source_sessions n)) as [|a [|b rest]] eqn:En.
  - assert (Hnil : source_sessions n = []).
    { destruct (source_sessions n) as [|x xs]; [reflexivity |].
      exfalso. apply (Hin x). left. reflexivity. }
    rewrite Hnil in Hspec.
    destruct (session n) as [[s|]|e]; simpl in Hspec.
    + destruct Hspec as [Hne _]. contradiction.
    + reflexivity.
    + destruct Hspec as [(x & y & [] & _) _].
  - assert (Ha : In a (source_sessions n)) by (apply Hin; left; reflexivity).
    assert (Hall : forall z, In z (source_sessions n) -> z = a).
    { intros z Hz. apply Hin in Hz. destruct Hz as [<- | []]. reflexivity. }
    destruct (session n) as [[s|]|e]; simpl in Hspec.
    + destruct Hspec as [_ Hs]. rewrite (Hs a Ha). reflexivity.
    + rewrite Hspec in Ha. contradiction.
    + destruct Hspec as [(x & y & Hx & Hy & Hxy) _].
      exfalso. apply Hxy. rewrite (Hall x Hx), (Hall y Hy). reflexivity.
  - assert (Hab : a <> b).
    { intros ->. inversion Hnd as [|? ? Hnot _]. apply Hnot. left. reflexivity. }
    assert (Ha : In a (source_sessions n)) by (apply Hin; left; reflexivity).
    assert (Hb : In b (source_sessions n)) by (apply Hin; right; left; reflexivity).
    destruct (session n) as [[s|]|e]; simpl in Hspec.
    + destruct Hspec as [_ Hs]. exfalso. apply Hab.
      rewrite (Hs a Ha), (Hs b Hb). reflexivity.
    + rewrite Hspec in Ha. contradiction.
    + destruct Hspec as [_ ->]. reflexivity.
Qed.

(** C6, as stated, fails: the two table reads and their join are all
    constructed without error although they belong to two sessions; the
    conflict only shows when [session] is asked for. *)
Lemma two_sessions_can_be_joined :
  construct int_typing (table_kv 1 ["k"]) = Ok (table_kv 1 ["k"]) /\
  construct int_typing (table_kv 2 ["k"]) = Ok (table_kv 2 ["k"]) /\
  construct int_typing two_session_join = Ok two_session_join /\
  source_sessions two_session_join = [1; 2]%nat /\
  session two_session_join = Raise mixed_sessions_error.
Proof. repeat split; reflexivity. Qed.

(** ** Structural hash and equality *)

Lemma eqb_of_true {A} (dec : forall a b : A, {a = b} + {a <> b}) (a b : A) :
  eqb_of dec a b = true <-> a = b.
Proof. unfold eqb_of. destruct (dec a b); split; congruence. Qed.

Lemma float_eqb_eq (x y : PyFloat) : float_eqb x y = true <-> x = y.
Proof.
  destruct x as [a| | |i], y as [b| | |j]; simpl; split; intros E;
    try discriminate; try reflexivity.
  - apply Qeq_bool_iff in E. apply Qc_is_canon in E. subst. reflexivity.
  - injection E as <-. apply Qeq_bool_iff. reflexivity.
  - apply Nat.eqb_eq in E. subst. reflexivity.
  - injection E as <-. apply Nat.eqb_refl.
Qed.

Lemma node_eqb_refl (a : BigFrameNode) : node_eqb a a = true.
Proof.
  induction a using BigFrameNode_tree_ind; simpl;
    repeat match goal with
           | IH : node_eqb ?x ?x = true |- _ => rewrite IH; clear IH
           end;
    repeat (rewrite (proj2 (eqb_of_true _ _ _) eq_refl));
    try (rewrite (proj2 (float_eqb_eq _ _) eq_refl)); try reflexivity.
  induction H as [|c cs Hc Hcs IH]; [reflexivity |].
  rewrite Hc. exact IH.
Qed.

Lemma node_eqb_sound (a : BigFrameNode) : forall b, node_eqb a b = true -> a = b.
Proof.
  induction a using BigFrameNode_tree_ind; intros [] E; simpl in E;
    try discriminate;
    repeat match type of E with
           | (_ && _)%bool = true =>
               let E' := fresh "E" in
               apply andb_true_iff in E; destruct E as [E E']
           end;
    repeat match goal with
           | Hf : eqb_of _ _ _ = true |- _ => apply eqb_of_true in Hf
           | Hf : float_eqb _ _ = true |- _ => apply float_eqb_eq in Hf
           | IH : forall b, node_eqb ?x b = true -> ?x = b,
             Hf : node_eqb ?x _ = true |- _ => apply IH in Hf
           end;
    subst; try reflexivity.
  f_equal. revert children E.
  induction H as [|c cs Hc Hcs IH]; intros [|c' cs'] E; try discriminate;
    [reflexivity |].
  apply andb_true_iff in E. destruct E as [E1 E2].
  apply Hc in E1. apply IH in E2. subst. reflexivity.
Qed.

Lemma node_eqb_eq (a b : BigFrameNode) : node_eqb a b = true <-> a = b.
Proof.
  split; [apply node_eqb_sound | intros <-; apply node_eqb_refl].
Qed.

Lemma node_eqb_neq (a b : BigFrameNode) : node_eqb a b = false <-> a <> b.
Proof.
  split.
  - intros E <-. rewrite node_eqb_refl in E. discriminate.
  - intros Hne. destruct (node_eqb a b) eqn:E; [| reflexivity].
    apply node_eqb_sound in E. contradiction.
Qed.

(** A node is its class and parameters around its children. *)
Lemma node_of_parts (a b : BigFrameNode) :
  without_children a = without_children b ->
  child_nodes a = child_nodes b ->
  a = b.
Proof.
  destruct a, b; simpl; intros E1 E2; try discriminate;
    try (injection E2 as <-); try (injection E2 as <- <-);
    try (injection E1; intros; subst; reflexivity);
    try exact E1.
  - subst. reflexivity.
  - reflexivity.
  - reflexivity.
Qed.

Lemma node_sequence_unfold (n : BigFrameNode) :
  node_sequence n
  = (without_children n, List.length (child_nodes n))
    :: flat_map node_sequence (child_nodes n).
Proof.
  destruct n; simpl; rewrite ?app_nil_r; reflexivity.
Qed.

(** The sequence of a tree can be read back: it determines the tree,
    also when more entries follow. *)
Lemma node_sequence_prefix (a : BigFrameNode) :
  forall b rest rest',
    node_sequence a ++ rest = node_sequence b ++ rest' -> a = b /\ rest = rest'.
Proof.
  induction a as [a IH] using child_nodes_ind. intros b rest rest' E.
  rewrite (node_sequence_unfold a), (node_sequence_unfold b) in E.
  simpl in E. injection E as Ew El E.
  assert (Hcs : child_nodes a = child_nodes b /\ rest = rest').
  { revert IH El E. generalize (child_nodes a) (child_nodes b).
    induction l as [|x xs IHxs]; intros [|y ys] Hall El E; try discriminate.
    - split; [reflexivity | exact E].
    - simpl in E. rewrite <- !app_assoc in E.
      inversion Hall as [|? ? Hx Hxs]; subst.
      apply Hx in E. destruct E as [<- E].
      injection El as El.
      destruct (IHxs ys Hxs El E) as [<- <-]. split; reflexivity. }
  destruct Hcs as [Hcs <-]. split; [| reflexivity].
  apply node_of_parts; assumption.
Qed.

Lemma node_sequence_inj (a b : BigFrameNode) :
  node_sequence a = node_sequence b -> a = b.
Proof.
  intros E.
  apply (@node_sequence_prefix a b [] []). rewrite !app_nil_r. exact E.
Qed.

Lemma map_replace_nth {A B} (f : A -> B) (i : nat) (xs : list A) (x x' : A) :
  f x = f x' -> map f (replace_nth i xs x) = map f (replace_nth i xs x').
Proof.
  intros E. revert i. induction xs as [|y ys IH]; intros [|i]; simpl;
    try reflexivity.
  - rewrite E. reflexivity.
  - rewrite IH. reflexivity.
Qed.

(** The hash of a node sees a child through the hash of that child. *)
Lemma replace_child_hash (H : PyHash) (p : BigFrameNode) (i : nat)
    (c c' : BigFrameNode) :
  py_hash H c = py_hash H c' ->
  field_hashes H (replace_child p i c) = field_hashes H (replace_child p i c').
Proof.
  unfold py_hash. intros E.
  destruct p; try reflexivity;
    try (destruct i as [|[|i]]; cbn [replace_child field_hashes];
         rewrite ?E; reflexivity).
  cbn [replace_child field_hashes]. f_equal. f_equal.
  apply map_replace_nth. exact E.
Qed.

Lemma replace_child_class (p : BigFrameNode) (i : nat) (c : BigFrameNode) :
  defines___hash__ (replace_child p i c) = defines___hash__ p.
Proof. destruct p; try reflexivity; destruct i as [|[|i]]; reflexivity. Qed.

Lemma plug_hash (H : PyHash) (path : list (BigFrameNode * nat)) (c c' : BigFrameNode) :
  py_hash H c = py_hash H c' ->
  py_hash H (plug path c) = py_hash H (plug path c').
Proof.
  intros E. induction path as [|[p i] path IH]; simpl; [exact E |].
  unfold py_hash, hash_with. rewrite !replace_child_class.
  rewrite (@replace_child_hash H p i _ _ IH). reflexivity.
Qed.


Lemma sample_all_changed : sample_all <> sample_changed.
Proof.
  unfold sample_all, sample_changed. intros E.
  apply (f_equal (fun n => match n with
                           | RandomSampleNode _ (Finite f) => Qnum f
                           | _ => 0%Z
                           end)) in E.
  vm_compute in E. discriminate.
Qed.

Lemma sample_hash_collision (H : PyHash) :
  py_hash H sample_all = py_hash H sample_changed.
Proof.
  assert (E : hash_finite_float (Q2Qc 1)
              = hash_finite_float (Q2Qc (inject_Z (2 ^ 61))))
    by (vm_compute; reflexivity).
  unfold py_hash, hash_with, sample_all, sample_changed.
  cbn [defines___hash__ field_hashes hash_float]. rewrite E. reflexivity.
Qed.



(* ================================================================= *)
(** * Properties of the executor *)

(** ** The head plan *)

Lemma lookup_in (its : list SchemaItem) (id : string) :
  In id (map column its) -> exists d, lookup its id = Ok d.
Proof.
  induction its as [|it its IH]; simpl; intros Hin; [contradiction |].
  destruct (String.eqb (column it) id) eqn:E.
  - exists (dtype it). reflexivity.
  - destruct Hin as [Heq | Hin]; [| apply IH; assumption].
    subst id. rewrite String.eqb_refl in E. discriminate.
Qed.

Lemma select_names (s : ArraySchema) (ns : list string) :
  incl ns (names s) ->
  exists its,
    rmap (fun '(input, output) =>
            d <- get_type s input ;; Ok (mkSchemaItem output d))
         (map (fun i => (i, i)) ns) = Ok its /\
    map column its = ns.
Proof.
  induction ns as [|i ns IH]; simpl; intros Hincl.
  - exists []. split; reflexivity.
  - destruct (@lookup_in (items s) i) as [d Hd];
      [apply Hincl; left; reflexivity |].
    destruct IH as [its [Hits Hnames]];
      [intros x Hx; apply Hincl; right; assumption |].
    exists (mkSchemaItem i d :: its). unfold get_type. rewrite Hd. simpl.
    unfold get_type in Hits. rewrite Hits. simpl. rewrite Hnames.
    split; reflexivity.
Qed.

Lemma head_plan_schema env plan offsets_id n sch :
  schema env plan = Ok sch ->
  exists head_schema,
    schema env (head_plan_of plan offsets_id n (names sch)) = Ok head_schema /\
    names head_schema = names sch.
Proof.
  intros E. unfold head_plan_of. simpl. rewrite E. simpl.
  destruct (@select_names (prepend sch (mkSchemaItem offsets_id INT_DTYPE))
              (names sch)) as [its [Hits Hnames]].
  { intros x Hx. unfold names, prepend. simpl. right. assumption. }
  rewrite Hits. simpl. eexists. split; [reflexivity |].
  unfold names. simpl. assumption.
Qed.

(** With unique ids, looking up the id of an item finds that item. *)
Lemma lookup_own (its : list SchemaItem) (it : SchemaItem) :
  NoDup (map column its) -> In it its -> lookup its (column it) = Ok (dtype it).
Proof.
  induction its as [|x its IH]; simpl; intros Hnd Hin; [contradiction |].
  inversion Hnd as [|? ? Hx Hrest]; subst.
  destruct Hin as [-> | Hin]; [rewrite String.eqb_refl; reflexivity |].
  destruct (String.eqb (column x) (column it)) eqn:E; [| apply IH; assumption].
  apply String.eqb_eq in E. exfalso. apply Hx. rewrite E.
  apply in_map. exact Hin.
Qed.

Lemma select_own (s : ArraySchema) (its : list SchemaItem) :
  (forall it, In it its -> get_type s (column it) = Ok (dtype it)) ->
  rmap (fun '(input, output) =>
          d <- get_type s input ;; Ok (mkSchemaItem output d))
       (map (fun i => (i, i)) (map column its)) = Ok its.
Proof.
  induction its as [|it its IH]; simpl; intros Hget; [reflexivity |].
  rewrite (Hget it (or_introl eq_refl)). simpl.
  rewrite IH by (intros x Hx; apply Hget; right; exact Hx).
  simpl. destruct it. reflexivity.
Qed.

(** The head plan has the schema of the plan it was built on, ids and
    types, when the ids of that schema are unique and the id of the
    offsets column is none of them. *)
Lemma head_plan_schema_full env plan offsets_id n sch :
  schema env plan = Ok sch ->
  NoDup (names sch) ->
  ~ In offsets_id (names sch) ->
  schema env (head_plan_of plan offsets_id n (names sch)) = Ok sch.
Proof.
  intros E Hnd Hfresh. unfold head_plan_of. simpl. rewrite E. simpl.
  unfold names. rewrite select_own; [destruct sch; reflexivity |].
  intros it Hin. unfold get_type, prepend. simpl.
  destruct (String.eqb offsets_id (column it)) eqn:Eid.
  - apply String.eqb_eq in Eid. exfalso. apply Hfresh. rewrite Eid.
    apply in_map. exact Hin.
  - apply lookup_own; assumption.
Qed.

(** C1, as the code has it.  With [plan] the cache-optimized plan:
    a known row count of at most [n] runs the ordered execution of the
    node as it is; otherwise a session that is not strictly ordered, on
    a node without explicit ordering, delegates to [peek]; otherwise a
    plan that supports a fast head goes straight to the head plan;
    otherwise the offset materialization is forced first, which raises
    when the session is not strictly ordered, and the head plan is built
    on the plan optimized again.  The head plan promotes offsets, keeps
    the rows whose offset is below [n] and selects the columns of [plan]
    again: it has the column ids of [plan], and exactly the schema of
    [plan], ids and types, when those ids are unique and the generated
    offsets id is none of them. *)
Theorem head_dispatch env ext strictly_ordered node n s :
  let plan := replace_nodes ext node (_cached_executions s) in
  let known_small :=
    match row_count ext plan with
    | Some c => (c <=? n)%Z
    | None => false
    end in
  let any_rows_will_do := negb strictly_ordered && negb (explicitly_ordered ext node) in
  (known_small = true ->
   head env ext strictly_ordered node n s
   = execute env ext strictly_ordered node true [] false s) /\
  (known_small = false -> any_rows_will_do = true ->
   head env ext strictly_ordered node n s = peek ext strictly_ordered node n s) /\
  (known_small = false -> any_rows_will_do = false ->
   can_fast_head ext plan = true ->
   head env ext strictly_ordered node n s
   = run_head_plan env ext strictly_ordered plan n s) /\
  (known_small = false -> any_rows_will_do = false ->
   can_fast_head ext plan = false ->
   head env ext strictly_ordered node n s
   = bind (_cache_with_offsets env ext strictly_ordered node)
       (fun _ => bind (_get_optimized_plan ext node)
       (fun plan' => bind (assert (can_fast_head ext plan'))
       (fun _ => run_head_plan env ext strictly_ordered plan' n))) s /\
   (strictly_ordered = false ->
    head env ext strictly_ordered node n s
    = (Raise (ValueError
                "Caching with offsets only supported in strictly ordered mode."),
       s))) /\
  (forall p sch s0,
      schema env p = Ok sch ->
      let offsets_id := ("offsets_" ++ str_of_nat (guid_counter s0))%string in
      let head_plan := head_plan_of p offsets_id n (names sch) in
      generate_head_plan env p n s0 = (Ok head_plan, after_guid s0) /\
      run_head_plan env ext strictly_ordered p n s0
      = _run_execute_query ext strictly_ordered (compile_ordered ext head_plan [])
          None None (after_guid s0) /\
      (exists head_schema,
          schema env head_plan = Ok head_schema /\ names head_schema = names sch) /\
      (NoDup (names sch) -> ~ In offsets_id (names sch) ->
       schema env head_plan = Ok sch)).
Proof.
  intros plan known_small any_rows_will_do.
  assert (Hhead : head env ext strictly_ordered node n s =
    if known_small then execute env ext strictly_ordered node true [] false s
    else if any_rows_will_do then peek ext strictly_ordered node n s
    else bind (if negb (can_fast_head ext plan)
               then bind (_cache_with_offsets env ext strictly_ordered node)
                      (fun _ => bind (_get_optimized_plan ext node)
                      (fun plan' => bind (assert (can_fast_head ext plan'))
                      (fun _ => ret plan')))
               else ret plan)
              (fun plan => run_head_plan env ext strictly_ordered plan n) s).
  { unfold head, _local_get_row_count, _get_optimized_plan, get_cache, bind, ret.
    fold plan. fold known_small. fold any_rows_will_do.
    destruct known_small; [reflexivity |].
    destruct any_rows_will_do; reflexivity. }
  split; [| split; [| split; [| split]]].
  - intros E. rewrite Hhead, E. reflexivity.
  - intros E1 E2. rewrite Hhead, E1, E2. reflexivity.
  - intros E1 E2 E3. rewrite Hhead, E1, E2, E3. reflexivity.
  - intros E1 E2 E3. split.
    + rewrite Hhead, E1, E2, E3. simpl negb. cbn iota.
      unfold bind, ret.
      destruct (_cache_with_offsets env ext strictly_ordered node s) as [[[]|e] s1];
        [| reflexivity].
      destruct (_get_optimized_plan ext node s1) as [[plan'|e] s2]; [| reflexivity].
      destruct (assert (can_fast_head ext plan') s2) as [[[]|e] s3]; reflexivity.
    + intros ->. rewrite Hhead, E1, E2, E3. reflexivity.
  - intros p sch s0 Hsch offsets_id head_plan. split; [| split; [| split]].
    + unfold generate_head_plan, generate_guid, bind, lift, ret. rewrite Hsch.
      reflexivity.
    + unfold run_head_plan, generate_head_plan, generate_guid, bind, lift, ret.
      rewrite Hsch. reflexivity.
    + apply head_plan_schema. assumption.
    + intros Hnd Hfresh. apply head_plan_schema_full; assumption.
Qed.

Lemma head_dispatch_witness :
  let ext := sample_externals false None None in
  let plan := replace_nodes ext scenario_table (_cached_executions initial_state) in
  match row_count ext plan with
  | Some c => (c <=? 5)%Z
  | None => false
  end = false /\
  negb true && negb (explicitly_ordered ext scenario_table) = false /\
  can_fast_head ext plan = false /\
  head int_typing ext true scenario_table 5 initial_state
  = bind (_cache_with_offsets int_typing ext true scenario_table)
      (fun _ => bind (_get_optimized_plan ext scenario_table)
      (fun plan' => bind (assert (can_fast_head ext plan'))
      (fun _ => run_head_plan int_typing ext true plan' 5))) initial_state /\
  schema int_typing (head_plan_of cached_scenario "offsets_2" 5 ["k"; "v"])
  = schema int_typing scenario_table.
Proof.
  intros ext plan.
  pose proof (@head_dispatch int_typing ext true scenario_table 5 initial_state)
    as (_ & _ & _ & Hslow & Hplan).
  split; [reflexivity |]. split; [reflexivity |]. split; [reflexivity |].
  split; [exact (proj1 (Hslow eq_refl eq_refl eq_refl)) |].
  destruct (Hplan cached_scenario
              (mkArraySchema [mkSchemaItem "k" INT_DTYPE; mkSchemaItem "v" INT_DTYPE])
              (mkState [] 2 []) eq_refl) as (_ & _ & _ & Hfull).
  apply Hfull.
  - repeat constructor; simpl; intuition discriminate.
  - simpl. intuition discriminate.
Defined.

(** In strict mode the same call materializes the table with offsets
    (a temporary table clustered on the offsets column, one query),
    registers the cached table and then runs the head plan on it. *)
Example head_strict_materializes_then_reads :
  let ext := sample_externals false None None in
  let '(r, s) := head int_typing ext true scenario_table 5 initial_state in
  is_ok r = true /\
  map fst (_cached_executions s) = [scenario_table] /\
  map (fun e => match e with
                | EvQuery sql _ => sql
                | EvCreateTempTable _ cols => String.concat "," cols
                | EvWarn msg => msg
                end) (trace s)
  = ["SELECT ordered"; "SELECT unordered"; "col_1"].
Proof. vm_compute. repeat split; reflexivity. Qed.

(** C1, as stated, fails: the session is not strictly ordered, the plan
    is a filtered table read that the user sorted, no row count is known
    and the plan has no fast head; [head] raises, and no head plan is
    built or run (the state is untouched). *)
Lemma head_raises_when_not_strictly_ordered :
  let ext := order_aware_externals in
  let plan := replace_nodes ext ordered_filter (_cached_executions initial_state) in
  construct int_typing ordered_filter = Ok ordered_filter /\
  row_count ext plan = None /\
  explicitly_ordered ext ordered_filter = true /\
  explicitly_ordered ext scenario_table = false /\
  can_fast_head ext plan = false /\
  head int_typing ext false ordered_filter 5 initial_state
  = (Raise (ValueError
              "Caching with offsets only supported in strictly ordered mode."),
     initial_state).
Proof. repeat split; reflexivity. Qed.

(** ** Complexity-bounded factoring *)

Lemma effects_silent {A} (m : Exec A) :
  (forall s, trace (snd (m s)) = trace s) -> effects_within m 0 0.
Proof.
  intros Hm s. exists []. rewrite Hm. split; [reflexivity | split; count_events].
Qed.

Lemma effects_weaken {A} (m : Exec A) (q t q' t' : nat) :
  effects_within m q t -> (q <= q')%nat -> (t <= t')%nat -> effects_within m q' t'.
Proof.
  intros Hm Hq Ht s. destruct (Hm s) as (events & E & Hcq & Hct).
  exists events. split; [assumption | split; lia].
Qed.

Lemma count_queries_app (a b : list Event) :
  count_queries (a ++ b) = (count_queries a + count_queries b)%nat.
Proof. unfold count_queries. rewrite filter_app, length_app. reflexivity. Qed.

Lemma count_temp_tables_app (a b : list Event) :
  count_temp_tables (a ++ b) = (count_temp_tables a + count_temp_tables b)%nat.
Proof. unfold count_temp_tables. rewrite filter_app, length_app. reflexivity. Qed.

Lemma effects_bind {A B} (m : Exec A) (k : A -> Exec B) (q1 t1 q2 t2 : nat) :
  effects_within m q1 t1 ->
  (forall a, effects_within (k a) q2 t2) ->
  effects_within (bind m k) (q1 + q2) (t1 + t2).
Proof.
  intros Hm Hk s. unfold bind. destruct (Hm s) as (ev1 & E1 & Hq1 & Ht1).
  destruct (m s) as [[a|e] s1]; simpl in E1.
  - destruct (Hk a s1) as (ev2 & E2 & Hq2 & Ht2).
    exists (ev2 ++ ev1). rewrite E2, E1, app_assoc.
    rewrite count_queries_app, count_temp_tables_app.
    split; [reflexivity | split; lia].
  - exists ev1. simpl. split; [assumption | split; lia].
Qed.

Lemma effects_ret {A} (a : A) : effects_within (ret a) 0 0.
Proof. apply effects_silent. reflexivity. Qed.

Lemma effects_throw {A} (e : PyError) : effects_within (@throw A e) 0 0.
Proof. apply effects_silent. reflexivity. Qed.

Lemma effects_lift {A} (r : result A) : effects_within (lift r) 0 0.
Proof. apply effects_silent. reflexivity. Qed.

Lemma effects_assert (b : bool) : effects_within (assert b) 0 0.
Proof. destruct b; [apply effects_ret | apply effects_throw]. Qed.

Lemma effects_get_optimized_plan ext node :
  effects_within (_get_optimized_plan ext node) 0 0.
Proof. apply effects_silent. reflexivity. Qed.

Lemma effects_run_execute_query ext strictly_ordered sql job_config api_name :
  effects_within (_run_execute_query ext strictly_ordered sql job_config api_name) 1 0.
Proof.
  intros s. unfold _run_execute_query, bind, emit.
  match goal with |- context [EvQuery sql ?c] => set (cfg := c) end.
  exists [EvQuery sql cfg].
  assert (Htrace : forall A (r : result A),
             trace (snd (r, mkState (_cached_executions s) (guid_counter s)
                                    (EvQuery sql cfg :: trace s)))
             = [EvQuery sql cfg] ++ trace s) by reflexivity.
  split; [| split; count_events].
  destruct (bq_query ext sql cfg) as [r|e]; [reflexivity |].
  destruct e; try reflexivity.
  destruct (contains "Resources exceeded during query execution" msg); reflexivity.
Qed.

Lemma effects_sql_as_cached_temp_table ext strictly_ordered sql schema cluster_cols :
  effects_within
    (_sql_as_cached_temp_table ext strictly_ordered sql schema cluster_cols) 1 1.
Proof.
  unfold _sql_as_cached_temp_table.
  apply (@effects_bind _ _ _ _ 0 0 1 1); [apply effects_assert | intros _].
  apply (@effects_bind _ _ _ _ 0 1 1 0).
  - intros s. exists [EvCreateTempTable schema cluster_cols].
    split; [reflexivity | split; count_events].
  - intros _. apply (@effects_bind _ _ _ _ 1 0 0 0).
    + apply effects_run_execute_query.
    + intros r. apply effects_ret.
Qed.

Lemma effects_cache_with_cluster_cols env ext strictly_ordered node cluster_cols :
  effects_within
    (_cache_with_cluster_cols env ext strictly_ordered node cluster_cols) 1 1.
Proof.
  unfold _cache_with_cluster_cols.
  apply (@effects_bind _ _ _ _ 0 0 1 1);
    [apply effects_get_optimized_plan | intros plan].
  destruct (compile_raw ext plan) as [[sql schema] ordering_info].
  apply (@effects_bind _ _ _ _ 1 1 0 0);
    [apply effects_sql_as_cached_temp_table | intros tmp_table].
  apply (@effects_bind _ _ _ _ 0 0 0 0); [apply effects_lift | intros cached].
  apply effects_silent. reflexivity.
Qed.

Lemma effects_cache_most_complex_subtree env ext strictly_ordered node :
  effects_within (_cache_most_complex_subtree env ext strictly_ordered node) 1 1.
Proof.
  unfold _cache_most_complex_subtree.
  apply (@effects_bind _ _ _ _ 0 0 1 1);
    [apply effects_silent; reflexivity | intros cache].
  destruct (select_cache_target ext node (QUERY_COMPLEXITY_LIMIT / 500)
              QUERY_COMPLEXITY_LIMIT cache) as [target|].
  - apply (@effects_bind _ _ _ _ 1 1 0 0);
      [apply effects_cache_with_cluster_cols | intros _; apply effects_ret].
  - apply (@effects_weaken _ _ 0 0); [apply effects_ret | lia | lia].
Qed.

Lemma simplify_loop_step env ext strictly_ordered k node s :
  simplify_loop env ext strictly_ordered (S k) node s
  = bind (factor_once env ext strictly_ordered node)
      (fun again =>
         if again then simplify_loop env ext strictly_ordered k node else ret tt) s.
Proof.
  simpl. unfold factor_once, bind.
  destruct (_get_optimized_plan ext node s) as [[plan|e] s1]; [| reflexivity].
  destruct (lift (planning_complexity env plan) s1) as [[c|e] s2]; [| reflexivity].
  destruct (c <? QUERY_COMPLEXITY_LIMIT)%Z; [reflexivity |].
  destruct (_cache_most_complex_subtree env ext strictly_ordered node s2)
    as [[[]|e] s3]; reflexivity.
Qed.

Lemma effects_factor_once env ext strictly_ordered node :
  effects_within (factor_once env ext strictly_ordered node) 1 1.
Proof.
  unfold factor_once.
  apply (@effects_bind _ _ _ _ 0 0 1 1);
    [apply effects_get_optimized_plan | intros plan].
  apply (@effects_bind _ _ _ _ 0 0 1 1); [apply effects_lift | intros c].
  destruct (c <? QUERY_COMPLEXITY_LIMIT)%Z.
  - apply (@effects_weaken _ _ 0 0); [apply effects_ret | lia | lia].
  - apply effects_cache_most_complex_subtree.
Qed.

Lemma effects_simplify_loop env ext strictly_ordered k node :
  effects_within (simplify_loop env ext strictly_ordered k node) k k.
Proof.
  induction k as [|k IH].
  - apply effects_ret.
  - intros s. rewrite simplify_loop_step. revert s.
    change (effects_within
              (bind (factor_once env ext strictly_ordered node)
                 (fun again =>
                    if again then simplify_loop env ext strictly_ordered k node
                    else ret tt)) (S k) (S k)).
    apply (@effects_bind _ _ _ _ 1 1 k k); [apply effects_factor_once |].
    intros [|]; [exact IH |].
    apply (@effects_weaken _ _ 0 0); [apply effects_ret | lia | lia].
Qed.

Lemma simplify_loop_raise env ext strictly_ordered k node :
  forall s e s',
    simplify_loop env ext strictly_ordered k node s = (Raise e, s') ->
    exists s0, factor_once env ext strictly_ordered node s0 = (Raise e, s').
Proof.
  induction k as [|k IH]; intros s e s' E.
  - discriminate.
  - rewrite simplify_loop_step in E. unfold bind in E.
    destruct (factor_once env ext strictly_ordered node s) as [[again|e0] s1] eqn:E1.
    + destruct again; [apply (IH _ _ _ E) | discriminate].
    + injection E as <- <-. exists s. assumption.
Qed.

(** C7: the factoring loop runs at most [MAX_SUBTREE_FACTORINGS] = 5
    iterations, so it returns (or raises) after at most 5
    materializations, whatever the tree; an iteration stops the loop when
    the optimized plan is below the ceiling or when no subtree between a
    500th of the ceiling and the ceiling qualifies, and otherwise
    materializes the target and leaves one iteration less; with no
    iteration left the loop returns normally whatever the complexity, an
    exception can only come out of an iteration, and [execute] then
    compiles and submits the plan. *)
Theorem factoring_stays_within_budget env ext strictly_ordered node :
  MAX_SUBTREE_FACTORINGS = 5%nat /\
  (QUERY_COMPLEXITY_LIMIT / 500 = 20000)%Z /\
  (forall s, exists events,
      trace (snd (_simplify_with_caching env ext strictly_ordered node s))
      = events ++ trace s /\
      (count_queries events <= 5)%nat /\ (count_temp_tables events <= 5)%nat) /\
  (forall k s c,
      planning_complexity env (replace_nodes ext node (_cached_executions s)) = Ok c ->
      (c < QUERY_COMPLEXITY_LIMIT)%Z ->
      simplify_loop env ext strictly_ordered (S k) node s = (Ok tt, s)) /\
  (forall k s c,
      planning_complexity env (replace_nodes ext node (_cached_executions s)) = Ok c ->
      (QUERY_COMPLEXITY_LIMIT <= c)%Z ->
      select_cache_target ext node (QUERY_COMPLEXITY_LIMIT / 500)
        QUERY_COMPLEXITY_LIMIT (_cached_executions s) = None ->
      simplify_loop env ext strictly_ordered (S k) node s = (Ok tt, s)) /\
  (forall k s c target,
      planning_complexity env (replace_nodes ext node (_cached_executions s)) = Ok c ->
      (QUERY_COMPLEXITY_LIMIT <= c)%Z ->
      select_cache_target ext node (QUERY_COMPLEXITY_LIMIT / 500)
        QUERY_COMPLEXITY_LIMIT (_cached_executions s) = Some target ->
      simplify_loop env ext strictly_ordered (S k) node s
      = bind (_cache_with_cluster_cols env ext strictly_ordered target [])
          (fun _ => simplify_loop env ext strictly_ordered k node) s) /\
  (forall s, simplify_loop env ext strictly_ordered 0 node s = (Ok tt, s)) /\
  (forall s e s',
      _simplify_with_caching env ext strictly_ordered node s = (Raise e, s') ->
      exists s0, factor_once env ext strictly_ordered node s0 = (Raise e, s')) /\
  (enable_multi_query_execution ext = true ->
   forall s s1 ordered col_id_overrides,
     _simplify_with_caching env ext strictly_ordered node s = (Ok tt, s1) ->
     execute env ext strictly_ordered node ordered col_id_overrides false s
     = bind (to_sql ext node None col_id_overrides ordered true)
         (fun sql => _run_execute_query ext strictly_ordered sql
                       (Some default_QueryJobConfig) None) s1).
Proof.
  split; [reflexivity |]. split; [reflexivity |].
  split; [exact (@effects_simplify_loop env ext strictly_ordered 5 node) |].
  split; [| split; [| split; [| split; [| split]]]].
  - intros k s c Ec Hc. rewrite simplify_loop_step.
    unfold factor_once, _get_optimized_plan, get_cache, ret, lift, bind.
    rewrite Ec. apply Z.ltb_lt in Hc. rewrite Hc. reflexivity.
  - intros k s c Ec Hc Hnone. rewrite simplify_loop_step.
    unfold factor_once, _get_optimized_plan, _cache_most_complex_subtree,
      get_cache, ret, lift, bind.
    rewrite Ec. apply Z.ltb_ge in Hc. rewrite Hc, Hnone. reflexivity.
  - intros k s c target Ec Hc Hsome. rewrite simplify_loop_step.
    unfold factor_once, _get_optimized_plan, _cache_most_complex_subtree,
      get_cache, ret, lift, bind.
    rewrite Ec. apply Z.ltb_ge in Hc. rewrite Hc, Hsome.
    destruct (_cache_with_cluster_cols env ext strictly_ordered target [] s)
      as [[[]|e] s1]; reflexivity.
  - reflexivity.
  - apply simplify_loop_raise.
  - intros Hmulti s s1 ordered col_id_overrides Hs.
    unfold execute. rewrite Hmulti. unfold bind at 1. rewrite Hs.
    unfold bind, to_sql, ret.
    destruct (_get_optimized_plan ext node s1) as [[plan|e] s2]; [| reflexivity].
    destruct ordered; reflexivity.
Qed.

Lemma factoring_stays_within_budget_witness :
  let ext := sample_externals false None (Some (table_kv 1 ["k"])) in
  let s1 := snd (_simplify_with_caching int_typing ext true over_ceiling_plan
                   initial_state) in
  enable_multi_query_execution ext = true /\
  _simplify_with_caching int_typing ext true over_ceiling_plan initial_state
  = (Ok tt, s1) /\
  execute int_typing ext true over_ceiling_plan true [] false initial_state
  = bind (to_sql ext over_ceiling_plan None [] true true)
      (fun sql => _run_execute_query ext true sql (Some default_QueryJobConfig) None)
      s1.
Proof.
  intros ext s1.
  assert (Hs : _simplify_with_caching int_typing ext true over_ceiling_plan
                 initial_state = (Ok tt, s1))
    by (vm_compute; reflexivity).
  split; [reflexivity |]. split; [exact Hs |].
  apply (proj2 (proj2 (proj2 (proj2 (proj2 (proj2 (proj2 (proj2
           (@factoring_stays_within_budget int_typing ext true
              over_ceiling_plan)))))))) eq_refl initial_state s1 true [] Hs).
Defined.

(** The budget runs out on the chain of joins: five materializations,
    the plan still above the ceiling, and [execute] submits its query
    all the same. *)
Example budget_exhausted_still_executes :
  let ext := sample_externals false None (Some (table_kv 1 ["k"])) in
  let s1 := snd (_simplify_with_caching int_typing ext true over_ceiling_plan
                   initial_state) in
  let '(r, s2) := execute int_typing ext true over_ceiling_plan true [] false
                    initial_state in
  count_temp_tables (trace s1) = 5%nat /\
  planning_complexity int_typing
    (replace_nodes ext over_ceiling_plan (_cached_executions s1)) = Ok 11312359%Z /\
  (QUERY_COMPLEXITY_LIMIT <= 11312359)%Z /\
  is_ok r = true /\
  count_queries (trace s2) = 6%nat.
Proof. vm_compute. repeat split; try reflexivity; discriminate. Qed.

(* ================================================================= *)
(** * Further properties of the nodes *)

(** ** Rewriting the children *)

Lemma construct_checked env n n' :
  construct env n = Ok n' -> n' = n /\ __post_init__ env n' = Ok tt.
Proof.
  intros E. apply construct_ok in E. destruct E as [-> E].
  split; [reflexivity | exact E].
Qed.

(** X1: a successful [transform_children] returns a node whose children
    are the images of the old children, in order; a node other than a
    source has passed its construction check again; a source node, a
    cached table included, comes back unchanged whatever the function. *)
Theorem transform_children_maps_children env t n n' :
  transform_children env t n = Ok n' ->
  child_nodes n' = map t (child_nodes n) /\
  (is_source n = true -> n' = n) /\
  (is_source n = false -> __post_init__ env n' = Ok tt).
Proof.
  intros E. destruct n; simpl in E;
    try (injection E as <-; repeat split; intros; try discriminate; reflexivity);
    apply construct_checked in E; destruct E as [-> E];
    repeat split; intros; try discriminate; try exact E; reflexivity.
Qed.

Lemma transform_children_maps_children_witness :
  transform_children int_typing (fun _ => scenario_table) ordered_filter
  = Ok (OrderByNode scenario_table [mkOrderingExpression (free_var "k") true true]) /\
  child_nodes (OrderByNode scenario_table
                 [mkOrderingExpression (free_var "k") true true])
  = map (fun _ => scenario_table) (child_nodes ordered_filter).
Proof.
  assert (E : transform_children int_typing (fun _ => scenario_table) ordered_filter
              = Ok (OrderByNode scenario_table
                      [mkOrderingExpression (free_var "k") true true]))
    by reflexivity.
  split; [exact E |].
  apply (proj1 (@transform_children_maps_children int_typing
                  (fun _ => scenario_table) ordered_filter _ E)).
Defined.

(** X2: on a node that passed its construction check, rewriting the
    children with the identity gives the node back. *)
Theorem transform_children_identity env n :
  __post_init__ env n = Ok tt ->
  transform_children env (fun c => c) n = Ok n.
Proof.
  intros E. destruct n; cbn [transform_children]; try reflexivity;
    try rewrite map_id; unfold construct; rewrite E; reflexivity.
Qed.

Lemma transform_children_identity_witness :
  __post_init__ int_typing ordered_filter = Ok tt /\
  transform_children int_typing (fun c => c) ordered_filter = Ok ordered_filter.
Proof.
  split; [reflexivity |].
  apply (@transform_children_identity int_typing ordered_filter). reflexivity.
Defined.

Lemma transform_children_keeps_parameters env t n n' :
  transform_children env t n = Ok n' ->
  without_children n' = without_children n.
Proof.
  intros E. destruct n; simpl in E;
    try (injection E as <-; reflexivity);
    apply construct_checked in E; destruct E as [-> _]; reflexivity.
Qed.

(** X3: a rewriting returns a node of the class of the one it was given,
    with the same parameters, only the children being replaced; so two
    rewritings in a row amount to one rewriting with the composed
    function. *)
Theorem transform_children_compose env t1 t2 n n1 n2 :
  transform_children env t1 n = Ok n1 ->
  transform_children env t2 n1 = Ok n2 ->
  without_children n1 = without_children n /\
  without_children n2 = without_children n /\
  child_nodes n2 = map (fun c => t2 (t1 c)) (child_nodes n) /\
  transform_children env (fun c => t2 (t1 c)) n = Ok n2.
Proof.
  intros E1 E2.
  pose proof (transform_children_keeps_parameters _ _ _ E1) as K1.
  pose proof (transform_children_keeps_parameters _ _ _ E2) as K2.
  rewrite K1 in K2.
  assert (E : transform_children env (fun c => t2 (t1 c)) n = Ok n2).
  { clear K1 K2. destruct n; simpl in E1;
      try (injection E1 as <-; exact E2);
      apply construct_checked in E1; destruct E1 as [-> _];
      simpl in E2; simpl; try exact E2.
    rewrite map_map in E2. exact E2. }
  split; [exact K1 |]. split; [exact K2 |]. split; [| exact E].
  clear E1 E2 K1 K2. destruct n; simpl in E;
    try (injection E as <-; reflexivity);
    apply construct_checked in E; destruct E as [-> _]; reflexivity.
Qed.

Lemma transform_children_compose_witness :
  let by_k := [mkOrderingExpression (free_var "k") true true] in
  transform_children int_typing (fun _ => scenario_table) ordered_filter
  = Ok (OrderByNode scenario_table by_k) /\
  transform_children int_typing (fun c => FilterNode c (const 1))
    (OrderByNode scenario_table by_k)
  = Ok (OrderByNode (FilterNode scenario_table (const 1)) by_k) /\
  without_children (OrderByNode (FilterNode scenario_table (const 1)) by_k)
  = without_children ordered_filter /\
  transform_children int_typing
    (fun c => FilterNode ((fun _ => scenario_table) c) (const 1)) ordered_filter
  = Ok (OrderByNode (FilterNode scenario_table (const 1)) by_k).
Proof.
  intros by_k.
  assert (E1 : transform_children int_typing (fun _ => scenario_table) ordered_filter
               = Ok (OrderByNode scenario_table by_k)) by reflexivity.
  assert (E2 : transform_children int_typing (fun c => FilterNode c (const 1))
                 (OrderByNode scenario_table by_k)
               = Ok (OrderByNode (FilterNode scenario_table (const 1)) by_k))
    by reflexivity.
  split; [exact E1 |]. split; [exact E2 |].
  pose proof (@transform_children_compose int_typing (fun _ => scenario_table)
                (fun c => FilterNode c (const 1)) ordered_filter _ _ E1 E2)
    as (_ & K & _ & E).
  split; [exact K | exact E].
Defined.

(** ** Roots *)

Lemma In_node_set (r : BigFrameNode) (xs : list BigFrameNode) :
  In r (node_set xs) <-> In r xs.
Proof. apply nodup_In. Qed.

Lemma roots_of_source n : is_source n = true -> roots n = [n].
Proof. destruct n; simpl; intros; try discriminate; reflexivity. Qed.

Lemma roots_of_inner n r :
  is_source n = false ->
  (In r (roots n) <-> exists c, In c (child_nodes n) /\ In r (roots c)).
Proof.
  intros Hn. destruct n; simpl in *; try discriminate;
    rewrite In_node_set;
    try (split; [intros Hr; eexists; split; [left; reflexivity | exact Hr]
                | intros [c [[<- | []] Hr]]; exact Hr]).
  - rewrite in_app_iff. split.
    + intros [Hr | Hr]; eexists; split; try exact Hr; simpl; auto.
    + intros [c [[<- | [<- | []]] Hr]]; auto.
  - apply in_flat_map.
Qed.

Lemma source_has_no_children n : is_source n = true -> child_nodes n = [].
Proof. destruct n; simpl; intros; try discriminate; reflexivity. Qed.

Lemma NoDup_roots n : NoDup (roots n).
Proof.
  destruct n; simpl; try apply NoDup_nodup;
    constructor; try constructor; intros [].
Qed.

(** X4: the roots of a node are exactly the source nodes (local reads,
    table reads, cached tables) reached from it through [child_nodes],
    each listed once; the tree behind a cached table is not searched. *)
Theorem roots_are_reachable_sources n r :
  (In r (roots n) <-> is_source r = true /\ reaches n r) /\ NoDup (roots n).
Proof.
  split; [| apply NoDup_roots].
  revert r. induction n as [n IH] using child_nodes_ind. intros r.
  destruct (is_source n) eqn:Hn.
  - rewrite (@roots_of_source n Hn). simpl. split.
    + intros [<- | []]. split; [exact Hn | constructor].
    + intros [Hr Hreach]. left. inversion Hreach as [| ? c ? Hc _]; subst.
      * reflexivity.
      * rewrite (@source_has_no_children n Hn) in Hc. contradiction.
  - rewrite (@roots_of_inner n r Hn). rewrite Forall_forall in IH. split.
    + intros [c [Hc Hr]]. apply (IH c Hc) in Hr. destruct Hr as [Hs Hreach].
      split; [exact Hs | econstructor; eassumption].
    + intros [Hr Hreach]. inversion Hreach as [| ? c ? Hc Hcr]; subst.
      * congruence.
      * exists c. split; [exact Hc |]. apply (IH c Hc). split; assumption.
Qed.

(** ** Column names *)

Lemma rmap_map_eq {A B C} (f : A -> result B) (h : B -> C) (g : A -> C)
    (xs : list A) (ys : list B) :
  (forall x y, f x = Ok y -> h y = g x) ->
  rmap f xs = Ok ys -> map h ys = map g xs.
Proof.
  intros Hf. revert ys. induction xs as [|x xs IH]; simpl; intros ys E.
  - injection E as <-. reflexivity.
  - destruct (f x) as [y|] eqn:Ex; simpl in E; [| discriminate].
    destruct (rmap f xs) as [ys0|] eqn:Exs; simpl in E; [| discriminate].
    injection E as <-. simpl. rewrite (Hf x y Ex), (IH ys0 eq_refl). reflexivity.
Qed.

Lemma map_fst_enumerate_from {A} (xs : list A) (start : nat) :
  map fst (enumerate_from start xs) = seq start (List.length xs).
Proof.
  revert start. induction xs as [|x xs IH]; intros start; simpl;
    [reflexivity | rewrite IH; reflexivity].
Qed.

Lemma names_update_dtype (s : ArraySchema) (id : string) (d : Dtype) :
  names (update_dtype s id d) = names s.
Proof.
  unfold names, update_dtype. simpl. rewrite map_map. apply map_ext.
  intros it. destruct (String.eqb (column it) id) eqn:E; [| reflexivity].
  apply String.eqb_eq in E. simpl. symmetry. exact E.
Qed.

(** X5: whenever the schema of a node is defined, its column ids are
    the ones read off the tree by [column_names]; they do not depend on
    how expressions, aggregations or window operators are typed. *)
Theorem schema_names_are_structural env n :
  forall sch, schema env n = Ok sch -> names sch = column_names n.
Proof.
  induction n using BigFrameNode_tree_ind; intros sch E; simpl in E; simpl;
    try (apply IHn; exact E).
  - (* join *)
    unfold rbind in E.
    match type of E with context [rmap ?f ?l] =>
      destruct (rmap f l) as [its|] eqn:Eits; [| discriminate] end.
    injection E as <-. unfold names. simpl.
    apply (@rmap_map_eq _ _ _ _ column destination_id) in Eits; [exact Eits |].
    intros x y Hxy.
    repeat schema_step Hxy; injection Hxy as <-; reflexivity.
  - (* concat *)
    destruct cs as [|c0 cs]; [discriminate |].
    unfold rbind in E.
    destruct (schema env c0) as [s0|] eqn:E0; [| discriminate].
    injection E as <-.
    inversion H as [|? ? H0 _]; subst.
    rewrite <- (H0 _ E0). unfold names, enumerate. simpl.
    rewrite map_map.
    assert (Hlen : List.length (map column (items s0)) = List.length (dtypes s0))
      by (unfold dtypes; rewrite !length_map; reflexivity).
    rewrite Hlen. rewrite <- (map_fst_enumerate_from (dtypes s0) 0).
    rewrite map_map. apply map_ext. intros [i d]. reflexivity.
  - injection E as <-. reflexivity.
  - injection E as <-. reflexivity.
  - (* promote offsets *)
    unfold rbind in E.
    destruct (schema env n) as [s0|] eqn:E0; [| discriminate].
    injection E as <-.
    unfold names, prepend. simpl. f_equal. apply IHn. reflexivity.
  - (* projection *)
    unfold rbind in E.
    destruct (schema env n) as [s0|] eqn:E0; [| discriminate].
    match type of E with context [rmap ?f ?l] =>
      destruct (rmap f l) as [its|] eqn:Eits; [| discriminate] end.
    injection E as <-. unfold names. simpl.
    apply (@rmap_map_eq _ _ _ _ column snd) in Eits; [exact Eits |].
    intros [ex id] y Hxy.
    repeat schema_step Hxy; injection Hxy as <-; reflexivity.
  - injection E as <-. reflexivity.
  - (* aggregate *)
    unfold rbind in E.
    destruct (schema env n) as [s0|] eqn:E0; [| discriminate].
    match type of E with context [rmap ?f b] =>
      destruct (rmap f b) as [by_items|] eqn:Eby; [| discriminate] end.
    match type of E with context [rmap ?f a] =>
      destruct (rmap f a) as [agg_items|] eqn:Eagg; [| discriminate] end.
    injection E as <-.
    unfold names. simpl. rewrite map_app. f_equal.
    + apply (@rmap_map_eq _ _ _ _ column (fun id => id)) in Eby;
        [rewrite map_id in Eby; exact Eby |].
      intros x y Hxy.
      repeat schema_step Hxy; injection Hxy as <-; reflexivity.
    + apply (@rmap_map_eq _ _ _ _ column snd) in Eagg; [exact Eagg |].
      intros [agg id] y Hxy.
      repeat schema_step Hxy; injection Hxy as <-; reflexivity.
  - (* window *)
    unfold rbind in E.
    destruct (schema env n) as [s0|] eqn:E0; [| discriminate].
    destruct (get_type s0 n0) as [input_type|]; [| discriminate].
    destruct (window_output_type env o input_type) as [new_dtype|]; [| discriminate].
    rewrite <- (IHn _ eq_refl).
    destruct out as [out|].
    + destruct (str_in out (names s0)); injection E as <-.
      * apply names_update_dtype.
      * unfold names, append. simpl. rewrite map_app. reflexivity.
    + injection E as <-. apply names_update_dtype.
  - (* explode *)
    unfold rbind in E.
    destruct (schema env n) as [s0|] eqn:E0; [| discriminate].
    match type of E with context [rmap ?f ?l] =>
      destruct (rmap f l) as [its|] eqn:Eits; [| discriminate] end.
    injection E as <-.
    rewrite <- (IHn _ eq_refl). unfold names at 1. simpl.
    apply (@rmap_map_eq _ _ _ _ column (fun name => name)) in Eits;
      [rewrite map_id in Eits; exact Eits |].
    intros x y Hxy.
    repeat schema_step Hxy; injection Hxy as <-; reflexivity.
  - (* selection *)
    unfold rbind in E.
    destruct (schema env n) as [s0|] eqn:E0; [| discriminate].
    match type of E with context [rmap ?f ?l] =>
      destruct (rmap f l) as [its|] eqn:Eits; [| discriminate] end.
    injection E as <-. unfold names. simpl.
    apply (@rmap_map_eq _ _ _ _ column snd) in Eits; [exact Eits |].
    intros [i o] y Hxy.
    repeat schema_step Hxy; injection Hxy as <-; reflexivity.
Qed.

Lemma schema_names_are_structural_witness :
  schema int_typing scenario_aggregate
  = Ok (mkArraySchema [mkSchemaItem "k" INT_DTYPE; mkSchemaItem "total" INT_DTYPE]) /\
  names (mkArraySchema [mkSchemaItem "k" INT_DTYPE; mkSchemaItem "total" INT_DTYPE])
  = column_names scenario_aggregate.
Proof.
  split; [reflexivity |].
  apply (@schema_names_are_structural int_typing scenario_aggregate). reflexivity.
Defined.

(** ** What a successful construction guarantees *)

Lemma post_init_of_construct env n n' :
  construct env n = Ok n' -> n' = n /\ __post_init__ env n = Ok tt.
Proof. apply construct_ok. Qed.

Lemma map_snd_enumerate_from {A} (xs : list A) (start : nat) :
  map snd (enumerate_from start xs) = xs.
Proof.
  revert start. induction xs as [|x xs IH]; intros start; simpl;
    [reflexivity | rewrite IH; reflexivity].
Qed.

Lemma concat_schema_of_first env c0 cs s0 :
  schema env c0 = Ok s0 ->
  exists sch,
    schema env (ConcatNode (c0 :: cs)) = Ok sch /\
    dtypes sch = dtypes s0 /\
    names sch = map (fun i => ("column_" ++ str_of_nat i)%string)
                    (seq 0 (List.length (dtypes s0))).
Proof.
  intros E0. simpl. rewrite E0. simpl. eexists. split; [reflexivity |]. split.
  - unfold dtypes at 1. simpl. rewrite map_map.
    rewrite <- (map_snd_enumerate_from (dtypes s0) 0) at 2.
    unfold enumerate. apply map_ext. intros [i d]. reflexivity.
  - unfold names. simpl. rewrite map_map.
    rewrite <- (map_fst_enumerate_from (dtypes s0) 0). rewrite map_map.
    unfold enumerate. apply map_ext. intros [i d]. reflexivity.
Qed.

(** X6: a concat that was constructed has at least one child, every
    child has a schema, and the dtypes of every child, position by
    position, are the dtypes of the concat's own schema. *)
Theorem constructed_concat_children_agree env children n :
  construct env (ConcatNode children) = Ok n ->
  children <> [] /\
  exists sch,
    schema env n = Ok sch /\
    forall child, In child children ->
      exists s, schema env child = Ok s /\ dtypes s = dtypes sch.
Proof.
  intros E. apply post_init_of_construct in E. destruct E as [-> E].
  simpl in E. unfold ConcatNode__post_init__ in E.
  destruct children as [|c0 cs]; [discriminate |].
  change (len (c0 :: cs) =? 0)%Z with false in E. cbn iota in E.
  destruct (rmap (fun child => s <- schema env child ;; Ok (dtypes s)) (c0 :: cs))
    as [child_schemas|] eqn:Er; [| discriminate].
  cbn [rbind] in E.
  destruct (List.length (nodup dtypes_eq_dec child_schemas) =? 1)%nat eqn:Elen;
    [| discriminate].
  apply Nat.eqb_eq in Elen.
  split; [discriminate |].
  destruct (@rmap_ok_in _ _ _ _ _ Er c0 (or_introl eq_refl)) as [d0 [E0 Hd0]].
  destruct (schema env c0) as [s0|] eqn:Es0; [| discriminate].
  simpl in E0. injection E0 as <-.
  destruct (@concat_schema_of_first env c0 cs s0 Es0) as (sch & Hsch & Hd & _).
  exists sch. split; [exact Hsch |].
  intros child Hin.
  destruct (@rmap_ok_in _ _ _ _ _ Er child Hin) as [d [Ec Hdin]].
  destruct (schema env child) as [s|] eqn:Es; [| discriminate].
  simpl in Ec. injection Ec as <-.
  exists s. split; [reflexivity |]. rewrite Hd.
  apply (@nodup_singleton_all_equal _ dtypes_eq_dec child_schemas); assumption.
Qed.

Lemma constructed_concat_children_agree_witness :
  construct int_typing renamed_concat = Ok renamed_concat /\
  child_nodes renamed_concat <> [] /\
  exists sch,
    schema int_typing renamed_concat = Ok sch /\
    forall child, In child (child_nodes renamed_concat) ->
      exists s, schema int_typing child = Ok s /\ dtypes s = dtypes sch.
Proof.
  split; [reflexivity |].
  apply (@constructed_concat_children_agree int_typing
           (child_nodes renamed_concat) renamed_concat).
  reflexivity.
Defined.

Lemma str_of_nat_inj (n m : nat) : str_of_nat n = str_of_nat m -> n = m.
Proof.
  unfold str_of_nat. intros E.
  assert (Hnn : forall k, Nat.to_uint k <> Decimal.Nil).
  { intros k. rewrite <- (DecimalNat.Unsigned.of_to k) at 1.
    rewrite DecimalNat.Unsigned.to_of. unfold Decimal.unorm.
    destruct (Decimal.nzhead (Nat.to_uint k)); discriminate. }
  apply (f_equal NilZero.uint_of_string) in E.
  rewrite !NilZero.usu in E by apply Hnn.
  injection E as E. apply DecimalNat.Unsigned.to_uint_inj. exact E.
Qed.

(** X7: the column ids of a concat's schema are pairwise distinct. *)
Theorem concat_schema_names_distinct env children sch :
  schema env (ConcatNode children) = Ok sch -> NoDup (names sch).
Proof.
  intros E. destruct children as [|c0 cs]; [discriminate |].
  destruct (schema env c0) as [s0|] eqn:E0;
    [| simpl in E; rewrite E0 in E; discriminate].
  destruct (@concat_schema_of_first env c0 cs s0 E0) as (sch' & Hsch & _ & Hn).
  rewrite Hsch in E. injection E as <-. rewrite Hn.
  apply Injective_map_NoDup; [| apply seq_NoDup].
  intros i j Hij. apply str_of_nat_inj.
  simpl in Hij. congruence.
Qed.

Lemma concat_schema_names_distinct_witness :
  schema int_typing renamed_concat
  = Ok (mkArraySchema [mkSchemaItem "column_0" INT_DTYPE;
                       mkSchemaItem "column_1" STRING_DTYPE]) /\
  NoDup (names (mkArraySchema [mkSchemaItem "column_0" INT_DTYPE;
                               mkSchemaItem "column_1" STRING_DTYPE])).
Proof.
  split; [reflexivity |].
  apply (@concat_schema_names_distinct int_typing (child_nodes renamed_concat)).
  reflexivity.
Defined.

(** X8: an order-by that was constructed sorts by bound columns only:
    the child has a schema and every variable of every sort expression
    is one of its column ids. *)
Theorem constructed_order_by_is_bound env child by_ n :
  construct env (OrderByNode child by_) = Ok n ->
  exists s,
    schema env child = Ok s /\
    forall order_expr variable,
      In order_expr by_ ->
      In variable (unbound_variables (scalar_expression order_expr)) ->
      In variable (names s).
Proof.
  intros E. apply post_init_of_construct in E. destruct E as [_ E].
  simpl in E. unfold OrderByNode__post_init__ in E.
  destruct (schema env child) as [s|] eqn:Es; [| discriminate].
  cbn [rbind] in E. exists s. split; [reflexivity |].
  intros order_expr variable Hoe Hv.
  match type of E with context [find ?f ?l] =>
    destruct (find f l) eqn:Ef; [discriminate |];
    assert (Hin : In variable l)
      by (apply in_flat_map; exists order_expr; split; assumption);
    pose proof (@find_none _ _ _ Ef _ Hin) as Hf end.
  simpl in Hf. apply negb_false_iff in Hf. apply str_in_iff. exact Hf.
Qed.

Lemma constructed_order_by_is_bound_witness :
  construct int_typing ordered_filter = Ok ordered_filter /\
  exists s,
    schema int_typing scenario_filter = Ok s /\
    forall order_expr variable,
      In order_expr [mkOrderingExpression (free_var "k") true true] ->
      In variable (unbound_variables (scalar_expression order_expr)) ->
      In variable (names s).
Proof.
  split; [reflexivity |].
  apply (@constructed_order_by_is_bound int_typing scenario_filter
           [mkOrderingExpression (free_var "k") true true] ordered_filter).
  reflexivity.
Defined.

(** X9: a table read that was constructed requests physical columns
    only, and one declared sequential has exactly one total-order column
    and is therefore not order-ambiguous. *)
Theorem constructed_read_table_is_consistent env p d t physical_schema columns s
    total_order_cols order_col_is_sequential a sp n :
  construct env (ReadTableNode p d t physical_schema columns s total_order_cols
                   order_col_is_sequential a sp) = Ok n ->
  incl (names columns) (map name physical_schema) /\
  (order_col_is_sequential = true ->
   List.length total_order_cols = 1%nat /\ order_ambiguous n = Ok false).
Proof.
  intros E. apply post_init_of_construct in E. destruct E as [-> E].
  simpl in E. unfold ReadTableNode__post_init__ in E.
  destruct (issubset (names columns) (map name physical_schema)) eqn:Esub;
    [| discriminate].
  simpl in E. split; [apply issubset_iff; exact Esub |].
  intros ->. simpl in E.
  destruct (len total_order_cols =? 1)%Z eqn:Elen; [| discriminate].
  apply Z.eqb_eq in Elen. unfold len in Elen.
  assert (Hl : List.length total_order_cols = 1%nat) by lia.
  split; [exact Hl |]. simpl. unfold len. rewrite Hl. reflexivity.
Qed.

Lemma constructed_read_table_is_consistent_witness :
  construct int_typing sequential_table = Ok sequential_table /\
  incl ["k"; "v"] ["k"; "v"] /\
  (true = true ->
   List.length ["k"] = 1%nat /\ order_ambiguous sequential_table = Ok false).
Proof.
  split; [reflexivity |].
  apply (@constructed_read_table_is_consistent int_typing "project" "dataset" "table"
           [mkSchemaField "k" "INTEGER"; mkSchemaField "v" "INTEGER"]
           (mkArraySchema [mkSchemaItem "k" INT_DTYPE; mkSchemaItem "v" INT_DTYPE])
           1%nat ["k"] true None None sequential_table).
  reflexivity.
Defined.

(** X10: a cached table that was constructed has all its logical
    columns and all its hidden columns in the physical table; the hidden
    columns are none of the logical ones; so every column its ordering
    refers to is a physical column. *)
Theorem constructed_cached_table_is_physical env o p d t physical_schema ordering n :
  construct env (CachedTableNode o p d t physical_schema ordering) = Ok n ->
  exists s hidden,
    schema env o = Ok s /\
    hidden_columns env o ordering = Ok hidden /\
    incl (names s) (map name physical_schema) /\
    incl hidden (map name physical_schema) /\
    (forall col, In col hidden -> ~ In col (names s)) /\
    (forall ord col, ordering = Some ord -> In col (referenced_columns ord) ->
                     In col (map name physical_schema)).
Proof.
  intros E. apply post_init_of_construct in E. destruct E as [_ E].
  simpl in E. unfold CachedTableNode__post_init__ in E.
  destruct (schema env o) as [s|] eqn:Es; [| discriminate].
  cbn [rbind] in E.
  destruct (issubset (names s) (map name physical_schema)) eqn:Elog;
    [| discriminate].
  simpl in E.
  destruct (hidden_columns env o ordering) as [hidden|] eqn:Eh; [| discriminate].
  cbn [rbind] in E.
  destruct (issubset hidden (map name physical_schema)) eqn:Ehid; [| discriminate].
  apply issubset_iff in Elog. apply issubset_iff in Ehid.
  exists s, hidden. repeat split; try assumption.
  - intros col Hcol Hname. unfold hidden_columns in Eh.
    destruct ordering as [ord|].
    + rewrite Es in Eh. simpl in Eh. injection Eh as <-.
      apply filter_In in Hcol. destruct Hcol as [_ Hf].
      apply negb_true_iff in Hf. apply str_in_iff in Hname. congruence.
    + injection Eh as <-. contradiction.
  - intros ord col -> Hcol. unfold hidden_columns in Eh. rewrite Es in Eh.
    simpl in Eh. injection Eh as <-.
    destruct (str_in col (names s)) eqn:Ein.
    + apply Elog. apply str_in_iff. exact Ein.
    + apply Ehid. apply filter_In. split; [apply In_sorted; exact Hcol |].
      rewrite Ein. reflexivity.
Qed.

Lemma constructed_cached_table_is_physical_witness :
  construct int_typing cached_scenario = Ok cached_scenario /\
  exists s hidden,
    schema int_typing scenario_table = Ok s /\
    hidden_columns int_typing scenario_table
      (Some (TotalOrdering_from_offset_col "col_1")) = Ok hidden /\
    incl (names s) ["k"; "v"; "col_1"] /\
    incl hidden ["k"; "v"; "col_1"] /\
    (forall col, In col hidden -> ~ In col (names s)) /\
    (forall ord col, Some (TotalOrdering_from_offset_col "col_1") = Some ord ->
                     In col (referenced_columns ord) ->
                     In col ["k"; "v"; "col_1"]).
Proof.
  split; [reflexivity |].
  apply (@constructed_cached_table_is_physical int_typing scenario_table
           "project" "dataset" "temp"
           [mkSchemaField "k" "INTEGER"; mkSchemaField "v" "INTEGER";
            mkSchemaField "col_1" "INTEGER"]
           (Some (TotalOrdering_from_offset_col "col_1")) cached_scenario).
  reflexivity.
Defined.

(** ** Complexity of markers and of cached tables *)

Lemma total_variables_unary env n c v :
  child_nodes n = [c] ->
  variables_introduced env n = Ok v ->
  total_variables env n = (t <- total_variables env c ;; Ok (v + t)%Z).
Proof.
  intros Hc Hv. rewrite total_variables_unfold, Hc, Hv.
  unfold sum. cbn [rmap rbind].
  destruct (total_variables env c) as [t|]; cbn [rbind fold_right]; [| reflexivity].
  f_equal. ring.
Qed.

Lemma planning_complexity_unary env n c :
  child_nodes n = [c] ->
  variables_introduced env n = Ok 0%Z ->
  relation_ops_created env n = 0%Z ->
  joins n = false ->
  planning_complexity env n = planning_complexity env c.
Proof.
  intros Hc Hv Hops Hj. unfold planning_complexity.
  rewrite (@total_variables_unary env n c 0%Z Hc Hv).
  rewrite (total_relational_ops_unfold env n), (total_joins_unfold n).
  rewrite Hc, Hops, Hj. unfold int_of_bool, sum. cbn [map fold_right].
  destruct (total_variables env c) as [t|]; cbn [rbind]; [| reflexivity].
  f_equal. ring.
Qed.

(** X11: the markers that generate no relational operation of their
    own (order-by, reversal, reprojection) leave the planning complexity
    of what they wrap unchanged, errors included. *)
Theorem markers_cost_nothing env c by_ reversed :
  planning_complexity env (OrderByNode c by_) = planning_complexity env c /\
  planning_complexity env (ReversedNode c reversed) = planning_complexity env c /\
  planning_complexity env (ReprojectOpNode c) = planning_complexity env c.
Proof.
  repeat split; apply planning_complexity_unary; reflexivity.
Qed.

(** X12: the planning complexity of a cached table is the number of
    columns of the tree it replaced plus the fixed overhead, one
    relational operation and no join, however complex that tree is. *)
Theorem cached_table_complexity env o p d t physical_schema ordering s :
  schema env o = Ok s ->
  let cached := CachedTableNode o p d t physical_schema ordering in
  total_variables env cached = Ok (len (items s) + OVERHEAD_VARIABLES)%Z /\
  total_relational_ops env cached = 1%Z /\
  total_joins cached = 0%Z /\
  planning_complexity env cached = Ok (len (items s) + 5)%Z.
Proof.
  intros Es cached.
  assert (Hv : total_variables env cached
               = Ok (len (items s) + OVERHEAD_VARIABLES)%Z).
  { rewrite total_variables_unfold. simpl. rewrite Es. simpl. f_equal. lia. }
  split; [exact Hv |]. split; [reflexivity |]. split; [reflexivity |].
  unfold planning_complexity. rewrite Hv. cbn [rbind].
  change (total_relational_ops env cached) with 1%Z.
  change (total_joins cached) with 0%Z.
  unfold OVERHEAD_VARIABLES. f_equal. lia.
Qed.

Lemma cached_table_complexity_witness :
  schema int_typing over_ceiling_plan = Ok (mkArraySchema []) /\
  planning_complexity int_typing over_ceiling_plan = Ok 11312359%Z /\
  planning_complexity int_typing
    (CachedTableNode over_ceiling_plan "project" "dataset" "temp" [] None)
  = Ok (len (items (mkArraySchema [])) + 5)%Z.
Proof.
  assert (Es : schema int_typing over_ceiling_plan = Ok (mkArraySchema []))
    by reflexivity.
  split; [exact Es |]. split; [vm_compute; reflexivity |].
  apply (@cached_table_complexity int_typing over_ceiling_plan
           "project" "dataset" "temp" [] None (mkArraySchema []) Es).
Defined.

(** ** Schemas that raise *)

Lemma rmap_raises_at {A B} (f : A -> result B) (xs : list A) (x : A) :
  In x xs -> raises (f x) -> raises (rmap f xs).
Proof.
  induction xs as [|x0 xs IH]; simpl; intros Hin Hx; [contradiction |].
  destruct (f x0) as [y0|e0] eqn:E0; [| exists e0; reflexivity].
  simpl. destruct Hin as [-> | Hin].
  - destruct Hx as [e He]. congruence.
  - destruct (IH Hin Hx) as [e ->]. exists e. reflexivity.
Qed.

Lemma lookup_absent (its : list SchemaItem) (id : string) :
  ~ In id (map column its) -> lookup its id = Raise (KeyError id).
Proof.
  induction its as [|it its IH]; simpl; intros Hn; [reflexivity |].
  destruct (String.eqb (column it) id) eqn:E.
  - apply String.eqb_eq in E. exfalso. apply Hn. left. exact E.
  - apply IH. intros Hin. apply Hn. right. exact Hin.
Qed.

(** X13: the schema of a join raises as soon as one mapping names a
    source column that the schema of its side does not have; nothing
    checks this when the join is constructed. *)
Theorem join_schema_unknown_source_raises env l r j mapping side_schema :
  In mapping (mappings j) ->
  schema env (match source_table mapping with LEFT => l | RIGHT => r end)
  = Ok side_schema ->
  ~ In (source_id mapping) (names side_schema) ->
  construct env (JoinNode l r j) = Ok (JoinNode l r j) /\
  raises (schema env (JoinNode l r j)).
Proof.
  intros Hin Hside Hmissing. split; [reflexivity |].
  simpl. apply raises_bind.
  apply (@rmap_raises_at _ _ _ (mappings j) mapping Hin).
  assert (Hs : match source_table mapping with
               | LEFT => schema env l
               | RIGHT => schema env r
               end = Ok side_schema)
    by (destruct (source_table mapping); exact Hside).
  rewrite Hs. cbn [rbind]. unfold get_type.
  rewrite (@lookup_absent (items side_schema) (source_id mapping) Hmissing).
  eexists. reflexivity.
Qed.

Lemma join_schema_unknown_source_raises_witness :
  In (mkJoinColumnMapping RIGHT "w" "w2")
     [mkJoinColumnMapping LEFT "k" "k"; mkJoinColumnMapping RIGHT "w" "w2"] /\
  schema int_typing (table_kv 1 ["k"])
  = Ok (mkArraySchema [mkSchemaItem "k" INT_DTYPE; mkSchemaItem "v" INT_DTYPE]) /\
  ~ In "w" ["k"; "v"] /\
  construct int_typing join_unknown_source = Ok join_unknown_source /\
  raises (schema int_typing join_unknown_source).
Proof.
  assert (Hin : In (mkJoinColumnMapping RIGHT "w" "w2")
                   [mkJoinColumnMapping LEFT "k" "k";
                    mkJoinColumnMapping RIGHT "w" "w2"])
    by (right; left; reflexivity).
  assert (Hno : ~ In "w" ["k"; "v"])
    by (intros [H | [H | []]]; discriminate).
  split; [exact Hin |]. split; [reflexivity |]. split; [exact Hno |].
  apply (@join_schema_unknown_source_raises int_typing
           (table_kv 1 ["k"]) (table_kv 1 ["k"])
           (mkJoinDefinition [("k", "k")]
              [mkJoinColumnMapping LEFT "k" "k"; mkJoinColumnMapping RIGHT "w" "w2"]
              "inner")
           (mkJoinColumnMapping RIGHT "w" "w2")
           (mkArraySchema [mkSchemaItem "k" INT_DTYPE; mkSchemaItem "v" INT_DTYPE])
           Hin eq_refl Hno).
Defined.

Lemma rmap_Forall2 {A B} (f : A -> result B) (R : A -> B -> Prop) (xs : list A) :
  (forall x y, In x xs -> f x = Ok y -> R x y) ->
  forall ys, rmap f xs = Ok ys -> Forall2 R xs ys.
Proof.
  induction xs as [|x xs IH]; simpl; intros Hf ys E.
  - injection E as <-. constructor.
  - destruct (f x) as [y|] eqn:Ex; simpl in E; [| discriminate].
    destruct (rmap f xs) as [ys0|] eqn:Exs; simpl in E; [| discriminate].
    injection E as <-. constructor.
    + apply Hf; [left; reflexivity | exact Ex].
    + apply IH; [| reflexivity]. intros x' y' Hin. apply Hf. right. exact Hin.
Qed.

(** X14: an explode keeps the columns of its child in number, name and
    order; a column that is named in [column_ids] gets the element type
    of its array type, every other column keeps its type; and naming a
    column whose type is not an array makes the schema raise. *)
Theorem explode_rewrites_named_columns env c column_ids s :
  schema env c = Ok s ->
  (forall sch,
      schema env (ExplodeNode c column_ids) = Ok sch ->
      Forall2 (fun name item =>
                 column item = name /\
                 exists d, get_type s name = Ok d /\
                           if str_in name column_ids
                           then d = ARRAY_DTYPE (dtype item)
                           else dtype item = d)
              (names s) (items sch)) /\
  (forall name d,
      In name (names s) -> In name column_ids ->
      get_type s name = Ok d -> (forall v, d <> ARRAY_DTYPE v) ->
      raises (schema env (ExplodeNode c column_ids))).
Proof.
  intros Es. split.
  - intros sch E. simpl in E. rewrite Es in E. cbn [rbind] in E.
    match type of E with context [rmap ?f ?l] =>
      destruct (rmap f l) as [its|] eqn:Eits; [| discriminate] end.
    injection E as <-. simpl.
    revert Eits. apply rmap_Forall2.
    intros name item _ Hitem.
    destruct (str_in name column_ids) eqn:Ein;
      destruct (get_type s name) as [d|] eqn:Ed; simpl in Hitem; try discriminate.
    + destruct d; simpl in Hitem; try discriminate.
      injection Hitem as <-. simpl. split; [reflexivity |].
      eexists. split; reflexivity.
    + injection Hitem as <-. simpl. split; [reflexivity |].
      eexists. split; reflexivity.
  - intros name d Hname Hids Hd Hnot. simpl. rewrite Es. cbn [rbind].
    apply raises_bind. apply (@rmap_raises_at _ _ _ (names s) name Hname).
    apply str_in_iff in Hids. rewrite Hids, Hd. cbn [rbind].
    destruct d; simpl; try (eexists; reflexivity).
    exfalso. apply (Hnot d). reflexivity.
Qed.

Lemma explode_rewrites_named_columns_witness :
  schema int_typing local_with_array
  = Ok (mkArraySchema [mkSchemaItem "xs" (ARRAY_DTYPE INT_DTYPE);
                       mkSchemaItem "y" STRING_DTYPE]) /\
  schema int_typing (ExplodeNode local_with_array ["xs"])
  = Ok (mkArraySchema [mkSchemaItem "xs" INT_DTYPE; mkSchemaItem "y" STRING_DTYPE]) /\
  raises (schema int_typing (ExplodeNode local_with_array ["y"])).
Proof.
  split; [reflexivity |]. split; [reflexivity |].
  apply (proj2 (@explode_rewrites_named_columns int_typing local_with_array ["y"]
                  (mkArraySchema [mkSchemaItem "xs" (ARRAY_DTYPE INT_DTYPE);
                                  mkSchemaItem "y" STRING_DTYPE]) eq_refl)
           "y" STRING_DTYPE).
  - right. left. reflexivity.
  - left. reflexivity.
  - reflexivity.
  - intros v. discriminate.
Defined.

(* ================================================================= *)
(** * Further properties of the executor *)

(** ** Running a query *)

Lemma run_execute_query_state ext strictly_ordered sql job_config api_name s :
  exists submitted,
    snd (_run_execute_query ext strictly_ordered sql job_config api_name s)
    = mkState (_cached_executions s) (guid_counter s)
              (EvQuery sql submitted :: trace s) /\
    forall x, bq_query ext sql submitted = Ok x ->
              fst (_run_execute_query ext strictly_ordered sql job_config api_name s)
              = Ok x.
Proof.
  unfold _run_execute_query, bind, emit.
  match goal with |- context [EvQuery sql ?c] => set (cfg := c) end.
  exists cfg.
  destruct (bq_query ext sql cfg) as [x|e] eqn:Eq.
  - split; [reflexivity |]. intros x' [= <-]. reflexivity.
  - split; [| discriminate].
    destruct e; try reflexivity.
    destruct (contains "Resources exceeded during query execution" msg);
      reflexivity.
Qed.

(** X15: [_run_execute_query] submits exactly one query and touches
    neither the cache nor the guid counter; outside strict mode the
    submitted configuration carries the label bigframes-mode=unordered;
    the rows of the client are returned as they are; a [BadRequest]
    whose message contains "Resources exceeded during query execution"
    becomes a [QueryComplexityError]; every other exception of the client
    comes out unchanged. *)
Theorem run_execute_query_outcome ext strictly_ordered sql job_config api_name s :
  exists submitted,
    let '(r, s') := _run_execute_query ext strictly_ordered sql job_config api_name s in
    s' = mkState (_cached_executions s) (guid_counter s)
                 (EvQuery sql submitted :: trace s) /\
    (strictly_ordered = false ->
     In ("bigframes-mode", "unordered") (labels submitted)) /\
    (forall x, bq_query ext sql submitted = Ok x -> r = Ok x) /\
    (forall e, bq_query ext sql submitted = Raise e ->
               (forall m, e = BadRequest m -> contains resources_exceeded m = false) ->
               r = Raise e) /\
    (forall m, bq_query ext sql submitted = Raise (BadRequest m) ->
               contains resources_exceeded m = true ->
               exists msg, r = Raise (QueryComplexityError msg)).
Proof.
  unfold _run_execute_query, bind, emit.
  match goal with |- context [EvQuery sql ?c] => set (cfg := c) end.
  exists cfg.
  assert (Hlabel : strictly_ordered = false ->
                   In ("bigframes-mode", "unordered") (labels cfg)).
  { intros ->. subst cfg. simpl. left. reflexivity. }
  destruct (bq_query ext sql cfg) as [x|e] eqn:Eq.
  - unfold ret. repeat split; try assumption; try discriminate.
    intros x' [= <-]. reflexivity.
  - destruct e as [m|m|k| | |nm| |m|m];
      try (unfold throw; repeat split; try assumption; try discriminate;
           intros e' [= <-] _; reflexivity).
    fold resources_exceeded.
    destruct (contains resources_exceeded m) eqn:Ec; unfold throw;
      repeat split; try assumption; try discriminate.
    + intros e' [= <-] Hno. specialize (Hno m eq_refl). congruence.
    + intros m' [= <-] _. eexists. reflexivity.
    + intros e' [= <-] _. reflexivity.
    + intros m' [= <-] Hyes. congruence.
Qed.

Lemma run_execute_query_outcome_witness :
  bq_query overloaded_externals "SELECT 1"
    (mkQueryJobConfig None None [("bigframes-mode", "unordered")])
  = Raise (BadRequest "400 Resources exceeded during query execution: too big") /\
  contains resources_exceeded
    "400 Resources exceeded during query execution: too big" = true /\
  exists msg,
    fst (_run_execute_query overloaded_externals false "SELECT 1" None None
           initial_state)
    = Raise (QueryComplexityError msg).
Proof.
  split; [reflexivity |]. split; [reflexivity |].
  destruct (@run_execute_query_outcome overloaded_externals false "SELECT 1"
              None None initial_state) as [submitted Hs].
  destruct (_run_execute_query overloaded_externals false "SELECT 1" None None
              initial_state) as [r s'] eqn:E.
  destruct Hs as (_ & _ & _ & _ & Hmap).
  apply (Hmap "400 Resources exceeded during query execution: too big");
    reflexivity.
Defined.

(** X16: with more than [_MAX_CLUSTER_COLUMNS] = 4 cluster columns
    [_sql_as_cached_temp_table] raises an [AssertionError] before
    anything happened; otherwise the temporary table is created first,
    then exactly one query runs with api name "cached" and that table as
    its destination, and the destination of the finished job is
    returned. *)
Theorem sql_as_cached_temp_table_bounds ext strictly_ordered sql schema cluster_cols s :
  ((4 < len cluster_cols)%Z ->
   _sql_as_cached_temp_table ext strictly_ordered sql schema cluster_cols s
   = (Raise AssertionError, s)) /\
  ((len cluster_cols <= 4)%Z ->
   let temp_table := create_temp_table ext schema cluster_cols in
   _sql_as_cached_temp_table ext strictly_ordered sql schema cluster_cols s
   = bind (_run_execute_query ext strictly_ordered sql
             (Some (mkQueryJobConfig (Some temp_table) None [])) (Some "cached"))
       (fun r => ret (job_destination (snd r)))
       (mkState (_cached_executions s) (guid_counter s)
                (EvCreateTempTable schema cluster_cols :: trace s))).
Proof.
  unfold _sql_as_cached_temp_table, _MAX_CLUSTER_COLUMNS. split; intros Hlen.
  - apply Z.leb_gt in Hlen. unfold bind at 1. unfold assert. rewrite Hlen.
    reflexivity.
  - apply Z.leb_le in Hlen. unfold bind at 1. unfold assert. rewrite Hlen.
    reflexivity.
Qed.

Lemma sql_as_cached_temp_table_bounds_witness :
  (4 < len ["a"; "b"; "c"; "d"; "e"])%Z /\
  _sql_as_cached_temp_table (sample_externals false None None) true "SELECT 1" []
    ["a"; "b"; "c"; "d"; "e"] initial_state
  = (Raise AssertionError, initial_state).
Proof.
  assert (Hlen : (4 < len ["a"; "b"; "c"; "d"; "e"])%Z) by reflexivity.
  split; [exact Hlen |].
  apply (proj1 (@sql_as_cached_temp_table_bounds (sample_externals false None None)
                  true "SELECT 1" [] ["a"; "b"; "c"; "d"; "e"] initial_state) Hlen).
Defined.

(** ** Reading without materializing *)

Lemma run_execute_query_keeps_cache ext strictly_ordered sql job_config api_name :
  keeps_cache (_run_execute_query ext strictly_ordered sql job_config api_name).
Proof.
  intros s.
  destruct (@run_execute_query_state ext strictly_ordered sql job_config
              api_name s) as [submitted [Hs _]].
  rewrite Hs. reflexivity.
Qed.

Lemma keeps_cache_bind {A B} (m : Exec A) (k : A -> Exec B) :
  keeps_cache m -> (forall a, keeps_cache (k a)) -> keeps_cache (bind m k).
Proof.
  intros Hm Hk s. unfold bind. specialize (Hm s).
  destruct (m s) as [[a|e] s1]; simpl in *.
  - rewrite (Hk a s1). exact Hm.
  - exact Hm.
Qed.

Lemma to_sql_keeps_cache ext node offset_column col_id_overrides ordered enable_cache :
  keeps_cache (to_sql ext node offset_column col_id_overrides ordered enable_cache).
Proof.
  unfold to_sql. apply keeps_cache_bind.
  - destruct offset_column as [[|a oc]|]; intros s; reflexivity.
  - intros [n overrides]. apply keeps_cache_bind.
    + destruct enable_cache; intros s; reflexivity.
    + intros plan. destruct ordered; intros s; reflexivity.
Qed.

Lemma effects_to_sql ext node offset_column col_id_overrides ordered enable_cache :
  effects_within (to_sql ext node offset_column col_id_overrides ordered enable_cache)
                 0 0.
Proof.
  apply effects_silent. intros s. unfold to_sql, bind.
  destruct offset_column as [[|a oc]|]; simpl;
    destruct enable_cache; destruct ordered; reflexivity.
Qed.

Lemma peek_keeps_cache ext strictly_ordered node n :
  keeps_cache (peek ext strictly_ordered node n).
Proof.
  unfold peek. apply keeps_cache_bind; [intros s; reflexivity |].
  intros plan. apply keeps_cache_bind.
  - destruct (can_fast_peek ext plan); intros s; reflexivity.
  - intros _. apply run_execute_query_keeps_cache.
Qed.

Lemma get_row_count_keeps_cache ext strictly_ordered node :
  keeps_cache (get_row_count ext strictly_ordered node).
Proof.
  unfold get_row_count. apply keeps_cache_bind; [intros s; reflexivity |].
  intros [c|]; [intros s; reflexivity |].
  apply keeps_cache_bind; [intros s; reflexivity |].
  intros plan. apply keeps_cache_bind; [apply run_execute_query_keeps_cache |].
  intros [[|[|v row] rows] job]; intros s; reflexivity.
Qed.

Lemma effects_peek ext strictly_ordered node n :
  effects_within (peek ext strictly_ordered node n) 1 0.
Proof.
  unfold peek.
  apply (@effects_bind _ _ _ _ 0 0 1 0); [apply effects_get_optimized_plan |].
  intros plan. apply (@effects_bind _ _ _ _ 0 0 1 0).
  - destruct (can_fast_peek ext plan); simpl.
    + apply effects_ret.
    + intros s. exists [EvWarn "Peeking this value cannot be done efficiently."].
      split; [reflexivity | split; count_events].
  - intros _. apply effects_run_execute_query.
Qed.

Lemma effects_get_row_count ext strictly_ordered node :
  effects_within (get_row_count ext strictly_ordered node) 1 0.
Proof.
  unfold get_row_count.
  apply (@effects_bind _ _ _ _ 0 0 1 0).
  - apply effects_silent. reflexivity.
  - intros [c|].
    + apply (@effects_weaken _ _ 0 0); [apply effects_ret | lia | lia].
    + apply (@effects_bind _ _ _ _ 0 0 1 0); [apply effects_get_optimized_plan |].
      intros plan. apply (@effects_bind _ _ _ _ 1 0 0 0).
      * apply effects_run_execute_query.
      * intros [[|[|v row] rows] job];
          first [apply effects_ret | apply effects_throw].
Qed.

(** X17: [to_sql], [peek] and [get_row_count] never write the cache;
    [to_sql] submits nothing at all, [peek] and [get_row_count] at most
    one query and no temporary table. *)
Theorem reads_leave_the_cache_alone ext strictly_ordered node n
    offset_column col_id_overrides ordered enable_cache :
  keeps_cache (to_sql ext node offset_column col_id_overrides ordered enable_cache) /\
  effects_within (to_sql ext node offset_column col_id_overrides ordered enable_cache)
                 0 0 /\
  keeps_cache (peek ext strictly_ordered node n) /\
  effects_within (peek ext strictly_ordered node n) 1 0 /\
  keeps_cache (get_row_count ext strictly_ordered node) /\
  effects_within (get_row_count ext strictly_ordered node) 1 0.
Proof.
  split; [apply to_sql_keeps_cache |]. split; [apply effects_to_sql |].
  split; [apply peek_keeps_cache |]. split; [apply effects_peek |].
  split; [apply get_row_count_keeps_cache | apply effects_get_row_count].
Qed.

Lemma run_execute_query_result_ignores_state ext strictly_ordered sql job_config
    api_name s1 s2 :
  fst (_run_execute_query ext strictly_ordered sql job_config api_name s1)
  = fst (_run_execute_query ext strictly_ordered sql job_config api_name s2).
Proof.
  unfold _run_execute_query, bind, emit.
  match goal with |- context [bq_query ext sql ?c] =>
    destruct (bq_query ext sql c) as [x|e] end; [reflexivity |].
  destruct e; try reflexivity.
  destruct (contains "Resources exceeded during query execution" msg); reflexivity.
Qed.

(** X18: [peek] answers exactly what running the peek query of the
    optimized plan answers, whether or not the plan supports a fast peek;
    the only difference is a warning recorded before the query. *)
Theorem peek_warns_but_answers ext strictly_ordered node n s :
  let plan := replace_nodes ext node (_cached_executions s) in
  let sql := compile_peek ext plan n in
  fst (peek ext strictly_ordered node n s)
  = fst (_run_execute_query ext strictly_ordered sql None None s) /\
  exists submitted,
    trace (snd (peek ext strictly_ordered node n s))
    = EvQuery sql submitted
      :: (if can_fast_peek ext plan
          then []
          else [EvWarn "Peeking this value cannot be done efficiently."])
      ++ trace s.
Proof.
  intros plan sql. unfold peek, _get_optimized_plan, get_cache, ret, bind.
  cbv beta iota. fold plan. fold sql.
  destruct (can_fast_peek ext plan); cbv [negb]; cbv beta iota.
  - split; [reflexivity |].
    destruct (@run_execute_query_state ext strictly_ordered sql None None s)
      as [submitted [Hs _]].
    exists submitted. rewrite Hs. reflexivity.
  - unfold emit.
    set (s1 := mkState (_cached_executions s) (guid_counter s)
                       (EvWarn "Peeking this value cannot be done efficiently."
                        :: trace s)).
    split; [apply run_execute_query_result_ignores_state |].
    destruct (@run_execute_query_state ext strictly_ordered sql None None s1)
      as [submitted [Hs _]].
    exists submitted. rewrite Hs. reflexivity.
Qed.

(** X19: [get_row_count] answers a statically known count without
    submitting anything and without changing the state; otherwise it
    submits exactly one query, the unordered compilation of the optimized
    row-count plan over the node, and answers the first cell of the
    first row. *)
Theorem get_row_count_paths ext strictly_ordered node s :
  (forall c,
      row_count ext (replace_nodes ext node (_cached_executions s)) = Some c ->
      get_row_count ext strictly_ordered node s = (Ok c, s)) /\
  (row_count ext (replace_nodes ext node (_cached_executions s)) = None ->
   let sql := compile_unordered ext
                (replace_nodes ext (RowCountNode node) (_cached_executions s)) [] in
   exists submitted,
     snd (get_row_count ext strictly_ordered node s)
     = mkState (_cached_executions s) (guid_counter s)
               (EvQuery sql submitted :: trace s) /\
     forall v row rows job,
       bq_query ext sql submitted = Ok ((v :: row) :: rows, job) ->
       fst (get_row_count ext strictly_ordered node s) = Ok v).
Proof.
  split.
  - intros c Hc. unfold get_row_count, _local_get_row_count, _get_optimized_plan,
      get_cache, ret, bind. cbv beta iota. rewrite Hc. reflexivity.
  - intros Hnone sql.
    unfold get_row_count, _local_get_row_count, _get_optimized_plan, get_cache,
      ret, generate_row_count_plan, bind.
    cbv beta iota. rewrite Hnone. cbv beta iota. fold sql.
    destruct (@run_execute_query_state ext strictly_ordered sql None None s)
      as [submitted [Hs Hok]].
    exists submitted.
    destruct (_run_execute_query ext strictly_ordered sql None None s)
      as [[[rows0 job0]|e] s']; simpl in Hs, Hok; subst s'.
    + split.
      * destruct rows0 as [|[|v0 row0] rows0]; reflexivity.
      * intros v row rows job Hq. specialize (Hok _ Hq).
        injection Hok as -> ->. reflexivity.
    + split; [reflexivity |].
      intros v row rows job Hq. specialize (Hok _ Hq). discriminate.
Qed.

Lemma get_row_count_paths_witness :
  let ext := sample_externals false (Some 3%Z) None in
  row_count ext (replace_nodes ext scenario_aggregate
                   (_cached_executions initial_state)) = Some 3%Z /\
  get_row_count ext true scenario_aggregate initial_state = (Ok 3%Z, initial_state).
Proof.
  intros ext. split; [reflexivity |].
  apply (proj1 (@get_row_count_paths ext true scenario_aggregate initial_state)).
  reflexivity.
Defined.

(** ** Bounds on what an entry point does *)

Lemma effects_execute env ext strictly_ordered node ordered col_id_overrides
    use_explicit_destination :
  effects_within
    (execute env ext strictly_ordered node ordered col_id_overrides
       use_explicit_destination)
    ((if enable_multi_query_execution ext then 5 else 0) + 1)
    ((if enable_multi_query_execution ext then 5 else 0)
     + (if use_explicit_destination then 1 else 0)).
Proof.
  unfold execute.
  apply (@effects_bind _ _ _ _ _ _ 1 (if use_explicit_destination then 1 else 0)).
  - destruct (enable_multi_query_execution ext).
    + apply (@effects_simplify_loop env ext strictly_ordered 5 node).
    + apply effects_ret.
  - intros _. destruct use_explicit_destination.
    + apply (@effects_bind _ _ _ _ 0 0 1 1); [apply effects_to_sql |].
      intros sql. apply (@effects_bind _ _ _ _ 0 1 1 0).
      * apply (@effects_bind _ _ _ _ 0 0 0 1); [apply effects_lift |].
        intros sch. apply (@effects_bind _ _ _ _ 0 1 0 0).
        -- intros s. eexists [_]. split; [reflexivity | split; count_events].
        -- intros _. apply effects_ret.
      * intros cfg. apply effects_run_execute_query.
    + apply (@effects_bind _ _ _ _ 0 0 1 0); [apply effects_to_sql |].
      intros sql. apply (@effects_bind _ _ _ _ 0 0 1 0); [apply effects_ret |].
      intros cfg. apply effects_run_execute_query.
Qed.

Lemma execute_keeps_cache_without_factoring env ext strictly_ordered node ordered
    col_id_overrides use_explicit_destination :
  enable_multi_query_execution ext = false ->
  keeps_cache (execute env ext strictly_ordered node ordered col_id_overrides
                 use_explicit_destination).
Proof.
  intros Hoff. unfold execute. rewrite Hoff.
  apply keeps_cache_bind; [intros s; reflexivity |]. intros _.
  apply keeps_cache_bind; [apply to_sql_keeps_cache |]. intros sql.
  apply keeps_cache_bind; [| intros cfg; apply run_execute_query_keeps_cache].
  destruct use_explicit_destination; [| intros s; reflexivity].
  apply keeps_cache_bind; [intros s; reflexivity |]. intros sch.
  apply keeps_cache_bind; intros; intros s; reflexivity.
Qed.

(** X20: [execute] submits at most 6 queries and creates at most 6
    temporary tables, whatever the plan; with multi-query execution
    switched off it never writes the cache, submits at most one query,
    and creates a temporary table only for an explicit destination. *)
Theorem execute_is_bounded env ext strictly_ordered node ordered col_id_overrides
    use_explicit_destination :
  effects_within
    (execute env ext strictly_ordered node ordered col_id_overrides
       use_explicit_destination) 6 6 /\
  (enable_multi_query_execution ext = false ->
   keeps_cache (execute env ext strictly_ordered node ordered col_id_overrides
                  use_explicit_destination) /\
   effects_within
     (execute env ext strictly_ordered node ordered col_id_overrides
        use_explicit_destination)
     1 (if use_explicit_destination then 1 else 0)).
Proof.
  pose proof (@effects_execute env ext strictly_ordered node ordered
                col_id_overrides use_explicit_destination) as He.
  split.
  - eapply effects_weaken; [exact He | |];
      destruct (enable_multi_query_execution ext);
      destruct use_explicit_destination; simpl; lia.
  - intros Hoff. split;
      [apply execute_keeps_cache_without_factoring; exact Hoff |].
    rewrite Hoff in He. exact He.
Qed.

Lemma execute_is_bounded_witness :
  enable_multi_query_execution overloaded_externals = false /\
  keeps_cache (execute int_typing overloaded_externals true scenario_filter true []
                 false) /\
  effects_within
    (execute int_typing overloaded_externals true scenario_filter true [] false)
    1 0.
Proof.
  split; [reflexivity |].
  apply (proj2 (@execute_is_bounded int_typing overloaded_externals true
                  scenario_filter true [] false)).
  reflexivity.
Defined.

Lemma effects_cache_with_offsets env ext strictly_ordered node :
  effects_within (_cache_with_offsets env ext strictly_ordered node) 1 1.
Proof.
  unfold _cache_with_offsets.
  destruct strictly_ordered; simpl negb; cbn iota;
    [| apply (@effects_weaken _ _ 0 0); [apply effects_throw | lia | lia]].
  apply (@effects_bind _ _ _ _ 0 0 1 1); [apply effects_silent; reflexivity |].
  intros _.
  apply (@effects_bind _ _ _ _ 0 0 1 1); [apply effects_silent; reflexivity |].
  intros [w_offsets offset_column].
  apply (@effects_bind _ _ _ _ 0 0 1 1); [apply effects_get_optimized_plan |].
  intros plan.
  apply (@effects_bind _ _ _ _ 0 0 1 1); [apply effects_lift |].
  intros w_schema.
  apply (@effects_bind _ _ _ _ 1 1 0 0);
    [apply effects_sql_as_cached_temp_table |].
  intros tmp_table.
  apply (@effects_bind _ _ _ _ 0 0 0 0); [apply effects_lift |].
  intros cached. apply effects_silent. reflexivity.
Qed.

Lemma effects_run_head_plan env ext strictly_ordered plan n :
  effects_within (run_head_plan env ext strictly_ordered plan n) 1 0.
Proof.
  unfold run_head_plan.
  apply (@effects_bind _ _ _ _ 0 0 1 0).
  - unfold generate_head_plan.
    apply (@effects_bind _ _ _ _ 0 0 0 0); [apply effects_silent; reflexivity |].
    intros oid.
    apply (@effects_bind _ _ _ _ 0 0 0 0); [apply effects_lift |].
    intros sch. apply effects_ret.
  - intros head_plan. apply effects_run_execute_query.
Qed.

(** X21: [head] submits at most 6 queries and creates at most 6
    temporary tables; with multi-query execution switched off it submits
    at most 2 queries and creates at most 1 temporary table (the offsets
    materialization and the head query). *)
Theorem head_is_bounded env ext strictly_ordered node n :
  effects_within (head env ext strictly_ordered node n) 6 6 /\
  (enable_multi_query_execution ext = false ->
   effects_within (head env ext strictly_ordered node n) 2 1).
Proof.
  assert (Hrest : forall plan,
    effects_within
      (bind (if negb (can_fast_head ext plan)
             then bind (_cache_with_offsets env ext strictly_ordered node)
                    (fun _ => bind (_get_optimized_plan ext node)
                    (fun plan0 => bind (assert (can_fast_head ext plan0))
                    (fun _ => ret plan0)))
             else ret plan)
            (fun plan0 => run_head_plan env ext strictly_ordered plan0 n)) 2 1).
  { intros plan. apply (@effects_bind _ _ _ _ 1 1 1 0);
      [| intros p; apply effects_run_head_plan].
    destruct (can_fast_head ext plan); simpl negb; cbn iota;
      [apply (@effects_weaken _ _ 0 0); [apply effects_ret | lia | lia] |].
    apply (@effects_bind _ _ _ _ 1 1 0 0); [apply effects_cache_with_offsets |].
    intros _.
    apply (@effects_bind _ _ _ _ 0 0 0 0); [apply effects_get_optimized_plan |].
    intros p. apply (@effects_bind _ _ _ _ 0 0 0 0); [apply effects_assert |].
    intros _. apply effects_ret. }
  assert (Hgen : forall q t,
    (forall ordered, effects_within
       (execute env ext strictly_ordered node ordered [] false) q t) ->
    (2 <= q)%nat -> (1 <= t)%nat ->
    effects_within (head env ext strictly_ordered node n) q t).
  { intros q t Hexec Hq Ht. unfold head.
    apply (@effects_bind _ _ _ _ 0 0 q t); [apply effects_silent; reflexivity |].
    intros maybe_row_count.
    match goal with |- effects_within (if ?b then _ else _) _ _ => destruct b end;
      [apply Hexec |].
    destruct (negb strictly_ordered && negb (explicitly_ordered ext node)).
    - eapply effects_weaken; [apply effects_peek | lia | lia].
    - apply (@effects_bind _ _ _ _ 0 0 q t); [apply effects_get_optimized_plan |].
      intros plan. eapply effects_weaken; [apply (Hrest plan) | lia | lia]. }
  split.
  - apply Hgen; [| lia | lia]. intros ordered.
    eapply effects_weaken;
      [apply (@effects_execute env ext strictly_ordered node ordered [] false)
      | destruct (enable_multi_query_execution ext); simpl; lia
      | destruct (enable_multi_query_execution ext); simpl; lia].
  - intros Hoff. apply Hgen; [| lia | lia]. intros ordered.
    pose proof (@effects_execute env ext strictly_ordered node ordered [] false)
      as He.
    rewrite Hoff in He. eapply effects_weaken; [exact He | simpl; lia | simpl; lia].
Qed.

Lemma head_is_bounded_witness :
  enable_multi_query_execution overloaded_externals = false /\
  effects_within (head int_typing overloaded_externals true scenario_filter 5) 2 1.
Proof.
  split; [reflexivity |].
  apply (proj2 (@head_is_bounded int_typing overloaded_externals true
                  scenario_filter 5)).
  reflexivity.
Defined.

(** ** Materializations and the cache *)

Lemma In_cache_set (k v k' v' : BigFrameNode) (c : Cache) :
  In (k', v') (cache_set k v c) -> (k', v') = (k, v) \/ In (k', v') c.
Proof.
  unfold cache_set. intros [E | Hin]; [left; symmetry; exact E |].
  apply filter_In in Hin. right. apply Hin.
Qed.

Lemma bind_ok {A B} (m : Exec A) (k : A -> Exec B) (s s' : State) (b : B) :
  bind m k s = (Ok b, s') ->
  exists a s1, m s = (Ok a, s1) /\ k a s1 = (Ok b, s').
Proof.
  unfold bind. destruct (m s) as [[a|e] s1]; [| discriminate].
  intros E. exists a, s1. split; [reflexivity | exact E].
Qed.

Lemma sql_as_cached_temp_table_ok ext strictly_ordered sql schema cluster_cols s s'
    table :
  _sql_as_cached_temp_table ext strictly_ordered sql schema cluster_cols s
  = (Ok table, s') ->
  (len cluster_cols <= _MAX_CLUSTER_COLUMNS)%Z /\
  exists submitted,
    s' = mkState (_cached_executions s) (guid_counter s)
                 (EvQuery sql submitted
                  :: EvCreateTempTable schema cluster_cols :: trace s).
Proof.
  unfold _sql_as_cached_temp_table. intros E.
  apply bind_ok in E. destruct E as ([] & s1 & E1 & E).
  unfold assert in E1.
  destruct (len cluster_cols <=? _MAX_CLUSTER_COLUMNS)%Z eqn:Elen;
    [| discriminate].
  injection E1 as <-. apply Z.leb_le in Elen. split; [exact Elen |].
  apply bind_ok in E. destruct E as ([] & s2 & E2 & E).
  injection E2 as <-.
  apply bind_ok in E. destruct E as (r & s3 & E3 & E).
  injection E as _ <-.
  match type of E3 with _run_execute_query ?e ?b ?q ?c ?a ?st = _ =>
    destruct (@run_execute_query_state e b q c a st) as [submitted [Hs _]] end.
  rewrite E3 in Hs. simpl in Hs. exists submitted. exact Hs.
Qed.

Lemma as_cached_ok env ext node table ordering s s' v :
  as_cached env ext node table ordering s = (Ok v, s') ->
  s' = s /\
  v = CachedTableNode node (project table) (dataset_id table) (table_id table)
        (get_table_schema ext table) ordering /\
  __post_init__ env v = Ok tt.
Proof.
  unfold as_cached, lift. intros E. injection E as E <-.
  apply construct_checked in E. destruct E as [-> E].
  split; [reflexivity |]. split; [reflexivity | exact E].
Qed.



(** X23: when [_cache_with_cluster_cols] returns, one temporary table
    with at most 4 cluster columns was created and filled by one query,
    the raw compilation of the plan optimized with the cache as it was.
    The only binding the call adds to the cache maps the node to a
    checked cached table that embeds the node, carries the ordering the
    compiler reported and has the schema of the node; when no equal key
    was bound before, that binding is in the cache on return. *)
Theorem cache_with_cluster_cols_registers env ext strictly_ordered node cluster_cols
    s s' :
  _cache_with_cluster_cols env ext strictly_ordered node cluster_cols s = (Ok tt, s') ->
  let compiled := compile_raw ext (replace_nodes ext node (_cached_executions s)) in
  let sql := fst (fst compiled) in
  let physical := snd (fst compiled) in
  let ordering_info := snd compiled in
  let chosen := select_cluster_cols ext physical cluster_cols in
  (len chosen <= 4)%Z /\
  exists table submitted,
    let replacement :=
      CachedTableNode node (project table) (dataset_id table) (table_id table)
        (get_table_schema ext table) ordering_info in
    guid_counter s' = guid_counter s /\
    trace s' = EvQuery sql submitted :: EvCreateTempTable physical chosen :: trace s /\
    (forall k v, In (k, v) (_cached_executions s') ->
                 In (k, v) (_cached_executions s) \/ (k, v) = (node, replacement)) /\
    (is_new_key node (_cached_executions s) ->
     In (node, replacement) (_cached_executions s')) /\
    __post_init__ env replacement = Ok tt /\
    schema env replacement = schema env node.
Proof.
  unfold _cache_with_cluster_cols. intros E.
  apply bind_ok in E. destruct E as (plan & s1 & E1 & E).
  injection E1 as <- <-.
  destruct (compile_raw ext (replace_nodes ext node (_cached_executions s)))
    as [[sql physical] ordering_info] eqn:Ec.
  apply bind_ok in E. destruct E as (table & s2 & E2 & E).
  apply sql_as_cached_temp_table_ok in E2. destruct E2 as [Hlen [submitted ->]].
  apply bind_ok in E. destruct E as (v & s3 & E3 & E).
  apply as_cached_ok in E3. destruct E3 as (-> & -> & Hv).
  injection E as <-. simpl. split; [exact Hlen |].
  exists table, submitted.
  split; [reflexivity |]. split; [reflexivity |].
  split; [intros k v Hin; apply In_cache_set in Hin;
          destruct Hin as [Hin | Hin]; [right | left]; exact Hin |].
  split; [intros _; left; reflexivity |].
  split; [exact Hv | reflexivity].
Qed.

Lemma cache_with_cluster_cols_registers_witness :
  let ext := sample_externals false None None in
  let s' := snd (_cache_with_cluster_cols int_typing ext true scenario_table ["k"]
                   initial_state) in
  _cache_with_cluster_cols int_typing ext true scenario_table ["k"] initial_state
  = (Ok tt, s') /\
  is_new_key scenario_table (_cached_executions initial_state) /\
  map fst (_cached_executions s') = [scenario_table] /\
  (len (select_cluster_cols ext [] ["k"]) <= 4)%Z.
Proof.
  intros ext s'.
  assert (E : _cache_with_cluster_cols int_typing ext true scenario_table ["k"]
                initial_state = (Ok tt, s')) by (vm_compute; reflexivity).
  split; [exact E |]. split; [intros k v [] |].
  split; [vm_compute; reflexivity |].
  apply (proj1 (@cache_with_cluster_cols_registers int_typing ext true
                  scenario_table ["k"] initial_state s' E)).
Defined.

Lemma registers_keeps_consistent {A} env node (m : Exec A) :
  registers_at_most env node m -> keeps_cache_consistent env m.
Proof.
  intros Hm s Hc. destruct (Hm s) as [-> | (p & d & t & ps & ord & Hv & ->)];
    [exact Hc |].
  intros k v Hin. apply In_cache_set in Hin. destruct Hin as [[= -> ->] | Hin].
  - exists p, d, t, ps, ord. split; [reflexivity | exact Hv].
  - apply Hc. exact Hin.
Qed.

Lemma keeps_cache_registers {A} env node (m : Exec A) :
  keeps_cache m -> registers_at_most env node m.
Proof. intros Hm s. left. apply Hm. Qed.

Lemma registers_bind {A B} env node (m : Exec A) (k : A -> Exec B) :
  keeps_cache m -> (forall a, registers_at_most env node (k a)) ->
  registers_at_most env node (bind m k).
Proof.
  intros Hm Hk s. unfold bind. specialize (Hm s).
  destruct (m s) as [[a|e] s1]; simpl in *.
  - rewrite <- Hm. apply Hk.
  - left. exact Hm.
Qed.

Lemma keeps_consistent_bind {A B} env (m : Exec A) (k : A -> Exec B) :
  keeps_cache_consistent env m -> (forall a, keeps_cache_consistent env (k a)) ->
  keeps_cache_consistent env (bind m k).
Proof.
  intros Hm Hk s Hc. unfold bind. specialize (Hm s Hc).
  destruct (m s) as [[a|e] s1]; simpl in *.
  - apply Hk. exact Hm.
  - exact Hm.
Qed.

Lemma keeps_cache_keeps_consistent {A} env (m : Exec A) :
  keeps_cache m -> keeps_cache_consistent env m.
Proof. intros Hm s Hc. rewrite Hm. exact Hc. Qed.

Lemma sql_as_cached_temp_table_keeps_cache ext strictly_ordered sql schema
    cluster_cols :
  keeps_cache (_sql_as_cached_temp_table ext strictly_ordered sql schema cluster_cols).
Proof.
  unfold _sql_as_cached_temp_table.
  apply keeps_cache_bind;
    [unfold assert; destruct (_ <=? _)%Z; intros s; reflexivity |].
  intros _. apply keeps_cache_bind; [intros s; reflexivity |].
  intros _. apply keeps_cache_bind; [apply run_execute_query_keeps_cache |].
  intros r s. reflexivity.
Qed.

Lemma register_cached env ext node table ordering :
  registers_at_most env node
    (bind (as_cached env ext node table ordering) (fun v => set_cache node v)).
Proof.
  intros s. unfold bind.
  destruct (as_cached env ext node table ordering s) as [[v|e] s1] eqn:E.
  - apply as_cached_ok in E. destruct E as (-> & -> & Hv).
    right. do 5 eexists. split; [exact Hv | reflexivity].
  - left. unfold as_cached, lift in E. injection E as _ <-. reflexivity.
Qed.

Lemma cache_with_cluster_cols_registers_at_most env ext strictly_ordered node
    cluster_cols :
  registers_at_most env node
    (_cache_with_cluster_cols env ext strictly_ordered node cluster_cols).
Proof.
  unfold _cache_with_cluster_cols.
  apply registers_bind; [intros s; reflexivity |]. intros plan.
  destruct (compile_raw ext plan) as [[sql schema] ordering_info].
  apply registers_bind; [apply sql_as_cached_temp_table_keeps_cache |].
  intros table. apply register_cached.
Qed.

Lemma cache_with_offsets_registers_at_most env ext strictly_ordered node :
  registers_at_most env node (_cache_with_offsets env ext strictly_ordered node).
Proof.
  unfold _cache_with_offsets.
  destruct strictly_ordered; simpl negb; cbn iota;
    [| apply keeps_cache_registers; intros s; reflexivity].
  apply registers_bind; [intros s; reflexivity |]. intros _.
  apply registers_bind; [intros s; reflexivity |]. intros [w_offsets offset_column].
  apply registers_bind; [intros s; reflexivity |]. intros plan.
  apply registers_bind; [intros s; reflexivity |]. intros w_schema.
  apply registers_bind; [apply sql_as_cached_temp_table_keeps_cache |].
  intros table. apply register_cached.
Qed.

Lemma cache_most_complex_subtree_keeps_consistent env ext strictly_ordered node :
  keeps_cache_consistent env
    (_cache_most_complex_subtree env ext strictly_ordered node).
Proof.
  unfold _cache_most_complex_subtree.
  apply keeps_consistent_bind;
    [apply keeps_cache_keeps_consistent; intros s; reflexivity |].
  intros cache.
  destruct (select_cache_target ext node (QUERY_COMPLEXITY_LIMIT / 500)
              QUERY_COMPLEXITY_LIMIT cache) as [target|].
  - apply keeps_consistent_bind.
    + apply (@registers_keeps_consistent _ env target).
      apply cache_with_cluster_cols_registers_at_most.
    + intros _. apply keeps_cache_keeps_consistent. intros s. reflexivity.
  - apply keeps_cache_keeps_consistent. intros s. reflexivity.
Qed.

Lemma simplify_loop_keeps_consistent env ext strictly_ordered k node :
  keeps_cache_consistent env (simplify_loop env ext strictly_ordered k node).
Proof.
  induction k as [|k IH].
  - apply keeps_cache_keeps_consistent. intros s. reflexivity.
  - cbn [simplify_loop].
    apply keeps_consistent_bind;
      [apply keeps_cache_keeps_consistent; intros s; reflexivity |].
    intros plan.
    apply keeps_consistent_bind;
      [apply keeps_cache_keeps_consistent; intros s; reflexivity |].
    intros c. destruct (c <? QUERY_COMPLEXITY_LIMIT)%Z;
      [apply keeps_cache_keeps_consistent; intros s; reflexivity |].
    apply keeps_consistent_bind;
      [apply cache_most_complex_subtree_keeps_consistent |].
    intros [|]; simpl; [exact IH |].
    apply keeps_cache_keeps_consistent. intros s. reflexivity.
Qed.

Lemma execute_keeps_consistent env ext strictly_ordered node ordered col_id_overrides
    use_explicit_destination :
  keeps_cache_consistent env
    (execute env ext strictly_ordered node ordered col_id_overrides
       use_explicit_destination).
Proof.
  unfold execute. apply keeps_consistent_bind.
  - destruct (enable_multi_query_execution ext).
    + apply simplify_loop_keeps_consistent.
    + apply keeps_cache_keeps_consistent. intros s. reflexivity.
  - intros _. apply keeps_cache_keeps_consistent.
    apply keeps_cache_bind; [apply to_sql_keeps_cache |]. intros sql.
    apply keeps_cache_bind; [| intros cfg; apply run_execute_query_keeps_cache].
    destruct use_explicit_destination; [| intros s; reflexivity].
    apply keeps_cache_bind; [intros s; reflexivity |]. intros sch.
    apply keeps_cache_bind; intros; intros s; reflexivity.
Qed.

Lemma run_head_plan_keeps_cache env ext strictly_ordered plan n :
  keeps_cache (run_head_plan env ext strictly_ordered plan n).
Proof.
  unfold run_head_plan. apply keeps_cache_bind.
  - unfold generate_head_plan. apply keeps_cache_bind; [intros s; reflexivity |].
    intros oid. apply keeps_cache_bind; intros; intros s; reflexivity.
  - intros head_plan. apply run_execute_query_keeps_cache.
Qed.

Lemma head_keeps_consistent env ext strictly_ordered node n :
  keeps_cache_consistent env (head env ext strictly_ordered node n).
Proof.
  unfold head. apply keeps_consistent_bind;
    [apply keeps_cache_keeps_consistent; intros s; reflexivity |].
  intros maybe_row_count.
  match goal with |- keeps_cache_consistent _ (if ?b then _ else _) => destruct b end;
    [apply execute_keeps_consistent |].
  destruct (negb strictly_ordered && negb (explicitly_ordered ext node));
    [apply keeps_cache_keeps_consistent; apply peek_keeps_cache |].
  apply keeps_consistent_bind;
    [apply keeps_cache_keeps_consistent; intros s; reflexivity |].
  intros plan. apply keeps_consistent_bind.
  - destruct (can_fast_head ext plan); simpl negb; cbn iota;
      [apply keeps_cache_keeps_consistent; intros s; reflexivity |].
    apply keeps_consistent_bind.
    + apply (@registers_keeps_consistent _ env node).
      apply cache_with_offsets_registers_at_most.
    + intros _. apply keeps_cache_keeps_consistent.
      apply keeps_cache_bind; [intros s; reflexivity |]. intros p.
      apply keeps_cache_bind;
        [unfold assert; destruct (can_fast_head ext p); intros s; reflexivity |].
      intros _ s. reflexivity.
  - intros p. apply keeps_cache_keeps_consistent. apply run_head_plan_keeps_cache.
Qed.

(** X24: every entry of the cache binds a node to a checked cached
    table that embeds that node, and [head], [execute] and the factoring
    loop keep it so from any state, whether they return or raise; the
    replacement of an entry therefore has the schema and the session of
    its key and no children. *)
Theorem cache_entries_stay_consistent env ext strictly_ordered node n ordered
    col_id_overrides use_explicit_destination :
  cache_consistent env [] /\
  keeps_cache_consistent env (head env ext strictly_ordered node n) /\
  keeps_cache_consistent env
    (execute env ext strictly_ordered node ordered col_id_overrides
       use_explicit_destination) /\
  keeps_cache_consistent env (_simplify_with_caching env ext strictly_ordered node) /\
  (forall cache k v,
      cache_consistent env cache -> In (k, v) cache ->
      schema env v = schema env k /\ session v = session k /\ child_nodes v = [] /\
      __post_init__ env v = Ok tt).
Proof.
  split; [intros k v [] |].
  split; [apply head_keeps_consistent |].
  split; [apply execute_keeps_consistent |].
  split; [apply simplify_loop_keeps_consistent |].
  intros cache k v Hc Hin.
  destruct (Hc k v Hin) as (p & d & t & ps & ord & -> & Hv).
  repeat split; try reflexivity. exact Hv.
Qed.

Lemma cache_entries_stay_consistent_witness :
  let ext := sample_externals false None None in
  let s' := snd (head int_typing ext true scenario_table 5 initial_state) in
  cache_consistent int_typing (_cached_executions initial_state) /\
  cache_consistent int_typing (_cached_executions s') /\
  map fst (_cached_executions s') = [scenario_table].
Proof.
  intros ext s'.
  assert (H0 : cache_consistent int_typing (_cached_executions initial_state))
    by (intros k v []).
  split; [exact H0 |]. split; [| vm_compute; reflexivity].
  apply (proj1 (proj2 (@cache_entries_stay_consistent int_typing ext true
                         scenario_table 5 true [] false)) initial_state H0).
Defined.

(** ** Session-aware caching and export *)

(** X25: [_cache_with_session_awareness] takes the offsets strategy
    only in a strictly ordered session and only when the planner
    proposed no cluster columns; in every other case it is the
    cluster-column materialization of the planner's target with the
    proposed columns.  Either way it submits at most one query, creates
    at most one temporary table and registers at most the target. *)
Theorem session_aware_caching_strategy env ext strictly_ordered session_forest
    session_aware_cache_plan node :
  let plan := session_aware_cache_plan node (session_forest node) in
  let target := fst plan in
  let cluster_cols := snd plan in
  let m := _cache_with_session_awareness env ext strictly_ordered session_forest
             session_aware_cache_plan node in
  (cluster_cols <> [] \/ strictly_ordered = false ->
   m = _cache_with_cluster_cols env ext strictly_ordered target cluster_cols) /\
  (cluster_cols = [] -> strictly_ordered = true ->
   m = _cache_with_offsets env ext strictly_ordered target) /\
  effects_within m 1 1 /\
  registers_at_most env target m.
Proof.
  intros plan target cluster_cols m. subst m target cluster_cols.
  unfold _cache_with_session_awareness. fold plan.
  destruct plan as [target cluster_cols]. simpl fst. simpl snd.
  destruct cluster_cols as [|c cs].
  - change (0 <? len (@nil string))%Z with false. cbn iota.
    split; [| split; [| split]].
    + intros [Hne | ->]; [contradiction | reflexivity].
    + intros _ ->. reflexivity.
    + destruct strictly_ordered;
        [apply effects_cache_with_offsets | apply effects_cache_with_cluster_cols].
    + destruct strictly_ordered;
        [apply cache_with_offsets_registers_at_most
        | apply cache_with_cluster_cols_registers_at_most].
  - assert (Hpos : (0 <? len (c :: cs))%Z = true)
      by (apply Z.ltb_lt; unfold len; simpl List.length; lia).
    rewrite Hpos. split; [| split; [| split]].
    + reflexivity.
    + discriminate.
    + apply effects_cache_with_cluster_cols.
    + apply cache_with_cluster_cols_registers_at_most.
Qed.

Lemma session_aware_caching_strategy_witness :
  let ext := sample_externals false None None in
  let planner := fun (n : BigFrameNode) (_ : list BigFrameNode) =>
                   (n, @nil string) in
  (@nil string <> [] \/ false = false) /\
  _cache_with_session_awareness int_typing ext false (fun _ => []) planner
    scenario_table
  = _cache_with_cluster_cols int_typing ext false scenario_table [].
Proof.
  intros ext planner.
  assert (H : @nil string <> [] \/ false = false) by (right; reflexivity).
  split; [exact H |].
  apply (proj1 (@session_aware_caching_strategy int_typing ext false (fun _ => [])
                  planner scenario_table) H).
Defined.

Lemma export_gcs_unfold env ext strictly_ordered create_export_data_statement
    node col_id_overrides uri format export_options s :
  export_gcs env ext strictly_ordered create_export_data_statement
    node col_id_overrides uri format export_options s
  = match execute env ext strictly_ordered node false col_id_overrides false s with
    | (Ok r, s1) =>
        let table := job_destination (snd r) in
        let statement :=
          create_export_data_statement
            (project table ++ "." ++ dataset_id table ++ "." ++ table_id table)%string
            uri (format_name format) export_options in
        let job_config :=
          add_labels ext default_QueryJobConfig
                     (Some ("dataframe-to_" ++ format_name format)%string) in
        (match bq_query ext statement job_config with
         | Ok _ => Ok (snd r)
         | Raise e => Raise e
         end,
         mkState (_cached_executions s1) (guid_counter s1)
                 (EvQuery statement job_config :: trace s1))
    | (Raise e, s1) => (Raise e, s1)
    end.
Proof.
  unfold export_gcs, bind.
  destruct (execute env ext strictly_ordered node false col_id_overrides false s)
    as [[r|e] s1]; [| reflexivity].
  unfold emit, lift, ret. cbv zeta.
  match goal with |- context [bq_query ext ?st ?cfg] =>
    destruct (bq_query ext st cfg) end; reflexivity.
Qed.

(** X26: [export_gcs] runs the export statement only after the
    unordered execution returned, on the destination table of that job;
    it submits the statement directly: an exception of the export job
    comes out unchanged, a [BadRequest] about exceeded resources included,
    and a successful export answers the job of the execution. *)
Theorem export_gcs_outcome env ext strictly_ordered create_export_data_statement
    node col_id_overrides uri format export_options s :
  let exported := export_gcs env ext strictly_ordered create_export_data_statement
                    node col_id_overrides uri format export_options s in
  let executed := execute env ext strictly_ordered node false col_id_overrides false s in
  (forall e, fst executed = Raise e -> exported = (Raise e, snd executed)) /\
  (forall rows query_job,
      fst executed = Ok (rows, query_job) ->
      let table := job_destination query_job in
      let statement :=
        create_export_data_statement
          (project table ++ "." ++ dataset_id table ++ "." ++ table_id table)%string
          uri (format_name format) export_options in
      let job_config :=
        add_labels ext default_QueryJobConfig
                   (Some ("dataframe-to_" ++ format_name format)%string) in
      snd exported
      = mkState (_cached_executions (snd executed)) (guid_counter (snd executed))
                (EvQuery statement job_config :: trace (snd executed)) /\
      (forall r, bq_query ext statement job_config = Ok r ->
                 fst exported = Ok query_job) /\
      (forall e, bq_query ext statement job_config = Raise e ->
                 fst exported = Raise e)).
Proof.
  cbv zeta. rewrite export_gcs_unfold.
  destruct (execute env ext strictly_ordered node false col_id_overrides false s)
    as [[[rows0 job0]|e0] s1]; cbv zeta; cbn [fst snd]; split.
  - discriminate.
  - intros rows query_job [= -> ->]. split; [reflexivity |].
    split.
    + intros r Hq. rewrite Hq. reflexivity.
    + intros e Hq. rewrite Hq. reflexivity.
  - intros e [= <-]. reflexivity.
  - discriminate.
Qed.

Lemma export_gcs_outcome_witness :
  let ext := overloaded_externals in
  let statement := fun (table uri format : string)
                       (_ : list (string * (bool + string))) => table in
  fst (execute int_typing ext true scenario_filter false [] false initial_state)
  = Raise (QueryComplexityError
             "Computation is too complex to execute as a single query. Try using DataFrame.cache() on intermediate results, or setting bigframes.options.compute.enable_multi_query_execution.") /\
  fst (export_gcs int_typing ext true statement scenario_filter [] "gs://bucket/x"
         csv [] initial_state)
  = Raise (QueryComplexityError
             "Computation is too complex to execute as a single query. Try using DataFrame.cache() on intermediate results, or setting bigframes.options.compute.enable_multi_query_execution.").
Proof.
  intros ext statement.
  assert (E : fst (execute int_typing ext true scenario_filter false [] false
                     initial_state)
              = Raise (QueryComplexityError
             "Computation is too complex to execute as a single query. Try using DataFrame.cache() on intermediate results, or setting bigframes.options.compute.enable_multi_query_execution."))
    by reflexivity.
  split; [exact E |].
  rewrite (proj1 (@export_gcs_outcome int_typing ext true statement scenario_filter
                    [] "gs://bucket/x" csv [] initial_state) _ E).
  reflexivity.
Defined.
